(** * MConn transport: connection establishment and stream multiplexing

    A shallow embedding of [p2p/transport_mconn.go] and a verification of
    its documented behaviour.  Definitions come first (Part I), theorems
    after (Part II).

    Conventions of the embedding:
    - Go integers are [Z] with their wrap-around written out ([uint16_of],
      [byte_of]); slice lengths are [nat] and converted where Go returns
      an [int].
    - A [nil] pointer or a [nil] error is [None].
    - Channel operations are the constructors of [prog]; the Go runtime's
      treatment of them (parking, wake-up on close) is the function [step].
    - Calls into collaborators that live outside the file are the fields
      of [Collaborators]; a call made on the goroutine of the caller may
      return or panic ([call]).
    - Time is an integer number of nanoseconds. *)

From stdpp Require Import gmap strings list.
From Stdlib Require Import ZArith Lia.
From Stdlib.Strings Require Byte.

Set Default Proof Using "Type".
Set Warnings "-register-all".

(* ================================================================== *)
(** * Part I — Definitions                                             *)
(* ================================================================== *)

(** ** Basic data *)

Abbreviation bytes := (list Byte.byte).

Global Instance byte_eq_dec : EqDecision Byte.byte := Byte.byte_eq_dec.

(** [ID] is the hex-encoded node identity, [Protocol] a transport tag. *)
Definition ID := string.
Definition Protocol := string.
Definition IP := bytes.

(** const MConnProtocol Protocol = "mconn" *)
Definition MConnProtocol : Protocol := "mconn".

(** Conversions [uint16(x)] and [byte(x)]. *)
Definition uint16_of (x : Z) : Z := (x mod 65536)%Z.
Definition byte_of (x : Z) : Z := (x mod 256)%Z.
Definition math_MaxUint8 : Z := 255%Z.

(** time.Duration, in nanoseconds. *)
Definition Duration := Z.
Definition time_Second : Duration := 1000000000%Z.
Definition defaultDialTimeout : Duration := time_Second.
Definition defaultFilterTimeout : Duration := (5 * time_Second)%Z.
Definition defaultHandshakeTimeout : Duration := (3 * time_Second)%Z.

(** A raw socket ([net.Conn]): its descriptor and the text of its remote
    address ([tcpConn.RemoteAddr().String()]). *)
Record net_Conn := { fd : nat; RemoteAddr : string }.

Global Instance net_Conn_eq_dec : EqDecision net_Conn.
Proof. solve_decision. Defined.

Record NetAddress := { na_ID : ID; na_addr : string }.

(** ** Errors *)

(** The fields of [ErrRejected] other than the wrapped error. *)
Record rejection := {
  rej_addr : option NetAddress;
  rej_conn : option net_Conn;
  rej_id : ID;
  isAuthFailure : bool;
  isDuplicate : bool;
  isFiltered : bool;
  isIncompatible : bool;
  isNodeInfoInvalid : bool;
  isSelf : bool
}.

Inductive error : Type :=
| errors_New (msg : string)
| fmt_Errorf (format : string) (args : list fmt_arg)
| io_ErrShortBuffer
| io_EOF
| ErrFilterTimeout
| ErrTransportClosed
| ErrRejected (r : rejection) (err : option error)
| collaborator_error (msg : string)
with fmt_arg : Type :=
| arg_string (s : string)
| arg_int (n : Z)
| arg_bytes (b : bytes)
| arg_error (e : option error).

(** [ErrRejected{conn: c}]: every flag false, no address, no id. *)
Definition rejected (c : net_Conn) : rejection :=
  {| rej_addr := None; rej_conn := Some c; rej_id := "";
     isAuthFailure := false; isDuplicate := false; isFiltered := false;
     isIncompatible := false; isNodeInfoInvalid := false; isSelf := false |}.

Definition with_id (i : ID) (r : rejection) : rejection :=
  {| rej_addr := rej_addr r; rej_conn := rej_conn r; rej_id := i;
     isAuthFailure := isAuthFailure r; isDuplicate := isDuplicate r;
     isFiltered := isFiltered r; isIncompatible := isIncompatible r;
     isNodeInfoInvalid := isNodeInfoInvalid r; isSelf := isSelf r |}.

Definition with_addr (a : NetAddress) (r : rejection) : rejection :=
  {| rej_addr := Some a; rej_conn := rej_conn r; rej_id := rej_id r;
     isAuthFailure := isAuthFailure r; isDuplicate := isDuplicate r;
     isFiltered := isFiltered r; isIncompatible := isIncompatible r;
     isNodeInfoInvalid := isNodeInfoInvalid r; isSelf := isSelf r |}.

Definition authFailure (r : rejection) : rejection :=
  {| rej_addr := rej_addr r; rej_conn := rej_conn r; rej_id := rej_id r;
     isAuthFailure := true; isDuplicate := isDuplicate r;
     isFiltered := isFiltered r; isIncompatible := isIncompatible r;
     isNodeInfoInvalid := isNodeInfoInvalid r; isSelf := isSelf r |}.

Definition duplicate (r : rejection) : rejection :=
  {| rej_addr := rej_addr r; rej_conn := rej_conn r; rej_id := rej_id r;
     isAuthFailure := isAuthFailure r; isDuplicate := true;
     isFiltered := isFiltered r; isIncompatible := isIncompatible r;
     isNodeInfoInvalid := isNodeInfoInvalid r; isSelf := isSelf r |}.

Definition filtered (r : rejection) : rejection :=
  {| rej_addr := rej_addr r; rej_conn := rej_conn r; rej_id := rej_id r;
     isAuthFailure := isAuthFailure r; isDuplicate := isDuplicate r;
     isFiltered := true; isIncompatible := isIncompatible r;
     isNodeInfoInvalid := isNodeInfoInvalid r; isSelf := isSelf r |}.

Definition incompatible (r : rejection) : rejection :=
  {| rej_addr := rej_addr r; rej_conn := rej_conn r; rej_id := rej_id r;
     isAuthFailure := isAuthFailure r; isDuplicate := isDuplicate r;
     isFiltered := isFiltered r; isIncompatible := true;
     isNodeInfoInvalid := isNodeInfoInvalid r; isSelf := isSelf r |}.

Definition nodeInfoInvalid (r : rejection) : rejection :=
  {| rej_addr := rej_addr r; rej_conn := rej_conn r; rej_id := rej_id r;
     isAuthFailure := isAuthFailure r; isDuplicate := isDuplicate r;
     isFiltered := isFiltered r; isIncompatible := isIncompatible r;
     isNodeInfoInvalid := true; isSelf := isSelf r |}.

Definition self (r : rejection) : rejection :=
  {| rej_addr := rej_addr r; rej_conn := rej_conn r; rej_id := rej_id r;
     isAuthFailure := isAuthFailure r; isDuplicate := isDuplicate r;
     isFiltered := isFiltered r; isIncompatible := isIncompatible r;
     isNodeInfoInvalid := isNodeInfoInvalid r; isSelf := true |}.

(** ** Endpoints *)

Record Endpoint := {
  PeerID : ID;
  EProtocol : Protocol;
  Path : string;
  EIP : IP;
  Port : Z       (* uint16 *)
}.

Definition set_Protocol (p : Protocol) (e : Endpoint) : Endpoint :=
  {| PeerID := PeerID e; EProtocol := p; Path := Path e; EIP := EIP e;
     Port := Port e |}.

Definition set_Port (p : Z) (e : Endpoint) : Endpoint :=
  {| PeerID := PeerID e; EProtocol := EProtocol e; Path := Path e;
     EIP := EIP e; Port := uint16_of p |}.

Section Normalize.
(** [Endpoint.Validate] is declared with the [Endpoint] type, outside this
    file; the transport only looks at whether it returns an error. *)
Variable Validate : Endpoint -> option error.

(** func (m *mConnTransport) normalizeEndpoint(endpoint *Endpoint) error

    The endpoint is updated through the pointer, so the model returns the
    endpoint as the call leaves it (also on the error paths) together
    with the error. *)
Definition normalizeEndpoint (endpoint : option Endpoint)
  : option Endpoint * option error :=
  match endpoint with
  | None => (None, Some (errors_New "nil endpoint"))
  | Some e =>
    match Validate e with
    | Some err => (Some e, Some err)
    | None =>
      let e := if decide (EProtocol e = "")
               then set_Protocol MConnProtocol e else e in
      if decide (EProtocol e <> MConnProtocol) then
        (Some e, Some (fmt_Errorf "unsupported protocol %q"
                                  [arg_string (EProtocol e)]))
      else if decide (length (EIP e) = 0) then
        (Some e, Some (errors_New "endpoint must have an IP address"))
      else if decide (Path e <> "") then
        (Some e, Some (fmt_Errorf "endpoint cannot have path (got %q)"
                                  [arg_string (Path e)]))
      else
        let e := if decide (Port e = 0%Z) then set_Port 26657 e else e in
        (Some e, None)
    end
  end.
End Normalize.

(** ** Streams *)

(** What a stream method hands back to its caller: an [error], or an
    [(int, error)] pair together with the caller's buffer as the call
    left it. *)
Inductive value :=
| ret_err (e : option error)
| ret_int_err (n : Z) (e : option error) (buf : bytes).

(** The body of a stream method, as the sequence of channel operations
    it performs on the stream's [chReceive], [chClose] and [chCloseOnce]
    and on the connection's multiplexer. *)
Inductive prog :=
| Return (v : value)
  (* select { case bz := <-s.chReceive: recv bz; case <-s.chClose: closed } *)
| select_recv (recv : bytes -> prog) (closed : prog)
  (* select { case s.chReceive <- bz: sent; case <-s.chClose: closed } *)
| select_send (bz : bytes) (sent : prog) (closed : prog)
  (* select { case <-s.chClose: k true; default: k false } *)
| poll_chClose (k : bool -> prog)
  (* s.chCloseOnce.Do(func() { close(s.chClose) }); k *)
| chCloseOnce_Do_close (k : prog)
  (* k (s.connection.mConn.Send(chID, bz)) *)
| mConn_Send (chID : Z) (bz : bytes) (k : bool -> prog).

(** type mConnStream struct: the owning connection and the channel id;
    the two channels and the [sync.Once] are the [stream_state] below. *)
Record mConnStream := {
  connection : net_Conn;
  stream_id : Z      (* byte *)
}.

(** func newMConnStream(connection *mConnConnection, id uint16) *)
Definition newMConnStream (connection : net_Conn) (id : Z)
  : option mConnStream * option error :=
  if decide (math_MaxUint8 < uint16_of id)%Z then
    (None, Some (fmt_Errorf "MConn only supports channel IDs up to 255" []))
  else
    (Some {| connection := connection; stream_id := byte_of id |}, None).

(** func (s *mConnStream) isClosed() bool *)
Definition isClosed (k : bool -> prog) : prog := poll_chClose k.

Definition stream_closed_error (s : mConnStream) : error :=
  fmt_Errorf "stream 0x%x has been closed" [arg_int (stream_id s)].

(** func (s *mConnStream) receive(bz []byte, eof bool) error *)
Definition receive (s : mConnStream) (bz : bytes) (eof : bool) : prog :=
  let rest :=
    if eof then
      select_send [] (* marker for end of logical message *)
        (Return (ret_err None))
        (Return (ret_err (Some (stream_closed_error s))))
    else Return (ret_err None) in
  if decide (0 < length bz) then
    select_send bz rest (Return (ret_err (Some (stream_closed_error s))))
  else rest.

(** The built-in [copy(dst, src)]: it overwrites the first
    [min (len dst) (len src)] bytes of [dst]. *)
Definition copy (dst src : bytes) : bytes :=
  take (length dst) src ++ drop (length src) dst.

(** func (s *mConnStream) Read(target []byte) (int, error) *)
Definition Read (s : mConnStream) (target : bytes) : prog :=
  select_recv
    (fun bz =>
       if decide (length target < length bz) then
         Return (ret_int_err 0 (Some io_ErrShortBuffer) target)
       else
         Return (ret_int_err (Z.of_nat (length bz)) None (copy target bz)))
    (Return (ret_int_err 0 (Some io_EOF) target)).

(** func (s *mConnStream) Write(bz []byte) (int, error) *)
Definition Write (s : mConnStream) (bz : bytes) : prog :=
  isClosed (fun closed =>
    if closed then
      Return (ret_int_err 0
                (Some (fmt_Errorf "stream %v is closed" [arg_int (stream_id s)]))
                bz)
    else
      mConn_Send (stream_id s) bz (fun ok =>
        if negb ok then
          Return (ret_int_err 0
                    (Some (fmt_Errorf "MConn send failed for stream 0x%x"
                                      [arg_int (stream_id s)]))
                    bz)
        else Return (ret_int_err (Z.of_nat (length bz)) None bz))).

(** func (s *mConnStream) Close() error *)
Definition Close (s : mConnStream) : prog :=
  chCloseOnce_Do_close (Return (ret_err None)).

(** ** The Go runtime on one stream's channels

    [chReceive] is unbuffered and never closed; nothing is ever sent on
    [chClose], it is only closed.  Every blocking operation of the file
    on these channels is a two-way [select] with [<-s.chClose] as its
    second case.  The runtime runs a [select] in two passes: it first
    looks for a case that can proceed (a counterpart already parked on
    [chReceive], or [chClose] closed) and picks one of those at random;
    failing that it parks the goroutine on both channels until a
    counterpart arrives or the channel is closed. *)

Definition gid := nat.

(** Goroutines parked in a [select] of [Read] resp. [receive], with the
    continuations of the two cases. *)
Record recv_waiter := {
  rw_g : gid; rw_recv : bytes -> prog; rw_closed : prog
}.
Record send_waiter := {
  sw_g : gid; sw_bz : bytes; sw_sent : prog; sw_closed : prog
}.

(** One chunk passed over [chReceive]. *)
Record handoff := { ho_from : gid; ho_to : gid; ho_chunk : bytes }.

Record stream_state := {
  chClose_closed : bool;
  chCloseOnce_done : bool;
  chReceive_recvq : list recv_waiter;
  chReceive_sendq : list send_waiter;
  (** goroutines inside a method of the stream and not parked, with the
      code they have left; [Return v] is a call that has returned [v] *)
  running : gmap gid prog;
  (** history of the chunks passed over [chReceive], oldest first *)
  handed : list handoff
}.

(** The channels as [newMConnStream] makes them. *)
Definition new_stream_state : stream_state :=
  {| chClose_closed := false; chCloseOnce_done := false;
     chReceive_recvq := []; chReceive_sendq := [];
     running := ∅; handed := [] |}.

Definition resume (g : gid) (k : prog) (σ : stream_state) : stream_state :=
  {| chClose_closed := chClose_closed σ;
     chCloseOnce_done := chCloseOnce_done σ;
     chReceive_recvq := chReceive_recvq σ;
     chReceive_sendq := chReceive_sendq σ;
     running := <[g := k]> (running σ);
     handed := handed σ |}.

Definition wake_recv (ws : list recv_waiter) (r : gmap gid prog)
  : gmap gid prog :=
  foldr (fun w r => <[rw_g w := rw_closed w]> r) r ws.

Definition wake_send (ws : list send_waiter) (r : gmap gid prog)
  : gmap gid prog :=
  foldr (fun w r => <[sw_g w := sw_closed w]> r) r ws.

(** [close(s.chClose)]: every parked goroutine leaves its [select]
    through the [<-s.chClose] case. *)
Definition close_chClose (σ : stream_state) : stream_state :=
  {| chClose_closed := true;
     chCloseOnce_done := chCloseOnce_done σ;
     chReceive_recvq := [];
     chReceive_sendq := [];
     running := wake_recv (chReceive_recvq σ)
                  (wake_send (chReceive_sendq σ) (running σ));
     handed := handed σ |}.

Definition once_Do_close (σ : stream_state) : stream_state :=
  if chCloseOnce_done σ then σ
  else
    let σ := close_chClose σ in
    {| chClose_closed := chClose_closed σ;
       chCloseOnce_done := true;
       chReceive_recvq := chReceive_recvq σ;
       chReceive_sendq := chReceive_sendq σ;
       running := running σ;
       handed := handed σ |}.

(** One atomic action of goroutine [g].  [coin] is the runtime's random
    pick when both cases of a [select] can proceed; [send_ok] is what the
    multiplexer's [Send] answers. *)
Definition step (g : gid) (coin send_ok : bool) (σ : stream_state)
  : option stream_state :=
  match running σ !! g with
  | None => None
  | Some (Return _) => None
  | Some (select_recv recv closed) =>
    match chReceive_sendq σ with
    | w :: q =>
      if chClose_closed σ && coin then Some (resume g closed σ)
      else Some
        {| chClose_closed := chClose_closed σ;
           chCloseOnce_done := chCloseOnce_done σ;
           chReceive_recvq := chReceive_recvq σ;
           chReceive_sendq := q;
           running := <[g := recv (sw_bz w)]>
                        (<[sw_g w := sw_sent w]> (running σ));
           handed := handed σ ++
             [{| ho_from := sw_g w; ho_to := g; ho_chunk := sw_bz w |}] |}
    | [] =>
      if chClose_closed σ then Some (resume g closed σ)
      else Some
        {| chClose_closed := chClose_closed σ;
           chCloseOnce_done := chCloseOnce_done σ;
           chReceive_recvq := chReceive_recvq σ ++
             [{| rw_g := g; rw_recv := recv; rw_closed := closed |}];
           chReceive_sendq := chReceive_sendq σ;
           running := delete g (running σ);
           handed := handed σ |}
    end
  | Some (select_send bz sent closed) =>
    match chReceive_recvq σ with
    | w :: q =>
      if chClose_closed σ && coin then Some (resume g closed σ)
      else Some
        {| chClose_closed := chClose_closed σ;
           chCloseOnce_done := chCloseOnce_done σ;
           chReceive_recvq := q;
           chReceive_sendq := chReceive_sendq σ;
           running := <[g := sent]>
                        (<[rw_g w := rw_recv w bz]> (running σ));
           handed := handed σ ++
             [{| ho_from := g; ho_to := rw_g w; ho_chunk := bz |}] |}
    | [] =>
      if chClose_closed σ then Some (resume g closed σ)
      else Some
        {| chClose_closed := chClose_closed σ;
           chCloseOnce_done := chCloseOnce_done σ;
           chReceive_recvq := chReceive_recvq σ;
           chReceive_sendq := chReceive_sendq σ ++
             [{| sw_g := g; sw_bz := bz; sw_sent := sent;
                 sw_closed := closed |}];
           running := delete g (running σ);
           handed := handed σ |}
    end
  | Some (poll_chClose k) => Some (resume g (k (chClose_closed σ)) σ)
  | Some (chCloseOnce_Do_close k) => Some (resume g k (once_Do_close σ))
  | Some (mConn_Send _ _ k) => Some (resume g (k send_ok) σ)
  end.

Definition parked (g : gid) (σ : stream_state) : Prop :=
  g ∈ (rw_g <$> chReceive_recvq σ) \/ g ∈ (sw_g <$> chReceive_sendq σ).

(** A goroutine may enter a method of the stream when it is not inside
    one: it is not parked and has no unfinished code. *)
Definition idle (g : gid) (σ : stream_state) : Prop :=
  ¬ parked g σ /\
  match running σ !! g with
  | None | Some (Return _) => True
  | Some _ => False
  end.

Global Instance idle_dec g σ : Decision (idle g σ).
Proof.
  unfold idle, parked. destruct (running σ !! g) as [[]|]; apply _.
Defined.

(** Goroutine [g] calls a method whose body is [p]. *)
Definition call_method (g : gid) (p : prog) (σ : stream_state)
  : stream_state := resume g p σ.

Inductive action :=
| act_call (g : gid) (p : prog)
| act_step (g : gid) (coin send_ok : bool).

Definition perform (a : action) (σ : stream_state) : option stream_state :=
  match a with
  | act_call g p => if decide (idle g σ) then Some (call_method g p σ) else None
  | act_step g coin send_ok => step g coin send_ok σ
  end.

(** A schedule, run from left to right; [None] when some action of the
    schedule cannot be taken. *)
Fixpoint run (sched : list action) (σ : stream_state) : option stream_state :=
  match sched with
  | [] => Some σ
  | a :: sched =>
    match perform a σ with
    | Some σ' => run sched σ'
    | None => None
    end
  end.

(** The states a stream can be in. *)
Inductive reachable : stream_state -> Prop :=
| reachable_new : reachable new_stream_state
| reachable_perform a σ σ' :
    reachable σ -> perform a σ = Some σ' -> reachable σ'.

(** What the call of goroutine [g] returned, once it has. *)
Definition returned (g : gid) (σ : stream_state) : option value :=
  match running σ !! g with
  | Some (Return v) => Some v
  | _ => None
  end.

Definition received_by (g : gid) (h : list handoff) : list bytes :=
  ho_chunk <$> filter (fun x => ho_to x = g) h.

(** ** Invariants of a stream's channels *)

Record wf (σ : stream_state) : Prop := {
  (** once [chClose] is closed nobody is parked *)
  wf_closed : chClose_closed σ = true ->
              chReceive_recvq σ = [] /\ chReceive_sendq σ = [];
  (** [chClose] is closed by [chCloseOnce] and by nothing else *)
  wf_once : chCloseOnce_done σ = chClose_closed σ;
  (** a goroutine is parked at most once *)
  wf_nodup : NoDup ((rw_g <$> chReceive_recvq σ) ++ (sw_g <$> chReceive_sendq σ));
  (** and then it is not running *)
  wf_parked : forall g, parked g σ -> running σ !! g = None
}.

(** Goroutine [g] is inside [Read(target)] and has not received yet. *)
Definition reading (g : gid) (s : mConnStream) (target : bytes)
    (σ : stream_state) : Prop :=
  match Read s target with
  | select_recv recv closed =>
    running σ !! g = Some (select_recv recv closed) \/
    {| rw_g := g; rw_recv := recv; rw_closed := closed |} ∈ chReceive_recvq σ
  | _ => False
  end.



(** What [Read]-like code does with a chunk once its [select] has
    received it. *)
Definition on_recv (p : prog) (bz : bytes) : option prog :=
  match p with
  | select_recv recv _ => Some (recv bz)
  | _ => None
  end.


(** ** Collaborators and effects *)

(** A call either returns, or panics with a value on the goroutine of
    the caller, where a deferred [recover] can catch it, or ends with
    the program: a panic in another goroutine that the call has started
    is caught by no [recover] of the caller and terminates the
    process. *)
Inductive call (A : Type) : Type :=
| returns (a : A)
| panics (r : string)
| crashes (r : string).
Global Arguments returns {A} a.
Global Arguments panics {A} r.
Global Arguments crashes {A} r.

(** State passing with panics: a panic, and a crash, leaves the state as
    it was when it was raised. *)
Definition ST (S A : Type) : Type := S -> call A * S.

Global Instance ST_ret {S} : MRet (ST S) := fun A a s => (returns a, s).
Global Instance ST_bind {S} : MBind (ST S) := fun A B f m s =>
  match m s with
  | (returns a, s') => f a s'
  | (panics r, s') => (panics r, s')
  | (crashes r, s') => (crashes r, s')
  end.

Definition PubKey := string.
Definition PrivKey := string.

(** The identity descriptor of a node; only its id is looked at here. *)
Record DefaultNodeInfo := { DefaultNodeID : ID; Network : string }.
Definition NodeInfo_ID (info : DefaultNodeInfo) : ID := DefaultNodeID info.
Definition DefaultNodeInfo_zero : DefaultNodeInfo :=
  {| DefaultNodeID := ""; Network := "" |}.

(** The serialized descriptor ([p2pproto.DefaultNodeInfo]). *)
Definition pbNodeInfo := string.

Record ChannelDescriptor := { chDesc_ID : Z (* byte *); Priority : Z }.

Record SecretConnection := {
  sc_conn : net_Conn;
  RemotePubKey : PubKey
}.

Record MConnection := {
  mc_secretConn : SecretConnection;
  mc_chDescs : list ChannelDescriptor
}.

(** type mConnConnection struct.  The [transport] pointer is the
    transport the functions below take as an argument; a map value is a
    pointer and may be [nil]. *)
Record mConnConnection := {
  logger : option string;
  secretConn : option SecretConnection;
  mConn : option MConnection;
  streams : gmap Z (option mConnStream);
  nodeInfo : DefaultNodeInfo
}.

Definition set_secretConn (x : option SecretConnection) (c : mConnConnection) :=
  {| logger := logger c; secretConn := x; mConn := mConn c;
     streams := streams c; nodeInfo := nodeInfo c |}.
Definition set_nodeInfo (x : DefaultNodeInfo) (c : mConnConnection) :=
  {| logger := logger c; secretConn := secretConn c; mConn := mConn c;
     streams := streams c; nodeInfo := x |}.
Definition set_stream (k : Z) (x : option mConnStream) (c : mConnConnection) :=
  {| logger := logger c; secretConn := secretConn c; mConn := mConn c;
     streams := <[k := x]> (streams c); nodeInfo := nodeInfo c |}.
Definition set_mConn (x : option MConnection) (c : mConnConnection) :=
  {| logger := logger c; secretConn := secretConn c; mConn := x;
     streams := streams c; nodeInfo := nodeInfo c |}.
Definition set_logger (x : option string) (c : mConnConnection) :=
  {| logger := x; secretConn := secretConn c; mConn := mConn c;
     streams := streams c; nodeInfo := nodeInfo c |}.

Global Instance net_Conn_countable : Countable net_Conn.
Proof.
  refine (inj_countable' (fun c => (fd c, RemoteAddr c))
            (fun p => {| fd := p.1; RemoteAddr := p.2 |}) _).
  by intros [].
Defined.

(** Modelled from the spec: the ConnectionSet, which is declared outside
    this file.  It is a "mapping from raw-connection identity → set of
    resolved IPs" with the operations [has], [hasIP], [set] ("idempotent
    per connection (replaces the IP list)"), [remove] and
    [removeByAddr]; absence is a normal "no match" result. *)
Abbreviation ConnSet := (gmap net_Conn (list IP)).

Definition ConnSet_Has (cs : ConnSet) (c : net_Conn) : bool :=
  bool_decide (is_Some (cs !! c)).
Definition ConnSet_HasIP (cs : ConnSet) (ip : IP) : bool :=
  bool_decide (map_Exists (fun _ ips => ip ∈ ips) cs).
Definition ConnSet_Set (cs : ConnSet) (c : net_Conn) (ips : list IP) : ConnSet :=
  <[c := ips]> cs.
Definition ConnSet_Remove (cs : ConnSet) (c : net_Conn) : ConnSet :=
  delete c cs.
Definition ConnSet_RemoveAddr (cs : ConnSet) (addr : string) : ConnSet :=
  filter (fun kv => RemoteAddr kv.1 <> addr) cs.

(** type ConnFilterFunc func(ConnSet, net.Conn, []net.IP) error *)
Definition ConnFilterFunc := ConnSet -> net_Conn -> list IP -> option error.

(** var ConnDuplicateIPFilter ConnFilterFunc *)
Definition ConnDuplicateIPFilter : ConnFilterFunc := fun cs c ips =>
  (fix range (ips : list IP) : option error :=
     match ips with
     | [] => None
     | ip :: ips =>
       if ConnSet_HasIP cs ip then
         Some (ErrRejected (duplicate (rejected c))
                 (Some (fmt_Errorf "ip<%v> already connected" [arg_bytes ip])))
       else range ips
     end) ips.

(** type mConnTransport struct: the configuration.  The mutable parts
    (the ConnectionSet and what has been put on [chAccept] and [chError])
    are in [world]. *)
Record mConnTransport := {
  privKey : PrivKey;
  t_nodeInfo : DefaultNodeInfo;
  channelDescs : list ChannelDescriptor;
  maxIncomingConnections : Z;
  dialTimeout : Duration;
  handshakeTimeout : Duration;
  filterTimeout : Duration;
  connFilters : list ConnFilterFunc
}.

(** What the transport does to sockets and to its hand-off channels. *)
Inductive event :=
| ev_SetDeadline (c : net_Conn) (d : option Duration)
| ev_MakeSecretConnection (c : net_Conn)
| ev_exchange_NodeInfo (c : net_Conn)
| ev_NewMConnection (c : net_Conn)
| ev_mConn_Start (c : net_Conn)
| ev_mConn_Stop (c : net_Conn)
| ev_secretConn_Close (c : net_Conn)
| ev_Close (c : net_Conn)
| ev_chError (e : error)
| ev_chAccept (c : net_Conn) (conn : option mConnConnection).

Record world := { conns : ConnSet; trace : list event }.

(** Whether [tcpConn.Close()] has been called on a socket. *)
Definition socket_closed (c : net_Conn) (tr : list event) : bool :=
  existsb (fun e => match e with
                    | ev_Close c' => bool_decide (c' = c)
                    | _ => false
                    end) tr.

Definition emit (e : event) : ST world unit := fun w =>
  (returns tt, {| conns := conns w; trace := trace w ++ [e] |}).
Definition get_conns : ST world ConnSet := fun w => (returns (conns w), w).
Definition is_closed (c : net_Conn) : ST world bool := fun w =>
  (returns (socket_closed c (trace w)), w).
Definition put_conns (cs : ConnSet) : ST world unit := fun w =>
  (returns tt, {| conns := cs; trace := trace w |}).
Definition ext {S A} (c : call A) : ST S A := fun s => (c, s).

(** The library and runtime calls the file makes; each of them may
    return or panic.  The two node-info transfers, [WriteMsg] and
    [ReadMsg], run in goroutines of their own and report over a channel;
    [write_reports_first] is the order in which their reports arrive,
    and also which of the two is the first to panic when both do. *)
Record Collaborators := {
  net_SplitHostPort : string -> (string * string) + error;
  net_ParseIP : string -> option IP;
  net_DialContext : Duration -> IP -> Z -> call (net_Conn + error);
  (** [SetDeadline] is told whether the socket has been closed *)
  conn_SetDeadline : bool -> net_Conn -> option Duration -> call (option error);
  tmconn_MakeSecretConnection :
    net_Conn -> PrivKey -> call (SecretConnection + error);
  WriteMsg : SecretConnection -> DefaultNodeInfo -> call (option error);
  ReadMsg : SecretConnection -> call (pbNodeInfo * option error);
  write_reports_first : SecretConnection -> bool;
  DefaultNodeInfoFromProto : pbNodeInfo -> call (DefaultNodeInfo * option error);
  NodeInfo_Validate : DefaultNodeInfo -> call (option error);
  NodeInfo_CompatibleWith :
    DefaultNodeInfo -> DefaultNodeInfo -> call (option error);
  PubKeyToID : PubKey -> call ID;
  NewNetAddress : ID -> string -> call NetAddress;
  (** the type assertion to a TCP address: panics on any other address *)
  TCPAddr_of : string -> call (IP * Z);
  tmconn_NewMConnectionWithConfig :
    SecretConnection -> list ChannelDescriptor -> call MConnection;
  mConn_Start : MConnection -> call (option error);
  mConn_Stop : MConnection -> call (option error);
  secretConn_Close : SecretConnection -> call (option error);
  Endpoint_Validate : Endpoint -> option error
}.

(** ** Connection filtering *)

(** When the goroutines started by one call of [filterTCPConn] report:
    [delays !! i] is how long after the call filter [i] puts its result
    on [chErr], [None] when it never does; [result_wins_tie] is the
    runtime's pick when a result and the timer are ready at once. *)
Record filter_schedule := {
  delays : list (option Duration);
  result_wins_tie : bool
}.

(** The contents of the buffered [chErr], in order of arrival. *)
Fixpoint insert_arrival (a : Z * option error) (l : list (Z * option error))
  : list (Z * option error) :=
  match l with
  | [] => [a]
  | b :: l' => if (a.1 <=? b.1)%Z then a :: l else b :: insert_arrival a l'
  end.

Definition arrivals (rs : list (option Duration * option error))
  : list (Z * option error) :=
  foldr (fun r acc =>
           match r.1 with
           | Some d => insert_arrival (d, r.2) acc
           | None => acc
           end) [] rs.

(** The loop [for i := 0; i < cap(chErr); i++ { select { ... } }] of
    [filterTCPConn], with [n] iterations left at time [now].  Each
    iteration evaluates [time.After(m.filterTimeout)] anew. *)
Fixpoint await_filters (tcpConn : net_Conn) (timeout : Duration)
    (result_wins_tie : bool) (n : nat) (now : Z)
    (chErr : list (Z * option error)) : option error :=
  match n with
  | O => None
  | S n =>
    let fires := Z.max now (now + timeout) in
    match chErr with
    | [] => Some ErrFilterTimeout
    | (t, err) :: chErr =>
      let ready := Z.max now t in
      if (ready <? fires)%Z || ((ready =? fires)%Z && result_wins_tie) then
        match err with
        | Some e => Some (ErrRejected (filtered (rejected tcpConn)) (Some e))
        | None =>
          await_filters tcpConn timeout result_wins_tie n ready chErr
        end
      else Some ErrFilterTimeout
    end
  end.

(** The time at which the last of the results [chErr] has been taken
    from the channel by a loop that started at [now]. *)
Definition last_taken (now : Z) (chErr : list (Z * option error)) : Z :=
  foldl (fun now a => Z.max now a.1) now chErr.

(** What the goroutines started for the filters put on [chErr], filter
    by filter: when, and which result. *)
Definition filter_reports (sched : filter_schedule) (cs : ConnSet)
    (tcpConn : net_Conn) (ip : IP) (filters : list ConnFilterFunc)
  : list (option Duration * option error) :=
  imap (fun i (connFilter : ConnFilterFunc) =>
          (mjoin (delays sched !! i), connFilter cs tcpConn [ip]))
       filters.

Section Transport.
Context (api : Collaborators).

(** func (m *mConnTransport) filterTCPConn(tcpConn net.Conn) error *)
Definition filterTCPConn (m : mConnTransport) (tcpConn : net_Conn)
    (sched : filter_schedule) : ST world (option error) :=
  cs ← get_conns;
  if ConnSet_Has cs tcpConn then
    mret (Some (ErrRejected (duplicate (rejected tcpConn)) None))
  else
    match net_SplitHostPort api (RemoteAddr tcpConn) with
    | inr err => mret (Some err)
    | inl (host, _) =>
      match net_ParseIP api host with
      | None =>
        mret (Some (fmt_Errorf "connection address has invalid IP address %q"
                               [arg_string host]))
      | Some ip =>
        (* Apply filter callbacks. *)
        let chErr :=
          arrivals (filter_reports sched cs tcpConn ip (connFilters m)) in
        match await_filters tcpConn (filterTimeout m) (result_wins_tie sched)
                (length (connFilters m)) 0 chErr with
        | Some err => mret (Some err)
        | None =>
          put_conns (ConnSet_Set cs tcpConn [ip]);;
          mret None
        end
      end
    end.

(** ** The handshake *)

(** The named results [conn] and [err] of [newMConnConnection]. *)
Record frame := { conn : option mConnConnection; err : option error }.

Definition in_world {A} (m : ST world A) : ST (frame * world) A := fun s =>
  let '(r, w) := m s.2 in (r, (s.1, w)).
Definition get_err : ST (frame * world) (option error) := fun s =>
  (returns (err s.1), s).
Definition set_err (e : option error) : ST (frame * world) unit := fun s =>
  (returns tt, ({| conn := conn s.1; err := e |}, s.2)).
Definition set_conn (c : option mConnConnection) : ST (frame * world) unit :=
  fun s => (returns tt, ({| conn := c; err := err s.1 |}, s.2)).
Definition nil_dereference {S A} : ST S A :=
  ext (panics "invalid memory address or nil pointer dereference").
Definition get_conn : ST (frame * world) mConnConnection := fun s =>
  match conn s.1 with
  | Some c => (returns c, s)
  | None => nil_dereference s
  end.
Definition update_conn (f : mConnConnection -> mConnConnection)
  : ST (frame * world) unit :=
  c ← get_conn; set_conn (Some (f c)).

Fixpoint first_error (chErr : list (option error)) : option error :=
  match chErr with
  | [] => None
  | Some e :: _ => Some e
  | None :: chErr => first_error chErr
  end.

(** What becomes of a call that runs in a goroutine of its own: it
    returns, or it ends the program.  No deferred function of the
    goroutine that started it sees its panic. *)
Definition go {A} (c : call A) : A + string :=
  match c with
  | returns a => inl a
  | panics r | crashes r => inr r
  end.

(** func (c *mConnConnection) handshake() (DefaultNodeInfo, error)

    The write and the read run in the two goroutines it starts.  When
    one of them panics the program ends, whatever the other one and the
    loop over [chErr] have done by then. *)
Definition handshake (transport : mConnTransport) (c : mConnConnection)
  : ST world (DefaultNodeInfo * option error) :=
  match secretConn c with
  | None => nil_dereference
  | Some sc =>
    emit (ev_exchange_NodeInfo (sc_conn sc));;
    match go (WriteMsg api sc (t_nodeInfo transport)), go (ReadMsg api sc) with
    | inl w, inl (pb, r) =>
      let chErr := if write_reports_first api sc then [w; r] else [r; w] in
      match first_error chErr with
      | Some e => mret (DefaultNodeInfo_zero, Some e)
      | None => ext (DefaultNodeInfoFromProto api pb)
      end
    | inr p, inl _ | inl _, inr p => ext (crashes p)
    | inr p1, inr p2 =>
      ext (crashes (if write_reports_first api sc then p1 else p2))
    end
  end.

(** func (c *mConnConnection) PubKey() crypto.PubKey *)
Definition conn_PubKey (c : mConnConnection) : call PubKey :=
  match secretConn c with
  | Some sc => returns (RemotePubKey sc)
  | None => panics "invalid memory address or nil pointer dereference"
  end.

(** func (c *mConnConnection) RemoteEndpoint() Endpoint *)
Definition RemoteEndpoint (c : mConnConnection) : call Endpoint :=
  match secretConn c with
  | None => panics "invalid memory address or nil pointer dereference"
  | Some sc =>
    match TCPAddr_of api (RemoteAddr (sc_conn sc)) with
    | panics r => panics r
    | crashes r => crashes r
    | returns (ip, port) =>
      returns {| PeerID := NodeInfo_ID (nodeInfo c);
                 EProtocol := MConnProtocol; Path := "";
                 EIP := ip; Port := uint16_of port |}
    end
  end.

Definition auth_failure (tcpConn : net_Conn) (format : string)
    (e : option error) : option error :=
  Some (ErrRejected (authFailure (rejected tcpConn))
          (Some (fmt_Errorf format [arg_error e]))).

(** newMConnConnection, lines 463-474: one stream per channel
    descriptor.  The result says whether the loop ran to its end. *)
Fixpoint make_streams (tcpConn : net_Conn) (descs : list ChannelDescriptor)
  : ST (frame * world) bool :=
  match descs with
  | [] => mret true
  | chDesc :: descs =>
    let id := byte_of (chDesc_ID chDesc) in
    let '(s, e) := newMConnStream tcpConn (uint16_of id) in
    update_conn (set_stream id s);;
    set_err e;;
    if e is Some _ then
      set_err (auth_failure tcpConn "mconn failed: %v" e);;
      mret false
    else make_streams tcpConn descs
  end.

(** newMConnConnection, lines 453-485: the deadline is cleared, the
    streams and the multiplexer are set up and started. *)
Definition start_mconn (transport : mConnTransport) (tcpConn : net_Conn)
  : ST (frame * world) unit :=
  closed ← in_world (is_closed tcpConn);
  in_world (emit (ev_SetDeadline tcpConn None));;
  e ← ext (conn_SetDeadline api closed tcpConn None);
  set_err e;;
  if e is Some _ then
    set_err (auth_failure tcpConn "secret conn failed: %v" e)
  else
    (* Set up the MConnection wrapper *)
    done ← make_streams tcpConn (channelDescs transport);
    if negb done then mret tt
    else
      c ← get_conn;
      in_world (emit (ev_NewMConnection tcpConn));;
      mc ← match secretConn c with
           | Some sc =>
             ext (tmconn_NewMConnectionWithConfig api sc (channelDescs transport))
           | None => nil_dereference
           end;
      update_conn (set_mConn (Some mc));;
      c ← get_conn;
      ep ← ext (RemoteEndpoint c);
      update_conn (set_logger (Some (RemoteAddr tcpConn)));;
      in_world (emit (ev_mConn_Start tcpConn));;
      e ← ext (mConn_Start api mc);
      set_err e.

(** newMConnConnection, lines 410-451: the identity checks.  They end in
    [start_mconn] when all of them pass. *)
Definition verify_peer (transport : mConnTransport) (tcpConn : net_Conn)
    (expectPeerID : ID) : ST (frame * world) unit :=
  (* For outgoing conns, ensure connection key matches dialed key. *)
  mismatch ←
    (if decide (expectPeerID <> "") then
       c ← get_conn;
       pk ← ext (conn_PubKey c);
       peerID ← ext (PubKeyToID api pk);
       if decide (expectPeerID <> peerID) then
         set_err (Some (ErrRejected
                          (authFailure (with_id peerID (rejected tcpConn)))
                          (Some (fmt_Errorf "conn.ID (%v) dialed ID (%v) mismatch"
                                   [arg_string peerID; arg_string expectPeerID]))));;
         mret true
       else mret false
     else mret false);
  if (mismatch : bool) then mret tt
  else
    c ← get_conn;
    (* Reject self. *)
    if decide (NodeInfo_ID (t_nodeInfo transport) = NodeInfo_ID (nodeInfo c)) then
      addr ← match secretConn c with
             | Some sc =>
               ext (NewNetAddress api (NodeInfo_ID (nodeInfo c))
                      (RemoteAddr (sc_conn sc)))
             | None => nil_dereference
             end;
      set_err (Some (ErrRejected
                       (self (with_id (NodeInfo_ID (nodeInfo c))
                                (with_addr addr (rejected tcpConn))))
                       None))
    else
      e ← ext (NodeInfo_CompatibleWith api (t_nodeInfo transport) (nodeInfo c));
      set_err e;;
      if e is Some _ then
        set_err (Some (ErrRejected
                         (incompatible (with_id (NodeInfo_ID (nodeInfo c))
                                          (rejected tcpConn)))
                         e))
      else start_mconn transport tcpConn.

(** newMConnConnection, lines 368-408 followed by the rest: everything
    between the [defer] and the end of the function. *)
Definition newMConnConnection_body (transport : mConnTransport)
    (tcpConn : net_Conn) (expectPeerID : ID) : ST (frame * world) unit :=
  closed ← in_world (is_closed tcpConn);
  in_world (emit (ev_SetDeadline tcpConn (Some (handshakeTimeout transport))));;
  e ← ext (conn_SetDeadline api closed tcpConn (Some (handshakeTimeout transport)));
  set_err e;;
  if e is Some _ then
    set_err (auth_failure tcpConn "secret conn failed: %v" e)
  else
    set_conn (Some {| logger := None; secretConn := None; mConn := None;
                      streams := ∅; nodeInfo := DefaultNodeInfo_zero |});;
    in_world (emit (ev_MakeSecretConnection tcpConn));;
    r ← ext (tmconn_MakeSecretConnection api tcpConn (privKey transport));
    update_conn (set_secretConn (match r with inl sc => Some sc | inr _ => None end));;
    set_err (match r with inl _ => None | inr e => Some e end);;
    e ← get_err;
    if e is Some _ then
      set_err (auth_failure tcpConn "secret conn failed: %v" e)
    else
      c ← get_conn;
      r ← in_world (handshake transport c);
      update_conn (set_nodeInfo r.1);;
      set_err r.2;;
      if r.2 is Some _ then
        set_err (auth_failure tcpConn "handshake failed: %v" r.2)
      else
        c ← get_conn;
        e ← ext (NodeInfo_Validate api (nodeInfo c));
        set_err e;;
        if e is Some _ then
          set_err (Some (ErrRejected (nodeInfoInvalid (rejected tcpConn)) e))
        else verify_peer transport tcpConn expectPeerID.

(** The deferred function of [newMConnConnection]: a panic of the body
    is recovered and overwrites the result [err].  It does not run when
    the program ends by a panic in another goroutine. *)
Definition recovered (tcpConn : net_Conn) (r : string) : error :=
  ErrRejected (authFailure (rejected tcpConn))
    (Some (fmt_Errorf "recovered from panic: %v" [arg_string r])).

(** func newMConnConnection(transport *mConnTransport, tcpConn net.Conn,
      expectPeerID ID) (conn *mConnConnection, err error) *)
Definition newMConnConnection (transport : mConnTransport)
    (tcpConn : net_Conn) (expectPeerID : ID)
  : ST world (option mConnConnection * option error) := fun w =>
  match newMConnConnection_body transport tcpConn expectPeerID
          ({| conn := None; err := None |}, w) with
  | (returns _, (f, w')) => (returns (conn f, err f), w')
  | (panics r, (f, w')) =>
    (returns (conn f, Some (recovered tcpConn r)), w')
  | (crashes r, (f, w')) => (crashes r, w')
  end.

(** ** Connections *)

(** func (c *mConnConnection) onReceive(chID byte, bz []byte, eof bool) error

    The result is an error returned at once, or the stream found for the
    channel with the body of its [receive]; calling [receive] through a
    [nil] map value panics. *)
Definition onReceive (c : mConnConnection) (chID : Z) (bz : bytes) (eof : bool)
  : call (option error + mConnStream * prog) :=
  match streams c !! byte_of chID with
  | None =>
    returns (inl (Some (fmt_Errorf "received message for unknown channel %v"
                                   [arg_int (byte_of chID)])))
  | Some None => panics "invalid memory address or nil pointer dereference"
  | Some (Some stream) => returns (inr (stream, receive stream bz eof))
  end.

(** A value of the interface type [Stream]: the nil interface, or an
    interface value that holds a [*mConnStream].  The pointer it holds
    may be nil, and the interface value is then still not nil. *)
Inductive Stream_interface :=
| Stream_nil
| Stream_holding (s : option mConnStream).

(** func (c *mConnConnection) Stream(id uint16) (Stream, error)

    The map value, the zero value (a nil pointer) for a missing key, is
    converted to the interface type of the result. *)
Definition Stream (c : mConnConnection) (id : Z)
  : Stream_interface * option error :=
  (Stream_holding (mjoin (streams c !! byte_of (uint16_of id))), None).

(** The loop over [c.streams] in [mConnConnection.Close]: [Stream.Close]
    always returns [nil]; on a [nil] stream it panics. *)
Fixpoint close_streams (ss : list (Z * option mConnStream)) : call unit :=
  match ss with
  | [] => returns tt
  | (_, Some _) :: ss => close_streams ss
  | (_, None) :: _ => panics "invalid memory address or nil pointer dereference"
  end.

(** func (c *mConnConnection) Close() error *)
Definition mConnConnection_Close (c : option mConnConnection)
  : ST world (option error) :=
  match c with
  | None => nil_dereference
  | Some c =>
    match secretConn c with
    | None => nil_dereference
    | Some sc =>
      cs ← get_conns;
      put_conns (ConnSet_RemoveAddr cs (RemoteAddr (sc_conn sc)));;
      match mConn c with
      | None => nil_dereference
      | Some mc =>
        emit (ev_mConn_Stop (sc_conn sc));;
        err ← ext (mConn_Stop api mc);
        emit (ev_secretConn_Close (sc_conn sc));;
        e ← ext (secretConn_Close api sc);
        let err := if e is Some _ then (if err is None then e else err) else err in
        ext (close_streams (map_to_list (streams c)));;
        mret err
      end
    end
  end.

(** ** The transport *)

(** How a [select] between a hand-off channel and [m.chClose] ends: the
    value is taken by an [Accept] call, the transport has been closed,
    or neither ever happens and the goroutine stays blocked. *)
Inductive select_outcome := sel_handed_off | sel_chClose | sel_blocked.

(** select { case m.chError <- err: case <-m.chClose: }; the result says
    whether the goroutine gets past the [select]. *)
Definition select_chError (e : error) (o : select_outcome) : ST world bool :=
  match o with
  | sel_handed_off => emit (ev_chError e);; mret true
  | sel_chClose => mret true
  | sel_blocked => mret false
  end.

(** What the [select] of [Accept] takes. *)
Inductive accept_select :=
| from_chAccept (conn : option mConnConnection)
| from_chError (err : error)
| from_chClose
| from_ctx_Done.

(** func (m *mConnTransport) Accept(ctx context.Context) (Connection, error) *)
Definition Accept (taken : accept_select)
  : option mConnConnection * option error :=
  match taken with
  | from_chAccept conn => (conn, None)
  | from_chError err => (None, Some err)
  | from_chClose => (None, Some ErrTransportClosed)
  | from_ctx_Done => (None, None)
  end.

(** What the environment decides while one inbound socket is served. *)
Record accept_schedule := {
  as_filters : filter_schedule;
  as_filter_error : select_outcome;
  as_result : select_outcome
}.

(** The goroutine that [accept] starts for each inbound socket
    (lines 174-198). *)
Definition accept_conn (m : mConnTransport) (tcpConn : net_Conn)
    (sched : accept_schedule) : ST world unit :=
  err ← filterTCPConn m tcpConn (as_filters sched);
  goes_on ←
    (if err is Some e then
       emit (ev_Close tcpConn);;
       select_chError e (as_filter_error sched)
     else mret true);
  if negb goes_on then mret tt
  else
    r ← newMConnConnection m tcpConn "";
    if r.2 is Some e then
      cs ← get_conns;
      put_conns (ConnSet_Remove cs tcpConn);;
      emit (ev_Close tcpConn);;
      select_chError e (as_result sched);;
      mret tt
    else
      match as_result sched with
      | sel_handed_off => emit (ev_chAccept tcpConn r.1)
      | sel_chClose => mConnConnection_Close r.1;; mret tt
      | sel_blocked => mret tt
      end.

(** func (m *mConnTransport) accept(): the loop over what
    [m.listener.Accept()] returns.  The goroutines it starts are run one
    after the other, each to its end. *)
Fixpoint accept (m : mConnTransport)
    (inbound : list ((net_Conn + error) * accept_schedule)) : ST world unit :=
  match inbound with
  | [] => mret tt
  | (inr err, sched) :: _ =>
    select_chError err (as_result sched);;
    mret tt
  | (inl tcpConn, sched) :: inbound =>
    accept_conn m tcpConn sched;;
    accept m inbound
  end.

(** func (m *mConnTransport) Dial(ctx context.Context, endpoint Endpoint)
      (Connection, error) *)
Definition Dial (m : mConnTransport) (endpoint : Endpoint)
    (sched : filter_schedule)
  : ST world (option mConnConnection * option error) :=
  let '(normalized, err) :=
    normalizeEndpoint (Endpoint_Validate api) (Some endpoint) in
  let endpoint := default endpoint normalized in
  if err is Some _ then mret (None, err)
  else
    r ← ext (net_DialContext api (dialTimeout m) (EIP endpoint) (Port endpoint));
    match r with
    | inr err => mret (None, Some err)
    | inl tcpConn =>
      err ← filterTCPConn m tcpConn sched;
      if err is Some _ then mret (None, err)
      else
        r ← newMConnConnection m tcpConn (PeerID endpoint);
        if r.2 is Some _ then
          cs ← get_conns;
          put_conns (ConnSet_Remove cs tcpConn);;
          mret (None, r.2)
        else mret (r.1, None)
    end.

End Transport.

(** ** What a computation adds to the trace *)

(** Every run of [m] only appends events to the trace, and all of them
    satisfy [P]; [π] finds the world in the state of [m]. *)
Definition appends {S A} (P : event -> Prop) (π : S -> world) (m : ST S A)
  : Prop :=
  forall s r s', m s = (r, s') ->
  exists tr, trace (π s') = trace (π s) ++ tr /\ Forall P tr.

Definition not_Close (e : event) : Prop :=
  match e with
  | ev_Close _ => False
  | _ => True
  end.

(** ** Data for the examples *)

(** A validation helper in the style of [Endpoint.Validate]: an endpoint
    needs an address or a path. *)
Definition example_Validate (e : Endpoint) : option error :=
  if decide (length (EIP e) = 0 /\ Path e = "")
  then Some (errors_New "endpoint must have either IP or path") else None.

Definition localhost : IP := [Byte.x7f; Byte.x00; Byte.x00; Byte.x01].

Definition example_endpoint : Endpoint :=
  {| PeerID := "0a"; EProtocol := ""; Path := ""; EIP := localhost; Port := 0 |}.

Definition example_endpoint_normalized : Endpoint :=
  {| PeerID := "0a"; EProtocol := "mconn"; Path := ""; EIP := localhost;
     Port := 26657 |}.

Definition example_conn : net_Conn :=
  {| fd := 7; RemoteAddr := "10.0.0.2:26656" |}.

Definition example_stream : mConnStream :=
  {| connection := example_conn; stream_id := 1 |}.

(** The five bytes of "hello", and buffers of two and of eight bytes. *)
Definition hello : bytes := [Byte.x68; Byte.x65; Byte.x6c; Byte.x6c; Byte.x6f].
Definition buffer2 : bytes := [Byte.x00; Byte.x00].
Definition buffer8 : bytes := repeat Byte.x00 8.

(** Goroutine 0 is the multiplexer delivering "hello" with the end of
    the message; goroutine 1 reads twice.  The first [Read] is parked
    when the payload arrives, the marker is parked when the second
    [Read] arrives. *)
Definition example_reads : list action :=
  [ act_call 1 (Read example_stream buffer8);
    act_step 1 false true;
    act_step 0 false true;
    act_call 1 (Read example_stream buffer8);
    act_step 0 false true;
    act_step 1 false true ].

Definition example_delivery : list action :=
  act_call 0 (receive example_stream hello true) :: example_reads.

Definition example_delivered : stream_state :=
  default new_stream_state (run example_delivery new_stream_state).

(** Goroutine 2 closes the stream; goroutine 3 closes it again. *)
Definition example_closed : stream_state :=
  default new_stream_state
    (run [ act_call 2 (Close example_stream); act_step 2 false true;
           act_call 3 (Close example_stream); act_step 3 false true ]
         new_stream_state).

(** A small network for the examples.  This node is "aa" on "chain-A";
    behind 10.0.0.2 is the peer "bb" on the same chain, behind 10.0.0.3
    the peer "cc" on "chain-B", and behind 127.0.0.1 this node itself. *)
Definition peer_bb : net_Conn := {| fd := 8; RemoteAddr := "10.0.0.2:26656" |}.
Definition peer_cc : net_Conn := {| fd := 9; RemoteAddr := "10.0.0.3:26656" |}.
Definition peer_aa : net_Conn := {| fd := 10; RemoteAddr := "127.0.0.1:26656" |}.

Definition ip_bb : IP := [Byte.x0a; Byte.x00; Byte.x00; Byte.x02].
Definition ip_cc : IP := [Byte.x0a; Byte.x00; Byte.x00; Byte.x03].

Fixpoint split_colon (s : string) : string * string :=
  match s with
  | EmptyString => ("", "")
  | String c rest =>
    if decide (String c "" = ":") then ("", rest)
    else let '(host, port) := split_colon rest in (String c host, port)
  end.

Definition example_ParseIP (host : string) : option IP :=
  if decide (host = "10.0.0.2") then Some ip_bb
  else if decide (host = "10.0.0.3") then Some ip_cc
  else if decide (host = "127.0.0.1") then Some localhost
  else None.

Definition example_PubKey (c : net_Conn) : PubKey :=
  if decide (c = peer_bb) then "bb"
  else if decide (c = peer_cc) then "cc" else "aa".

Definition example_DialContext (ip : IP) : net_Conn + error :=
  if decide (ip = ip_bb) then inl peer_bb
  else if decide (ip = ip_cc) then inl peer_cc
  else if decide (ip = localhost) then inl peer_aa
  else inr (collaborator_error "connection refused").

(** Collaborators that behave: a closed socket refuses a deadline, peers
    declare the id of their key.  With [mconn_panics] the construction
    of the multiplexer panics. *)
Definition example_api (mconn_panics : bool) : Collaborators :=
  {| net_SplitHostPort := fun addr => inl (split_colon addr);
     net_ParseIP := example_ParseIP;
     net_DialContext := fun _ ip _ => returns (example_DialContext ip);
     conn_SetDeadline := fun closed _ _ =>
       returns (if closed
                then Some (collaborator_error "use of closed network connection")
                else None);
     tmconn_MakeSecretConnection := fun c _ =>
       returns (inl {| sc_conn := c; RemotePubKey := example_PubKey c |});
     WriteMsg := fun _ _ => returns None;
     ReadMsg := fun sc => returns (RemotePubKey sc, None);
     write_reports_first := fun _ => true;
     DefaultNodeInfoFromProto := fun pb =>
       returns ({| DefaultNodeID := pb;
                   Network := if decide (pb = "cc") then "chain-B" else "chain-A" |},
                None);
     NodeInfo_Validate := fun _ => returns None;
     NodeInfo_CompatibleWith := fun a b =>
       returns (if decide (Network a = Network b) then None
                else Some (collaborator_error "peer is on a different network"));
     PubKeyToID := fun pk => returns pk;
     NewNetAddress := fun i addr => returns {| na_ID := i; na_addr := addr |};
     TCPAddr_of := fun _ => returns (localhost, 26656%Z);
     tmconn_NewMConnectionWithConfig := fun sc descs =>
       if mconn_panics then panics "unknown channel priority"
       else returns {| mc_secretConn := sc; mc_chDescs := descs |};
     mConn_Start := fun _ => returns None;
     mConn_Stop := fun _ => returns None;
     secretConn_Close := fun _ => returns None;
     Endpoint_Validate := example_Validate |}.

Definition example_transport : mConnTransport :=
  {| privKey := "key-aa";
     t_nodeInfo := {| DefaultNodeID := "aa"; Network := "chain-A" |};
     channelDescs := [{| chDesc_ID := 1; Priority := 1 |}];
     maxIncomingConnections := 0;
     dialTimeout := defaultDialTimeout;
     handshakeTimeout := defaultHandshakeTimeout;
     filterTimeout := defaultFilterTimeout;
     connFilters := [ConnDuplicateIPFilter] |}.

Definition empty_world : world := {| conns := ∅; trace := [] |}.

(** An established connection from 10.0.0.2, registered with its IP. *)
Definition established_bb : net_Conn :=
  {| fd := 5; RemoteAddr := "10.0.0.2:40112" |}.
Definition world_with_bb : world :=
  {| conns := {[ established_bb := [ip_bb] ]}; trace := [] |}.

(** Every filter answers at once and every hand-off is taken. *)
Definition prompt_filters : filter_schedule :=
  {| delays := [Some 0%Z; Some 0%Z]; result_wins_tie := true |}.
Definition prompt : accept_schedule :=
  {| as_filters := prompt_filters; as_filter_error := sel_handed_off;
     as_result := sel_handed_off |}.

(** The rejection that [ConnDuplicateIPFilter] produces for a second
    socket from 10.0.0.2, as [filterTCPConn] wraps it. *)
Definition duplicate_ip_rejection (c : net_Conn) : error :=
  ErrRejected
    {| rej_addr := None; rej_conn := Some c; rej_id := "";
       isAuthFailure := false; isDuplicate := false; isFiltered := true;
       isIncompatible := false; isNodeInfoInvalid := false; isSelf := false |}
    (Some (ErrRejected
       {| rej_addr := None; rej_conn := Some c; rej_id := "";
          isAuthFailure := false; isDuplicate := true; isFiltered := false;
          isIncompatible := false; isNodeInfoInvalid := false; isSelf := false |}
       (Some (fmt_Errorf "ip<%v> already connected" [arg_bytes ip_bb])))).

Definition closed_socket_rejection (c : net_Conn) : error :=
  ErrRejected
    {| rej_addr := None; rej_conn := Some c; rej_id := "";
       isAuthFailure := true; isDuplicate := false; isFiltered := false;
       isIncompatible := false; isNodeInfoInvalid := false; isSelf := false |}
    (Some (fmt_Errorf "secret conn failed: %v"
             [arg_error (Some (collaborator_error
                                 "use of closed network connection"))])).

Definition mismatch_rejection (c : net_Conn) (peerID expectPeerID : ID) : error :=
  ErrRejected
    {| rej_addr := None; rej_conn := Some c; rej_id := peerID;
       isAuthFailure := true; isDuplicate := false; isFiltered := false;
       isIncompatible := false; isNodeInfoInvalid := false; isSelf := false |}
    (Some (fmt_Errorf "conn.ID (%v) dialed ID (%v) mismatch"
             [arg_string peerID; arg_string expectPeerID])).

Definition incompatible_rejection (c : net_Conn) (peerID : ID) : error :=
  ErrRejected
    {| rej_addr := None; rej_conn := Some c; rej_id := peerID;
       isAuthFailure := false; isDuplicate := false; isFiltered := false;
       isIncompatible := true; isNodeInfoInvalid := false; isSelf := false |}
    (Some (collaborator_error "peer is on a different network")).

(** The endpoint of the peer behind 10.0.0.2, dialed in the belief that
    it is the node "dd". *)
Definition endpoint_bb_as_dd : Endpoint :=
  {| PeerID := "dd"; EProtocol := "mconn"; Path := ""; EIP := ip_bb;
     Port := 26656 |}.

(** A transport with two filters that accept every socket. *)
Definition two_filter_transport : mConnTransport :=
  {| privKey := "key-aa";
     t_nodeInfo := {| DefaultNodeID := "aa"; Network := "chain-A" |};
     channelDescs := [{| chDesc_ID := 1; Priority := 1 |}];
     maxIncomingConnections := 0;
     dialTimeout := defaultDialTimeout;
     handshakeTimeout := defaultHandshakeTimeout;
     filterTimeout := defaultFilterTimeout;
     connFilters := [fun _ _ _ => None; fun _ _ _ => None] |}.

(** The first filter answers after 3 s, the second after 6 s: one second
    after a timeout of 5 s started with the call would have run out. *)
Definition slow_filters : filter_schedule :=
  {| delays := [Some (3 * time_Second)%Z; Some (6 * time_Second)%Z];
     result_wins_tie := false |}.

(** The first filter answers after 3 s, the second after 9 s. *)
Definition late_filter : filter_schedule :=
  {| delays := [Some (3 * time_Second)%Z; Some (9 * time_Second)%Z];
     result_wins_tie := false |}.

(** The first filter answers after 3 s, the second never. *)
Definition stuck_filter : filter_schedule :=
  {| delays := [Some (3 * time_Second)%Z; None]; result_wins_tie := false |}.

(** The duplicate-IP filter next to a filter that accepts every socket. *)
Definition duplicate_ip_transport : mConnTransport :=
  {| privKey := "key-aa";
     t_nodeInfo := {| DefaultNodeID := "aa"; Network := "chain-A" |};
     channelDescs := [{| chDesc_ID := 1; Priority := 1 |}];
     maxIncomingConnections := 0;
     dialTimeout := defaultDialTimeout;
     handshakeTimeout := defaultHandshakeTimeout;
     filterTimeout := defaultFilterTimeout;
     connFilters := [ConnDuplicateIPFilter; fun _ _ _ => None] |}.

(** ** More about goroutines on a stream *)

(** The action is taken by goroutine [g]. *)
Definition action_of (g : gid) (a : action) : Prop :=
  match a with
  | act_call g' _ => g' = g
  | act_step g' _ _ => g' = g
  end.

(** On the closed stream of [example_closed] goroutine 0 delivers
    "hello" and goroutine 1 reads. *)
Definition example_after_close : list action :=
  [ act_call 0 (receive example_stream hello true); act_step 0 false true;
    act_call 1 (Read example_stream buffer8); act_step 1 false true ].

Definition example_used_after_close : stream_state :=
  default new_stream_state (run example_after_close example_closed).

(** Goroutine 0 is parked delivering "hello" when goroutine 2 enters
    [Close]. *)
Definition example_parked_receive : stream_state :=
  default new_stream_state
    (run [ act_call 0 (receive example_stream hello true);
           act_step 0 false true;
           act_call 2 (Close example_stream) ] new_stream_state).

(** Goroutine 1 writes "hello"; between its look at [chClose] and its
    [mConn.Send] goroutine 2 closes the stream. *)
Definition example_close_during_write : list action :=
  [ act_call 2 (Close example_stream); act_step 2 false true ].

Definition example_written : stream_state :=
  default new_stream_state
    (run (act_call 1 (Write example_stream hello) :: act_step 1 false true ::
          example_close_during_write ++ [act_step 1 false true])
         new_stream_state).

(** ** What a computation does to the ConnectionSet *)

(** No run of [m] changes the ConnectionSet; [π] finds the world in the
    state of [m]. *)
Definition keeps_conns {S A} (π : S -> world) (m : ST S A) : Prop :=
  forall s r s', m s = (r, s') -> conns (π s') = conns (π s).

(** ** What the handshake and the accept loop do *)

(** The events of a handshake: deadlines, the secure channel, the
    node-info exchange, the construction and the start of the
    multiplexer. *)
Definition of_handshake (e : event) : Prop :=
  match e with
  | ev_SetDeadline _ _ | ev_MakeSecretConnection _ | ev_exchange_NodeInfo _
  | ev_NewMConnection _ | ev_mConn_Start _ => True
  | _ => False
  end.

(** A connection put on [chAccept] for a socket is what a handshake on
    that socket, with no expected peer id, returned without an error. *)
Definition handed_over_after_handshake (api : Collaborators)
    (m : mConnTransport) (e : event) : Prop :=
  match e with
  | ev_chAccept tcpConn c =>
    exists w0 w1,
      newMConnConnection api m tcpConn "" w0 = (returns (c, None), w1)
  | _ => True
  end.

(** ** Data for the examples of connections *)

(** The peer behind 10.0.0.2 under its own id, with the protocol and
    the port left to [normalizeEndpoint]. *)
Definition endpoint_bb : Endpoint :=
  {| PeerID := "bb"; EProtocol := ""; Path := ""; EIP := ip_bb; Port := 0 |}.

Definition secretConn_bb : SecretConnection :=
  {| sc_conn := peer_bb; RemotePubKey := "bb" |}.

Definition mConn_bb : MConnection :=
  {| mc_secretConn := secretConn_bb;
     mc_chDescs := [{| chDesc_ID := 1; Priority := 1 |}] |}.

(** The connection that a handshake with "bb" builds. *)
Definition connection_bb : mConnConnection :=
  {| logger := Some "10.0.0.2:26656";
     secretConn := Some secretConn_bb;
     mConn := Some mConn_bb;
     streams := {[ 1%Z := Some {| connection := peer_bb; stream_id := 1 |} ]};
     nodeInfo := {| DefaultNodeID := "bb"; Network := "chain-A" |} |}.

Definition handshake_trace_bb : list event :=
  [ev_SetDeadline peer_bb (Some defaultHandshakeTimeout);
   ev_MakeSecretConnection peer_bb;
   ev_exchange_NodeInfo peer_bb;
   ev_SetDeadline peer_bb None;
   ev_NewMConnection peer_bb;
   ev_mConn_Start peer_bb].

(** The world after "bb" has been dialed or accepted, before the
    connection is handed over. *)
Definition world_connected_bb : world :=
  {| conns := {[ peer_bb := [ip_bb] ]}; trace := handshake_trace_bb |}.

(** The transport is closed before [Accept] takes the connection. *)
Definition closed_before_accept : accept_schedule :=
  {| as_filters := prompt_filters; as_filter_error := sel_handed_off;
     as_result := sel_chClose |}.

(** ** Setting up a transport and listening *)

(** The [NodeInfo] interface value given to [NewMConnTransport]: a
    [DefaultNodeInfo] or a value of some other type. *)
Inductive NodeInfo :=
| NodeInfo_DefaultNodeInfo (info : DefaultNodeInfo)
| NodeInfo_other.

(** type MConnTransportOption: a function that updates the transport
    it is given a pointer to. *)
Definition MConnTransportOption := mConnTransport -> mConnTransport.

(** func MConnTransportMaxIncomingConnections(max int) MConnTransportOption *)
Definition MConnTransportMaxIncomingConnections (max : Z)
  : MConnTransportOption := fun mt =>
  {| privKey := privKey mt; t_nodeInfo := t_nodeInfo mt;
     channelDescs := channelDescs mt; maxIncomingConnections := max;
     dialTimeout := dialTimeout mt; handshakeTimeout := handshakeTimeout mt;
     filterTimeout := filterTimeout mt; connFilters := connFilters mt |}.

(** func MConnTransportFilterTimeout(timeout time.Duration) MConnTransportOption *)
Definition MConnTransportFilterTimeout (timeout : Duration)
  : MConnTransportOption := fun mt =>
  {| privKey := privKey mt; t_nodeInfo := t_nodeInfo mt;
     channelDescs := channelDescs mt;
     maxIncomingConnections := maxIncomingConnections mt;
     dialTimeout := dialTimeout mt; handshakeTimeout := handshakeTimeout mt;
     filterTimeout := timeout; connFilters := connFilters mt |}.

(** func MConnTransportConnFilters(filters ...ConnFilterFunc) MConnTransportOption *)
Definition MConnTransportConnFilters (filters : list ConnFilterFunc)
  : MConnTransportOption := fun mt =>
  {| privKey := privKey mt; t_nodeInfo := t_nodeInfo mt;
     channelDescs := channelDescs mt;
     maxIncomingConnections := maxIncomingConnections mt;
     dialTimeout := dialTimeout mt; handshakeTimeout := handshakeTimeout mt;
     filterTimeout := filterTimeout mt; connFilters := filters |}.

(** func NewMConnTransport(logger, nodeInfo, privKey, mConnConfig, opts...)
    Transport

    The configuration it returns; the type assertion on [nodeInfo]
    panics on a value that is no [DefaultNodeInfo].  The channels, the
    ConnectionSet and the listener it starts with are
    [new_transport_state] and the [conns] of the world. *)
Definition NewMConnTransport (nodeInfo : NodeInfo) (privKey : PrivKey)
    (opts : list MConnTransportOption) : call mConnTransport :=
  match nodeInfo with
  | NodeInfo_other =>
    panics "interface conversion: p2p.NodeInfo is not p2p.DefaultNodeInfo"
  | NodeInfo_DefaultNodeInfo info =>
    let m := {| privKey := privKey; t_nodeInfo := info;
                channelDescs := []; (* FIXME Set by switch *)
                maxIncomingConnections := 0;
                dialTimeout := defaultDialTimeout;
                handshakeTimeout := defaultHandshakeTimeout;
                filterTimeout := defaultFilterTimeout;
                connFilters := [] |} in
    returns (foldl (fun m (opt : MConnTransportOption) => opt m) m opts)
  end.

(** The options that this file provides. *)
Inductive provided : MConnTransportOption -> Prop :=
| provided_MaxIncomingConnections max :
    provided (MConnTransportMaxIncomingConnections max)
| provided_FilterTimeout timeout :
    provided (MConnTransportFilterTimeout timeout)
| provided_ConnFilters filters :
    provided (MConnTransportConnFilters filters).

(** A [net.Listener]: what its [Addr()] returns and, when it has been
    wrapped by [netutil.LimitListener], the bound. *)
Record net_Listener := { l_addr : string; l_limit : option Z }.

(** netutil.LimitListener(l, n) *)
Definition netutil_LimitListener (l : net_Listener) (n : Z) : net_Listener :=
  {| l_addr := l_addr l; l_limit := Some n |}.

(** The fields of [mConnTransport] that [Listen] and [Close] change, and
    the number of [accept] goroutines that have been started. *)
Record transport_state := {
  listener : option net_Listener;
  t_chClose_closed : bool;
  t_chCloseOnce_done : bool;
  accept_started : nat
}.

(** The transport as [NewMConnTransport] makes it. *)
Definition new_transport_state : transport_state :=
  {| listener := None; t_chClose_closed := false;
     t_chCloseOnce_done := false; accept_started := 0 |}.

Section Listening.
Context (api : Collaborators).
(** [Endpoint.String], [net.Listener.Close]: declared outside this file. *)
Context (Endpoint_String : Endpoint -> string).
Context (listener_Close : net_Listener -> option error).

(** func (m *mConnTransport) Listen(endpoint Endpoint) error

    [net_Listen ip port] is what [net.Listen] returns for the address
    formatted from [ip] and [port], should it be called. *)
Definition Listen (m : mConnTransport) (endpoint : Endpoint)
    (net_Listen : IP -> Z -> net_Listener + error) (s : transport_state)
  : option error * transport_state :=
  if listener s is Some _ then
    (Some (errors_New "MConn transport is already listening"), s)
  else if decide (length (channelDescs m) = 0) then
    (Some (errors_New "no MConn channel descriptors"), s)
  else
    let '(normalized, err) :=
      normalizeEndpoint (Endpoint_Validate api) (Some endpoint) in
    let endpoint := default endpoint normalized in
    if err is Some _ then
      (Some (fmt_Errorf "invalid MConn listen endpoint %q: %w"
               [arg_string (Endpoint_String endpoint); arg_error err]), s)
    else
      match net_Listen (EIP endpoint) (Port endpoint) with
      | inr err =>
        (Some err,
         {| listener := None; t_chClose_closed := t_chClose_closed s;
            t_chCloseOnce_done := t_chCloseOnce_done s;
            accept_started := accept_started s |})
      | inl l =>
        let l := if decide (0 < maxIncomingConnections m)%Z
                 then netutil_LimitListener l (maxIncomingConnections m)
                 else l in
        (* Spawn a goroutine to accept inbound connections asynchronously. *)
        (None,
         {| listener := Some l; t_chClose_closed := t_chClose_closed s;
            t_chCloseOnce_done := t_chCloseOnce_done s;
            accept_started := S (accept_started s) |})
      end.

(** func (m *mConnTransport) Endpoints() []Endpoint *)
Definition Endpoints (m : mConnTransport) (s : transport_state)
  : call (list Endpoint) :=
  match listener s with
  | None => returns []
  | Some l =>
    match TCPAddr_of api (l_addr l) with
    | panics r => panics r
    | crashes r => crashes r
    | returns (ip, port) =>
      returns [{| PeerID := NodeInfo_ID (t_nodeInfo m);
                  EProtocol := MConnProtocol; Path := "";
                  EIP := ip; Port := uint16_of port |}]
    end
  end.

(** func (m *mConnTransport) Close() error *)
Definition mConnTransport_Close (s : transport_state)
  : option error * transport_state :=
  let s :=
    if t_chCloseOnce_done s then s
    else {| listener := listener s; t_chClose_closed := true;
            t_chCloseOnce_done := true; accept_started := accept_started s |} in
  match listener s with
  | Some l => (listener_Close l, s)
  | None => (None, s)
  end.

(** Calls on a transport, one after the other. *)
Inductive transport_call :=
| call_Listen (endpoint : Endpoint)
              (net_Listen : IP -> Z -> net_Listener + error)
| call_Close.

Definition transport_step (m : mConnTransport) (c : transport_call)
    (s : transport_state) : transport_state :=
  match c with
  | call_Listen endpoint net_Listen => (Listen m endpoint net_Listen s).2
  | call_Close => (mConnTransport_Close s).2
  end.

Definition transport_run (m : mConnTransport) (cs : list transport_call)
    (s : transport_state) : transport_state :=
  foldl (fun s c => transport_step m c s) s cs.

End Listening.

(** ** Data for the examples of listening *)

(** [net.Listen] binds whatever it is asked for; the listener reports
    the wildcard address. *)
Definition example_Listen (ip : IP) (port : Z) : net_Listener + error :=
  inl {| l_addr := "0.0.0.0:26657"; l_limit := None |}.

Definition example_Endpoint_String (e : Endpoint) : string := PeerID e.

Definition example_listener_Close (l : net_Listener) : option error := None.

Definition example_listening : transport_state :=
  {| listener := Some {| l_addr := "0.0.0.0:26657"; l_limit := None |};
     t_chClose_closed := false; t_chCloseOnce_done := false;
     accept_started := 1 |}.

(** The transport is closed and asked to listen a second time. *)
Definition example_calls : list transport_call :=
  [call_Close; call_Listen example_endpoint example_Listen].

Definition example_options : list MConnTransportOption :=
  [MConnTransportFilterTimeout time_Second;
   MConnTransportConnFilters [ConnDuplicateIPFilter];
   MConnTransportMaxIncomingConnections 10].

(** ** The errors of a handshake *)

(** The rejections that [newMConnConnection] builds, one for each of its
    [ErrRejected] literals. *)
Inductive handshake_rejection (tcpConn : net_Conn) : error -> Prop :=
| rejection_secret_conn cause :
    handshake_rejection tcpConn
      (ErrRejected (authFailure (rejected tcpConn))
         (Some (fmt_Errorf "secret conn failed: %v" [arg_error (Some cause)])))
| rejection_handshake cause :
    handshake_rejection tcpConn
      (ErrRejected (authFailure (rejected tcpConn))
         (Some (fmt_Errorf "handshake failed: %v" [arg_error (Some cause)])))
| rejection_recovered r :
    handshake_rejection tcpConn
      (ErrRejected (authFailure (rejected tcpConn))
         (Some (fmt_Errorf "recovered from panic: %v" [arg_string r])))
| rejection_mismatch peerID expectPeerID :
    handshake_rejection tcpConn
      (ErrRejected (authFailure (with_id peerID (rejected tcpConn)))
         (Some (fmt_Errorf "conn.ID (%v) dialed ID (%v) mismatch"
                  [arg_string peerID; arg_string expectPeerID])))
| rejection_invalid cause :
    handshake_rejection tcpConn
      (ErrRejected (nodeInfoInvalid (rejected tcpConn)) (Some cause))
| rejection_self id addr :
    handshake_rejection tcpConn
      (ErrRejected (self (with_id id (with_addr addr (rejected tcpConn)))) None)
| rejection_incompatible id cause :
    handshake_rejection tcpConn
      (ErrRejected (incompatible (with_id id (rejected tcpConn))) (Some cause)).

(** The connection with "bb" as it is when the identity checks reject
    it: the multiplexer and the streams have not been set up. *)
Definition connection_bb_rejected : mConnConnection :=
  {| logger := None; secretConn := Some secretConn_bb; mConn := None;
     streams := ∅;
     nodeInfo := {| DefaultNodeID := "bb"; Network := "chain-A" |} |}.

(** ** The error callback of a connection *)

(** func (c *mConnConnection) onError(err interface{})

    The callback of the multiplexer for its errors: it logs and closes
    the connection; what [Close] returns is dropped. *)
Definition onError (api : Collaborators) (c : mConnConnection)
  : ST world unit :=
  match logger c with
  | None => nil_dereference
  | Some _ => mConnConnection_Close api (Some c);; mret tt
  end.

(** ** The panic boundary of the handshake *)

(** [newMConnConnection] returns to its caller, and the error it returns
    is the rejection that its deferred function makes of the panic
    value [r]: a rejection of the socket flagged as an authentication
    failure. *)
Definition panic_is_contained (api : Collaborators) (transport : mConnTransport)
    (tcpConn : net_Conn) (expectPeerID : ID) (w : world) (r : string) : Prop :=
  exists c w',
    newMConnConnection api transport tcpConn expectPeerID w
    = (returns (c, Some (ErrRejected
         {| rej_addr := None; rej_conn := Some tcpConn; rej_id := "";
            isAuthFailure := true; isDuplicate := false; isFiltered := false;
            isIncompatible := false; isNodeInfoInvalid := false;
            isSelf := false |}
         (Some (fmt_Errorf "recovered from panic: %v" [arg_string r])))), w').

(** The collaborators of the examples, except that writing the node
    info panics, as a write does that runs into a bug of the library
    under it. *)
Definition example_api_write_panics : Collaborators :=
  let api := example_api false in
  {| net_SplitHostPort := net_SplitHostPort api;
     net_ParseIP := net_ParseIP api;
     net_DialContext := net_DialContext api;
     conn_SetDeadline := conn_SetDeadline api;
     tmconn_MakeSecretConnection := tmconn_MakeSecretConnection api;
     WriteMsg := fun _ _ => panics "slice bounds out of range";
     ReadMsg := ReadMsg api;
     write_reports_first := write_reports_first api;
     DefaultNodeInfoFromProto := DefaultNodeInfoFromProto api;
     NodeInfo_Validate := NodeInfo_Validate api;
     NodeInfo_CompatibleWith := NodeInfo_CompatibleWith api;
     PubKeyToID := PubKeyToID api;
     NewNetAddress := NewNetAddress api;
     TCPAddr_of := TCPAddr_of api;
     tmconn_NewMConnectionWithConfig := tmconn_NewMConnectionWithConfig api;
     mConn_Start := mConn_Start api;
     mConn_Stop := mConn_Stop api;
     secretConn_Close := secretConn_Close api;
     Endpoint_Validate := Endpoint_Validate api |}.

(* ================================================================== *)
(** * Part II — Theorems                                               *)
(* ================================================================== *)

(** ** Endpoint normalization *)

Section NormalizeFacts.
Variable Validate : Endpoint -> option error.

(** What a successful normalization guarantees about its result. *)
Lemma normalizeEndpoint_accepts e e' :
  normalizeEndpoint Validate (Some e) = (Some e', None) ->
  Validate e = None /\ EProtocol e' = MConnProtocol /\
  length (EIP e') <> 0 /\ Path e' = "" /\ Port e' <> 0%Z.
Proof.
  unfold normalizeEndpoint. destruct (Validate e); [done|].
  repeat case_decide; intros [= <-]; simpl in *; repeat split; try done.
  all: by apply dec_stable.
Qed.

(** A normalized endpoint is left as it is by a second normalization,
    which returns what [Validate] says about it. *)
Lemma normalizeEndpoint_again e e' :
  normalizeEndpoint Validate (Some e) = (Some e', None) ->
  normalizeEndpoint Validate (Some e') = (Some e', Validate e').
Proof.
  intros (_ & Hp & Hip & Hpath & Hport)%normalizeEndpoint_accepts.
  unfold normalizeEndpoint. destruct (Validate e'); [done|].
  unfold MConnProtocol in *.
  repeat case_decide; simpl in *; try done; congruence.
Qed.
End NormalizeFacts.

(** C9. For every endpoint that [normalizeEndpoint] accepts, normalizing
    the normalized endpoint again succeeds and leaves it unchanged: its
    protocol is already "mconn" and its port already non-zero.  The
    validation helper of the [Endpoint] type, which the function calls
    first, is assumed to accept the normalized endpoint. *)
Theorem normalizeEndpoint_idempotent
    (Validate : Endpoint -> option error) (e e' : Endpoint) :
  normalizeEndpoint Validate (Some e) = (Some e', None) ->
  Validate e' = None ->
  normalizeEndpoint Validate (Some e') = (Some e', None) /\
  EProtocol e' = MConnProtocol /\ Port e' <> 0%Z.
Proof.
  intros Hn Hv. split.
  - rewrite (normalizeEndpoint_again _ _ _ Hn). by rewrite Hv.
  - apply normalizeEndpoint_accepts in Hn. tauto.
Qed.

Lemma normalizeEndpoint_idempotent_witness :
  (normalizeEndpoint example_Validate (Some example_endpoint)
     = (Some example_endpoint_normalized, None) /\
   example_Validate example_endpoint_normalized = None) /\
  normalizeEndpoint example_Validate (Some example_endpoint_normalized)
    = (Some example_endpoint_normalized, None) /\
  EProtocol example_endpoint_normalized = MConnProtocol /\
  Port example_endpoint_normalized <> 0%Z.
Proof.
  split; [split; reflexivity|].
  apply (normalizeEndpoint_idempotent example_Validate example_endpoint);
    reflexivity.
Defined.

(** ** Streams of a connection *)

Lemma byte_of_uint16_of (id : Z) : byte_of (uint16_of id) = byte_of id.
Proof.
  unfold byte_of, uint16_of. apply Z.mod_mod_divide. by exists 256%Z.
Qed.

(** C10, as amended.  [Stream] never returns an error: it truncates the
    id to its low eight bits and looks that byte up in the stream map.
    Hence ids that differ by 256 give the same stream.  What it returns
    is never the nil [Stream]: for an id whose low byte has no stream it
    is, with a nil error, an interface value that holds a nil stream
    pointer. *)
Theorem Stream_truncates_id (c : mConnConnection) (id : Z) :
  (Stream c id).2 = None /\
  (Stream c id).1 = Stream_holding (mjoin (streams c !! (id mod 256)%Z)) /\
  Stream c (id + 256) = Stream c id /\
  (Stream c id).1 <> Stream_nil /\
  match streams c !! (id mod 256)%Z with
  | Some (Some s) => Stream c id = (Stream_holding (Some s), None)
  | _ => Stream c id = (Stream_holding None, None)
  end.
Proof.
  unfold Stream. rewrite !byte_of_uint16_of. unfold byte_of.
  replace ((id + 256) mod 256)%Z with (id mod 256)%Z
    by (rewrite <- (Z.mul_1_l 256) at 2; by rewrite Z.mod_add).
  split_and!; try done. by destruct (streams c !! (id mod 256)%Z) as [[]|].
Qed.

(** C10 as stated does not hold: for an id without a stream the result
    is not a nil [Stream].  The connection with "bb" has a stream for
    channel 1 only; [Stream(2)] returns, with a nil error, a value that
    holds a nil pointer and differs from the nil [Stream], so that a
    caller's comparison with nil does not find it. *)
Lemma Stream_of_unknown_channel_is_not_nil :
  streams connection_bb !! byte_of (uint16_of 2) = None /\
  Stream connection_bb 2 = (Stream_holding None, None) /\
  (Stream connection_bb 2).1 <> Stream_nil.
Proof. split_and!; [vm_compute; reflexivity | vm_compute; reflexivity | done]. Qed.

(** ** The channels of a stream: invariants *)

Lemma wf_new : wf new_stream_state.
Proof.
  split; simpl; [done | done | constructor |].
  intros g [H|H]; simpl in H; by apply elem_of_nil in H.
Qed.

Lemma wf_resume g k σ :
  wf σ -> ¬ parked g σ -> wf (resume g k σ).
Proof.
  intros [] Hg. split; simpl; try done.
  intros g' Hp. rewrite lookup_insert_ne; [by apply wf_parked0|].
  intros ->. by apply Hg.
Qed.

Lemma running_not_parked g c σ :
  wf σ -> running σ !! g = Some c -> ¬ parked g σ.
Proof. intros [] Hr Hp. apply wf_parked0 in Hp. congruence. Qed.

Lemma wf_once_Do_close σ : wf σ -> wf (once_Do_close σ).
Proof.
  intros Hwf. unfold once_Do_close.
  destruct (chCloseOnce_done σ) eqn:Hd; [done|].
  split; simpl; [done | done | constructor |].
  intros g [H|H]; simpl in H; by apply elem_of_nil in H.
Qed.

Lemma parked_once_Do_close g σ : parked g (once_Do_close σ) -> parked g σ.
Proof.
  unfold once_Do_close. destruct (chCloseOnce_done σ); [done|].
  intros [H|H]; simpl in H; by apply elem_of_nil in H.
Qed.

Lemma wf_step g coin ok σ σ' :
  wf σ -> step g coin ok σ = Some σ' -> wf σ'.
Proof.
  intros Hwf. unfold step.
  destruct (running σ !! g) as [c|] eqn:Hg; [|done].
  pose proof (running_not_parked _ _ _ Hwf Hg) as Hnp.
  destruct c as [v|recv closed|bz sent closed|k|k|chID bz k]; try done.
  - destruct (chReceive_sendq σ) as [|w q] eqn:Hq.
    + destruct (chClose_closed σ) eqn:Hc; intros [= <-].
      { by apply wf_resume. }
      destruct Hwf. split; simpl; [done | congruence | |].
      * rewrite Hq in *. simpl in *. rewrite app_nil_r in *.
        rewrite fmap_app. simpl. apply NoDup_app.
        split_and!; [done| |apply NoDup_singleton].
        intros x Hx ->%list_elem_of_singleton. apply Hnp. by left.
      * intros g' [Hp|Hp]; simpl in Hp.
        -- rewrite fmap_app in Hp. apply elem_of_app in Hp as [Hp|Hp].
           ++ rewrite lookup_delete_ne; [apply wf_parked0; by left|].
              intros ->. apply Hnp. by left.
           ++ simpl in Hp. apply list_elem_of_singleton in Hp as ->.
              by rewrite lookup_delete_eq.
        -- rewrite ?Hq in Hp. by apply elem_of_nil in Hp.
    + destruct (chClose_closed σ) eqn:Hc.
      { destruct Hwf. destruct (wf_closed0 Hc) as [_ ?]. congruence. }
      simpl. intros [= <-]. destruct Hwf.
      rewrite Hq in wf_nodup0. simpl in wf_nodup0.
      apply NoDup_app in wf_nodup0 as (H1 & H2 & H3).
      apply NoDup_cons in H3 as [H4 H3].
      split; simpl; [done | congruence | |].
      * apply NoDup_app. split_and!; try done.
        intros x Hx1 Hx2. apply (H2 x Hx1). by right.
      * intros g' Hp.
        assert (parked g' σ) as Hp'.
        { destruct Hp as [Hp|Hp]; simpl in Hp; [by left|right].
          rewrite Hq. simpl. by right. }
        rewrite lookup_insert_ne; [|intros ->; by apply Hnp].
        rewrite lookup_insert_ne; [by apply wf_parked0|].
        intros <-. destruct Hp as [Hp|Hp]; simpl in Hp; [|done].
        apply (H2 _ Hp). by left.
  - destruct (chReceive_recvq σ) as [|w q] eqn:Hq.
    + destruct (chClose_closed σ) eqn:Hc; intros [= <-].
      { by apply wf_resume. }
      destruct Hwf. split; simpl; [done | congruence | |].
      * rewrite Hq in *. simpl in *.
        rewrite fmap_app. simpl. apply NoDup_app.
        split_and!; [done| |apply NoDup_singleton].
        intros x Hx ->%list_elem_of_singleton. apply Hnp. by right.
      * intros g' [Hp|Hp]; simpl in Hp.
        -- rewrite ?Hq in Hp. by apply elem_of_nil in Hp.
        -- rewrite fmap_app in Hp. apply elem_of_app in Hp as [Hp|Hp].
           ++ rewrite lookup_delete_ne; [apply wf_parked0; by right|].
              intros ->. apply Hnp. by right.
           ++ simpl in Hp. apply list_elem_of_singleton in Hp as ->.
              by rewrite lookup_delete_eq.
    + destruct (chClose_closed σ) eqn:Hc.
      { destruct Hwf. destruct (wf_closed0 Hc) as [? _]. congruence. }
      simpl. intros [= <-]. destruct Hwf.
      rewrite Hq in wf_nodup0. simpl in wf_nodup0.
      apply NoDup_cons in wf_nodup0 as [H4 H3].
      split; simpl; [done | congruence | done |].
      intros g' Hp.
      assert (parked g' σ) as Hp'.
      { destruct Hp as [Hp|Hp]; simpl in Hp; [left|by right].
        rewrite Hq. simpl. by right. }
      rewrite lookup_insert_ne; [|intros ->; by apply Hnp].
      rewrite lookup_insert_ne; [by apply wf_parked0|].
      intros <-. apply H4. apply elem_of_app.
      destruct Hp as [Hp|Hp]; simpl in Hp; [by left|by right].
  - intros [= <-]. by apply wf_resume.
  - intros [= <-]. apply wf_resume; [by apply wf_once_Do_close|].
    intros Hp. by apply Hnp, parked_once_Do_close.
  - intros [= <-]. by apply wf_resume.
Qed.

Lemma wf_perform a σ σ' : wf σ -> perform a σ = Some σ' -> wf σ'.
Proof.
  intros Hwf. destruct a as [g p|g coin ok]; simpl.
  - case_decide as Hi; [|done]. intros [= <-].
    apply wf_resume; [done|]. by destruct Hi.
  - by apply wf_step.
Qed.

Lemma reachable_wf σ : reachable σ -> wf σ.
Proof.
  induction 1 as [|a σ σ' _ IH Hp]; [apply wf_new|]. by eapply wf_perform.
Qed.

Lemma closed_stable a σ σ' :
  perform a σ = Some σ' -> chClose_closed σ = true -> chClose_closed σ' = true.
Proof.
  destruct a as [g p|g coin ok]; simpl.
  - case_decide; [|done]. by intros [= <-].
  - unfold step. intros Hs Hc.
    destruct (running σ !! g) as [[v|recv closed|bz sent closed|k|k|chID bz k]|];
      try done; repeat case_match; simplify_eq; simpl; try done.
    unfold once_Do_close. by case_match.
Qed.

Lemma wake_recv_lookup ws r w :
  NoDup (rw_g <$> ws) -> w ∈ ws -> wake_recv ws r !! rw_g w = Some (rw_closed w).
Proof.
  induction ws as [|w' ws IH]; simpl; [by intros _ ?%elem_of_nil|].
  intros [Hn Hd]%NoDup_cons [->|Hin]%elem_of_cons.
  - by rewrite lookup_insert_eq.
  - rewrite lookup_insert_ne; [by apply IH|].
    intros Heq. apply Hn. rewrite Heq. by apply list_elem_of_fmap_2.
Qed.

Lemma once_Do_close_idemp σ : once_Do_close (once_Do_close σ) = once_Do_close σ.
Proof.
  unfold once_Do_close. destruct (chCloseOnce_done σ) eqn:Hd; simpl; [|done].
  by rewrite Hd.
Qed.

Lemma once_Do_close_closed σ : wf σ -> chClose_closed (once_Do_close σ) = true.
Proof.
  intros []. unfold once_Do_close. destruct (chCloseOnce_done σ) eqn:Hd; [congruence|done].
Qed.

Lemma once_Do_close_done σ : wf σ -> chClose_closed σ = true -> once_Do_close σ = σ.
Proof.
  intros [] Hc. unfold once_Do_close. rewrite wf_once0, Hc. done.
Qed.

Lemma reading_parked_waiter g s target σ :
  wf σ -> reading g s target σ -> parked g σ ->
  exists w, w ∈ chReceive_recvq σ /\ rw_g w = g /\
            rw_closed w = Return (ret_int_err 0 (Some io_EOF) target) /\
            forall bz, Some (rw_recv w bz) = on_recv (Read s target) bz.
Proof.
  intros Hwf [Hr|Hin] Hp; simpl in *.
  - apply (wf_parked _ Hwf) in Hp. congruence.
  - eexists. split; [exact Hin|]. by simpl.
Qed.

(** C8. [Close] is idempotent: every call of it, from any goroutine,
    returns nil and leaves the stream closed, and a call on a closed
    stream changes nothing.  Closing wakes every pending [Read] with
    [io.EOF]; on a closed stream every [Read] returns [io.EOF] without
    blocking and every [Write] fails; and a closed stream stays
    closed. *)
Theorem Close_idempotent_and_final (s : mConnStream) (σ : stream_state) :
  reachable σ ->
  once_Do_close (once_Do_close σ) = once_Do_close σ /\
  (forall g coin ok, running σ !! g = Some (Close s) ->
     step g coin ok σ = Some (resume g (Return (ret_err None)) (once_Do_close σ)) /\
     chClose_closed (once_Do_close σ) = true /\
     (chClose_closed σ = true -> once_Do_close σ = σ)) /\
  (forall g g' coin ok target σ',
     running σ !! g = Some (Close s) ->
     reading g' s target σ -> parked g' σ ->
     step g coin ok σ = Some σ' ->
     returned g' σ' = Some (ret_int_err 0 (Some io_EOF) target)) /\
  (chClose_closed σ = true ->
   (forall g coin ok target, running σ !! g = Some (Read s target) ->
      exists σ', step g coin ok σ = Some σ' /\ ¬ parked g σ' /\
                 returned g σ' = Some (ret_int_err 0 (Some io_EOF) target)) /\
   (forall g coin ok bz, running σ !! g = Some (Write s bz) ->
      exists σ' e, step g coin ok σ = Some σ' /\
                   returned g σ' = Some (ret_int_err 0 (Some e) bz)) /\
   (forall a σ', perform a σ = Some σ' -> chClose_closed σ' = true)).
Proof.
  intros Hwf%reachable_wf. split_and!.
  - apply once_Do_close_idemp.
  - intros g coin ok Hg. unfold step. rewrite Hg. simpl. split_and!; [done| |].
    + by apply once_Do_close_closed.
    + by apply once_Do_close_done.
  - intros g g' coin ok target σ' Hg Hrd Hp. unfold step. rewrite Hg. simpl.
    intros [= <-].
    destruct (reading_parked_waiter _ _ _ _ Hwf Hrd Hp) as (w & Hin & <- & Hcl & _).
    assert (rw_g w <> g) as Hne.
    { intros Heq. rewrite Heq in Hp. apply (wf_parked _ Hwf) in Hp. congruence. }
    unfold returned. simpl. rewrite lookup_insert_ne by done.
    unfold once_Do_close.
    destruct (chCloseOnce_done σ) eqn:Hd.
    { rewrite (wf_once _ Hwf) in Hd. destruct (wf_closed _ Hwf Hd) as [Hq _].
      rewrite Hq in Hin. by apply elem_of_nil in Hin. }
    simpl. rewrite wake_recv_lookup; [by rewrite Hcl| |done].
    pose proof (wf_nodup _ Hwf) as Hnd. by apply NoDup_app in Hnd as (? & _ & _).
  - intros Hc. destruct (wf_closed _ Hwf Hc) as [Hrq Hsq]. split_and!.
    + intros g coin ok target Hg. unfold step. rewrite Hg. simpl.
      rewrite Hsq, Hc. eexists. split; [done|]. split.
      * unfold parked. simpl. rewrite Hrq, Hsq. intros [?%elem_of_nil|?%elem_of_nil]; done.
      * unfold returned. simpl. by rewrite lookup_insert_eq.
    + intros g coin ok bz Hg. unfold step. rewrite Hg. simpl. rewrite Hc.
      eexists _, _. split; [done|]. unfold returned. simpl.
      by rewrite lookup_insert_eq.
    + intros a σ' Hp. by eapply closed_stable.
Qed.

Lemma received_by_snoc g h x :
  received_by g (h ++ [x]) =
  received_by g h ++ (if decide (ho_to x = g) then [ho_chunk x] else []).
Proof.
  unfold received_by. rewrite filter_app, fmap_app. f_equal.
  rewrite filter_cons, filter_nil. by case_decide.
Qed.


(** A goroutine inside [Read] that is handed a chunk returns what the
    receiving case of [Read] computes from it. *)
Lemma reading_receives g s target bz a σ σ' :
  wf σ -> reading g s target σ -> perform a σ = Some σ' ->
  received_by g (handed σ') = received_by g (handed σ) ++ [bz] ->
  Some (running σ' !! g) = Some (on_recv (Read s target) bz).
Proof.
  intros Hwf Hrd Hp Hrecv.
  assert (forall l : list bytes, l = l ++ [bz] -> False) as Hnil.
  { intros l Hl. apply (f_equal length) in Hl. rewrite length_app in Hl.
    simpl in Hl. lia. }
  destruct a as [g0 p|g0 coin ok]; simpl in Hp.
  { case_decide; [|done]. injection Hp as <-. simpl in Hrecv. by apply Hnil in Hrecv. }
  unfold step in Hp.
  destruct (running σ !! g0) as [c|] eqn:Hg0; [|done].
  pose proof (running_not_parked _ _ _ Hwf Hg0) as Hnp.
  destruct c as [v|recv closed|bz' sent closed|k|k|chID bz' k]; try done.
  - destruct (chReceive_sendq σ) as [|w q] eqn:Hq.
    { destruct (chClose_closed σ); injection Hp as <-; simpl in Hrecv;
        by apply Hnil in Hrecv. }
    destruct (chClose_closed σ && coin); injection Hp as <-; simpl in *;
      [by apply Hnil in Hrecv|].
    rewrite received_by_snoc in Hrecv. simpl in Hrecv.
    case_decide as Hto; [|rewrite app_nil_r in Hrecv; by apply Hnil in Hrecv].
    apply app_inv_head in Hrecv. injection Hrecv as <-. subst g0.
    rewrite lookup_insert_eq. f_equal.
    destruct Hrd as [Hr|Hin]; simpl in *;
      [rewrite Hg0 in Hr; by injection Hr as -> ->|].
    exfalso. apply Hnp. left. by apply (list_elem_of_fmap_2 rw_g) in Hin.
  - destruct (chReceive_recvq σ) as [|w q] eqn:Hq.
    { destruct (chClose_closed σ); injection Hp as <-; simpl in Hrecv;
        by apply Hnil in Hrecv. }
    destruct (chClose_closed σ && coin); injection Hp as <-; simpl in *;
      [by apply Hnil in Hrecv|].
    rewrite received_by_snoc in Hrecv. simpl in Hrecv.
    case_decide as Hto; [|rewrite app_nil_r in Hrecv; by apply Hnil in Hrecv].
    apply app_inv_head in Hrecv. injection Hrecv as <-. subst g.
    assert (parked (rw_g w) σ) as Hpk.
    { left. rewrite Hq. simpl. by left. }
    rewrite lookup_insert_ne by (intros ->; by apply Hnp).
    rewrite lookup_insert_eq. f_equal.
    destruct Hrd as [Hr|Hin]; simpl in *.
    { apply (wf_parked _ Hwf) in Hpk. congruence. }
    rewrite Hq in Hin. apply elem_of_cons in Hin as [<-|Hin]; [done|].
    exfalso. pose proof (wf_nodup _ Hwf) as Hnd. rewrite Hq in Hnd. simpl in Hnd.
    apply NoDup_cons in Hnd as [Hnd _]. apply Hnd, elem_of_app. left.
    by apply (list_elem_of_fmap_2 rw_g) in Hin.
  - injection Hp as <-. simpl in Hrecv. by apply Hnil in Hrecv.
  - injection Hp as <-. simpl in Hrecv.
    unfold once_Do_close in Hrecv. destruct (chCloseOnce_done σ); simpl in Hrecv;
      by apply Hnil in Hrecv.
  - injection Hp as <-. simpl in Hrecv. by apply Hnil in Hrecv.
Qed.

(** C5. A [Read] that is handed a chunk longer than its buffer returns
    [(0, io.ErrShortBuffer)] and leaves the buffer as it was: nothing of
    the chunk is copied. *)
Theorem Read_short_buffer (s : mConnStream) (target bz : bytes) :
  length target < length bz ->
  on_recv (Read s target) bz
    = Some (Return (ret_int_err 0 (Some io_ErrShortBuffer) target)) /\
  (forall g a σ σ',
     reachable σ -> reading g s target σ -> perform a σ = Some σ' ->
     received_by g (handed σ') = received_by g (handed σ) ++ [bz] ->
     returned g σ' = Some (ret_int_err 0 (Some io_ErrShortBuffer) target)).
Proof.
  intros Hlen.
  assert (on_recv (Read s target) bz
          = Some (Return (ret_int_err 0 (Some io_ErrShortBuffer) target))) as Hf.
  { simpl. by rewrite decide_True. }
  split; [done|].
  intros g a σ σ' Hwf%reachable_wf Hrd Hp Hrecv.
  pose proof (reading_receives _ _ _ _ _ _ _ Hwf Hrd Hp Hrecv) as Hr.
  rewrite Hf in Hr. injection Hr as Hr. unfold returned. by rewrite Hr.
Qed.

Lemma wake_send_lookup ws r w :
  NoDup (sw_g <$> ws) -> w ∈ ws -> wake_send ws r !! sw_g w = Some (sw_closed w).
Proof.
  induction ws as [|w' ws IH]; simpl; [by intros _ ?%elem_of_nil|].
  intros [Hn Hd]%NoDup_cons [->|Hin]%elem_of_cons.
  - by rewrite lookup_insert_eq.
  - rewrite lookup_insert_ne; [by apply IH|].
    intros Heq. apply Hn. rewrite Heq. by apply list_elem_of_fmap_2.
Qed.

Lemma wake_recv_lookup_ne ws r g :
  g ∉ rw_g <$> ws -> wake_recv ws r !! g = r !! g.
Proof.
  induction ws as [|w ws IH]; simpl; [done|].
  intros [Hne Hnin]%not_elem_of_cons.
  rewrite lookup_insert_ne by done. by apply IH.
Qed.

Lemma wake_send_lookup_ne ws r g :
  g ∉ sw_g <$> ws -> wake_send ws r !! g = r !! g.
Proof.
  induction ws as [|w ws IH]; simpl; [done|].
  intros [Hne Hnin]%not_elem_of_cons.
  rewrite lookup_insert_ne by done. by apply IH.
Qed.







Lemma reachable_run sched σ σ' :
  reachable σ -> run sched σ = Some σ' -> reachable σ'.
Proof.
  revert σ. induction sched as [|a sched IH]; intros σ Hr Hrun; simpl in Hrun.
  - by injection Hrun as <-.
  - destruct (perform a σ) as [σ1|] eqn:Hp; [|done].
    eapply IH; [|done]. by eapply reachable_perform.
Defined.


(** ** The stream examples *)

Lemma idle_new g : idle g new_stream_state.
Proof.
  split; [|done]. intros [H|H]; simpl in H; by apply elem_of_nil in H.
Defined.



(** The reader gets "hello" and then the end-of-message marker. *)
Example example_delivered_handed :
  handed example_delivered =
  [ {| ho_from := 0; ho_to := 1; ho_chunk := hello |};
    {| ho_from := 0; ho_to := 1; ho_chunk := [] |} ] /\
  returned 0 example_delivered = Some (ret_err None) /\
  returned 1 example_delivered = Some (ret_int_err 0 None buffer8).
Proof. vm_compute. done. Qed.

Example example_first_read :
  (run (take 4 example_delivery) new_stream_state) ≫= returned 1
  = Some (ret_int_err 5 None (hello ++ [Byte.x00; Byte.x00; Byte.x00])).
Proof. vm_compute. done. Qed.


Lemma Read_short_buffer_witness :
  length buffer2 < length hello /\
  on_recv (Read example_stream buffer2) hello
    = Some (Return (ret_int_err 0 (Some io_ErrShortBuffer) buffer2)) /\
  (forall g a σ σ',
     reachable σ -> reading g example_stream buffer2 σ ->
     perform a σ = Some σ' ->
     received_by g (handed σ') = received_by g (handed σ) ++ [hello] ->
     returned g σ' = Some (ret_int_err 0 (Some io_ErrShortBuffer) buffer2)).
Proof.
  assert (length buffer2 < length hello) as Hlt by (simpl; lia).
  split; [done|]. by apply (Read_short_buffer example_stream buffer2 hello).
Defined.

(** A short buffer loses the chunk: the [Read] fails, and the next
    [Read] is handed the marker, not the payload. *)
Example example_short_read :
  run [ act_call 0 (receive example_stream hello true);
        act_call 1 (Read example_stream buffer2);
        act_step 0 false true;
        act_step 1 false true ] new_stream_state ≫= returned 1
  = Some (ret_int_err 0 (Some io_ErrShortBuffer) buffer2) /\
  run [ act_call 0 (receive example_stream hello true);
        act_call 1 (Read example_stream buffer2);
        act_step 0 false true;
        act_step 1 false true;
        act_call 1 (Read example_stream buffer8);
        act_step 0 false true;
        act_step 1 false true ] new_stream_state ≫= returned 1
  = Some (ret_int_err 0 None buffer8).
Proof. vm_compute. done. Qed.

Lemma example_closed_reachable : reachable example_closed.
Proof.
  apply (reachable_run
           [ act_call 2 (Close example_stream); act_step 2 false true;
             act_call 3 (Close example_stream); act_step 3 false true ]
           new_stream_state); [apply reachable_new|].
  vm_compute. reflexivity.
Defined.

Example example_closed_twice :
  chClose_closed example_closed = true /\
  returned 2 example_closed = Some (ret_err None) /\
  returned 3 example_closed = Some (ret_err None).
Proof. vm_compute. done. Qed.

Lemma Close_idempotent_and_final_witness :
  reachable example_closed /\
  once_Do_close (once_Do_close example_closed) = once_Do_close example_closed /\
  (forall g coin ok, running example_closed !! g = Some (Close example_stream) ->
     step g coin ok example_closed
       = Some (resume g (Return (ret_err None)) (once_Do_close example_closed)) /\
     chClose_closed (once_Do_close example_closed) = true /\
     (chClose_closed example_closed = true ->
      once_Do_close example_closed = example_closed)) /\
  (forall g g' coin ok target σ',
     running example_closed !! g = Some (Close example_stream) ->
     reading g' example_stream target example_closed ->
     parked g' example_closed ->
     step g coin ok example_closed = Some σ' ->
     returned g' σ' = Some (ret_int_err 0 (Some io_EOF) target)) /\
  (chClose_closed example_closed = true ->
   (forall g coin ok target,
      running example_closed !! g = Some (Read example_stream target) ->
      exists σ', step g coin ok example_closed = Some σ' /\ ¬ parked g σ' /\
                 returned g σ' = Some (ret_int_err 0 (Some io_EOF) target)) /\
   (forall g coin ok bz,
      running example_closed !! g = Some (Write example_stream bz) ->
      exists σ' e, step g coin ok example_closed = Some σ' /\
                   returned g σ' = Some (ret_int_err 0 (Some e) bz)) /\
   (forall a σ', perform a example_closed = Some σ' -> chClose_closed σ' = true)).
Proof.
  split; [apply example_closed_reachable|].
  apply (Close_idempotent_and_final example_stream example_closed).
  apply example_closed_reachable.
Defined.

(** Closing wakes a parked [Read] with [io.EOF]; afterwards a [Read]
    returns [io.EOF] at once and a [Write] fails. *)
Example example_close_unblocks :
  run [ act_call 1 (Read example_stream buffer8); act_step 1 false true;
        act_call 2 (Close example_stream); act_step 2 false true ]
      new_stream_state ≫= returned 1
  = Some (ret_int_err 0 (Some io_EOF) buffer8) /\
  run [ act_call 1 (Read example_stream buffer8); act_step 1 true true ]
      example_closed ≫= returned 1
  = Some (ret_int_err 0 (Some io_EOF) buffer8) /\
  run [ act_call 1 (Write example_stream hello); act_step 1 true true ]
      example_closed ≫= returned 1
  = Some (ret_int_err 0
            (Some (fmt_Errorf "stream %v is closed" [arg_int 1])) hello).
Proof. vm_compute. done. Qed.

(** ** The handshake *)

(** Unfolds the plumbing of [ST] so that the calls to the collaborators
    come to the surface. *)
Ltac run_st :=
  cbv [mbind mret ST_bind ST_ret in_world is_closed emit ext set_err set_conn
       get_err get_conn update_conn nil_dereference get_conns put_conns
       fst snd];
  simpl.

Section HandshakeFacts.
Context (api : Collaborators).

(** The handshake up to and including the validation of the node info
    went through: the state in which the identity checks start. *)
Lemma newMConnConnection_validated transport tcpConn expectPeerID w sc pb info :
  conn_SetDeadline api (socket_closed tcpConn (trace w)) tcpConn
    (Some (handshakeTimeout transport)) = returns None ->
  tmconn_MakeSecretConnection api tcpConn (privKey transport) = returns (inl sc) ->
  WriteMsg api sc (t_nodeInfo transport) = returns None ->
  ReadMsg api sc = returns (pb, None) ->
  DefaultNodeInfoFromProto api pb = returns (info, None) ->
  NodeInfo_Validate api info = returns None ->
  newMConnConnection_body api transport tcpConn expectPeerID
    ({| conn := None; err := None |}, w)
  = verify_peer api transport tcpConn expectPeerID
      ({| conn := Some {| logger := None; secretConn := Some sc; mConn := None;
                          streams := ∅; nodeInfo := info |};
          err := None |},
       {| conns := conns w;
          trace := trace w ++
            [ev_SetDeadline tcpConn (Some (handshakeTimeout transport));
             ev_MakeSecretConnection tcpConn;
             ev_exchange_NodeInfo (sc_conn sc)] |}).
Proof.
  intros Hd Hs Hw Hr Hp Hv.
  unfold newMConnConnection_body, handshake.
  run_st. rewrite Hd. run_st. rewrite Hs. run_st. rewrite Hw, Hr.
  destruct (write_reports_first api sc); run_st; rewrite Hp; run_st;
    rewrite Hv; run_st; by rewrite <- !app_assoc.
Qed.

(** C3. Once the node info has been validated, the identity checks are
    made in this order: (a) an expected peer id that is not empty and
    differs from the id of the secure channel's public key rejects the
    socket as an authentication failure; (b) otherwise a peer whose
    declared id is this node's own is rejected as self; (c) otherwise a
    node info that is not compatible rejects the socket as
    incompatible. *)
Theorem identity_checks_in_order
    (transport : mConnTransport) (tcpConn : net_Conn) (expectPeerID : ID)
    (w : world) (sc : SecretConnection) (pb : pbNodeInfo)
    (info : DefaultNodeInfo) :
  conn_SetDeadline api (socket_closed tcpConn (trace w)) tcpConn
    (Some (handshakeTimeout transport)) = returns None ->
  tmconn_MakeSecretConnection api tcpConn (privKey transport) = returns (inl sc) ->
  WriteMsg api sc (t_nodeInfo transport) = returns None ->
  ReadMsg api sc = returns (pb, None) ->
  DefaultNodeInfoFromProto api pb = returns (info, None) ->
  NodeInfo_Validate api info = returns None ->
  (forall peerID,
     expectPeerID <> "" ->
     PubKeyToID api (RemotePubKey sc) = returns peerID ->
     expectPeerID <> peerID ->
     exists c w',
       newMConnConnection api transport tcpConn expectPeerID w
       = (returns (c, Some (ErrRejected
            {| rej_addr := None; rej_conn := Some tcpConn; rej_id := peerID;
               isAuthFailure := true; isDuplicate := false;
               isFiltered := false; isIncompatible := false;
               isNodeInfoInvalid := false; isSelf := false |}
            (Some (fmt_Errorf "conn.ID (%v) dialed ID (%v) mismatch"
                     [arg_string peerID; arg_string expectPeerID])))), w')) /\
  (expectPeerID = "" \/
   PubKeyToID api (RemotePubKey sc) = returns expectPeerID ->
   (NodeInfo_ID (t_nodeInfo transport) = NodeInfo_ID info ->
    forall addr,
      NewNetAddress api (NodeInfo_ID info) (RemoteAddr (sc_conn sc))
        = returns addr ->
      exists c w',
        newMConnConnection api transport tcpConn expectPeerID w
        = (returns (c, Some (ErrRejected
             {| rej_addr := Some addr; rej_conn := Some tcpConn;
                rej_id := NodeInfo_ID info;
                isAuthFailure := false; isDuplicate := false;
                isFiltered := false; isIncompatible := false;
                isNodeInfoInvalid := false; isSelf := true |}
             None)), w')) /\
   (NodeInfo_ID (t_nodeInfo transport) <> NodeInfo_ID info ->
    forall e,
      NodeInfo_CompatibleWith api (t_nodeInfo transport) info
        = returns (Some e) ->
      exists c w',
        newMConnConnection api transport tcpConn expectPeerID w
        = (returns (c, Some (ErrRejected
             {| rej_addr := None; rej_conn := Some tcpConn;
                rej_id := NodeInfo_ID info;
                isAuthFailure := false; isDuplicate := false;
                isFiltered := false; isIncompatible := true;
                isNodeInfoInvalid := false; isSelf := false |}
             (Some e))), w'))).
Proof.
  intros Hd Hs Hw Hr Hp Hv.
  pose proof (newMConnConnection_validated transport tcpConn expectPeerID
                w sc pb info Hd Hs Hw Hr Hp Hv) as Hbody.
  unfold newMConnConnection. rewrite Hbody. clear Hbody.
  assert (forall s : frame * world,
            expectPeerID = "" \/
            PubKeyToID api (RemotePubKey sc) = returns expectPeerID ->
            conn s.1 = Some {| logger := None; secretConn := Some sc;
                               mConn := None; streams := ∅; nodeInfo := info |} ->
            (if decide (expectPeerID <> "") then
               c ← get_conn;
               pk ← ext (conn_PubKey c);
               peerID ← ext (PubKeyToID api pk);
               if decide (expectPeerID <> peerID) then
                 set_err (Some (ErrRejected
                                  (authFailure (with_id peerID (rejected tcpConn)))
                                  (Some (fmt_Errorf "conn.ID (%v) dialed ID (%v) mismatch"
                                           [arg_string peerID; arg_string expectPeerID]))));;
                 mret true
               else mret false
             else mret false) s = (returns false, s)) as Hok.
  { intros [f w0] Hexp Hc. simpl in Hc. case_decide as Hne; [|done].
    destruct Hexp as [->|Hid]; [done|].
    run_st. rewrite Hc. simpl. rewrite Hid. by rewrite decide_False by (by intros ?). }
  split; [|intros Hexp; split].
  - intros peerID Hne Hid Hmis. unfold verify_peer.
    rewrite decide_True by done. run_st. rewrite Hid.
    rewrite decide_True by done. by eexists _, _.
  - intros Hself addr Haddr. unfold verify_peer.
    unfold mbind at 1, ST_bind at 1. rewrite Hok by done.
    run_st. rewrite decide_True by done. rewrite Haddr. by eexists _, _.
  - intros Hself e He. unfold verify_peer.
    unfold mbind at 1, ST_bind at 1. rewrite Hok by done.
    run_st. rewrite decide_False by done. rewrite He. by eexists _, _.
Qed.
End HandshakeFacts.

(** ** The handshake examples *)

(** A handshake with the peer "bb" goes through, with a stream for
    channel 1. *)
Example example_handshake :
  exists c w',
    newMConnConnection (example_api false) example_transport peer_bb "bb"
      empty_world = (returns (Some c, None), w') /\
    Stream c 1
    = (Stream_holding (Some {| connection := peer_bb; stream_id := 1 |}),
       None) /\
    Stream c 257 = Stream c 1 /\
    Stream c 2 = (Stream_holding None, None) /\
    trace w' = [ev_SetDeadline peer_bb (Some defaultHandshakeTimeout);
                ev_MakeSecretConnection peer_bb;
                ev_exchange_NodeInfo peer_bb;
                ev_SetDeadline peer_bb None;
                ev_NewMConnection peer_bb;
                ev_mConn_Start peer_bb].
Proof. eexists _, _. split; [vm_compute; reflexivity|]. vm_compute. done. Qed.

(** The connection routes an inbound chunk to the stream of its channel
    and refuses a channel it has no stream for. *)
Example example_onReceive :
  exists c w',
    newMConnConnection (example_api false) example_transport peer_bb "bb"
      empty_world = (returns (Some c, None), w') /\
    onReceive c 1 hello true
    = returns (inr ({| connection := peer_bb; stream_id := 1 |},
                    receive {| connection := peer_bb; stream_id := 1 |}
                      hello true)) /\
    onReceive c 2 hello true
    = returns (inl (Some (fmt_Errorf "received message for unknown channel %v"
                            [arg_int 2]))).
Proof. eexists _, _. split; [vm_compute; reflexivity|]. vm_compute. done. Qed.

(** The multiplexer library panics while it is constructed: the dial
    and the accept path get an error, not the panic. *)
Example example_panic_contained :
  exists c w',
    newMConnConnection (example_api true) example_transport peer_bb "bb"
      empty_world
    = (returns (c, Some (ErrRejected
         {| rej_addr := None; rej_conn := Some peer_bb; rej_id := "";
            isAuthFailure := true; isDuplicate := false; isFiltered := false;
            isIncompatible := false; isNodeInfoInvalid := false;
            isSelf := false |}
         (Some (fmt_Errorf "recovered from panic: %v"
                  [arg_string "unknown channel priority"])))), w').
Proof. eexists _, _. vm_compute. reflexivity. Qed.

Lemma identity_checks_in_order_witness :
  (exists c w',
     newMConnConnection (example_api false) example_transport peer_bb "dd"
       empty_world
     = (returns (c, Some (ErrRejected
          {| rej_addr := None; rej_conn := Some peer_bb; rej_id := "bb";
             isAuthFailure := true; isDuplicate := false;
             isFiltered := false; isIncompatible := false;
             isNodeInfoInvalid := false; isSelf := false |}
          (Some (fmt_Errorf "conn.ID (%v) dialed ID (%v) mismatch"
                   [arg_string "bb"; arg_string "dd"])))), w')) /\
  (exists c w',
     newMConnConnection (example_api false) example_transport peer_aa "aa"
       empty_world
     = (returns (c, Some (ErrRejected
          {| rej_addr := Some {| na_ID := "aa"; na_addr := "127.0.0.1:26656" |};
             rej_conn := Some peer_aa; rej_id := "aa";
             isAuthFailure := false; isDuplicate := false;
             isFiltered := false; isIncompatible := false;
             isNodeInfoInvalid := false; isSelf := true |}
          None)), w')) /\
  (exists c w',
     newMConnConnection (example_api false) example_transport peer_cc ""
       empty_world
     = (returns (c, Some (ErrRejected
          {| rej_addr := None; rej_conn := Some peer_cc; rej_id := "cc";
             isAuthFailure := false; isDuplicate := false;
             isFiltered := false; isIncompatible := true;
             isNodeInfoInvalid := false; isSelf := false |}
          (Some (collaborator_error "peer is on a different network")))), w')).
Proof.
  split_and!.
  - destruct (identity_checks_in_order (example_api false) example_transport
                peer_bb "dd" empty_world
                {| sc_conn := peer_bb; RemotePubKey := "bb" |} "bb"
                {| DefaultNodeID := "bb"; Network := "chain-A" |})
      as [Ha _]; try reflexivity.
    apply (Ha "bb"); [discriminate | reflexivity | discriminate].
  - destruct (identity_checks_in_order (example_api false) example_transport
                peer_aa "aa" empty_world
                {| sc_conn := peer_aa; RemotePubKey := "aa" |} "aa"
                {| DefaultNodeID := "aa"; Network := "chain-A" |})
      as [_ Hb]; try reflexivity.
    destruct Hb as [Hb _]; [right; reflexivity|].
    apply (Hb eq_refl {| na_ID := "aa"; na_addr := "127.0.0.1:26656" |}).
    reflexivity.
  - destruct (identity_checks_in_order (example_api false) example_transport
                peer_cc "" empty_world
                {| sc_conn := peer_cc; RemotePubKey := "cc" |} "cc"
                {| DefaultNodeID := "cc"; Network := "chain-B" |})
      as [_ Hc]; try reflexivity.
    destruct Hc as [_ Hc]; [left; reflexivity|].
    apply (Hc ltac:(discriminate)
              (collaborator_error "peer is on a different network")).
    reflexivity.
Defined.

(** ** What the transport adds to the trace *)

Section Appends.
Context {S : Type} (P : event -> Prop) (π : S -> world).

Lemma appends_ret {A} (a : A) : appends P π (mret a).
Proof. intros s r s' [= <- <-]. exists []. by rewrite app_nil_r. Qed.

Lemma appends_ext {A} (c : call A) : appends P π (ext c).
Proof. intros s r s' [= <- <-]. exists []. by rewrite app_nil_r. Qed.

Lemma appends_nil_dereference {A} : appends P π (@nil_dereference S A).
Proof. apply appends_ext. Qed.

Lemma appends_bind {A B} (m : ST S A) (f : A -> ST S B) :
  appends P π m -> (forall a, appends P π (f a)) -> appends P π (m ≫= f).
Proof.
  intros Hm Hf s r s' Hrun. unfold mbind, ST_bind in Hrun.
  destruct (m s) as [[a|p|p] s1] eqn:Hms.
  - destruct (Hm _ _ _ Hms) as (tr1 & Ht1 & Hp1).
    destruct (Hf a _ _ _ Hrun) as (tr2 & Ht2 & Hp2).
    exists (tr1 ++ tr2). rewrite Ht2, Ht1, <- app_assoc.
    split; [done|]. by apply Forall_app.
  - injection Hrun as <- <-. by apply (Hm _ _ _ Hms).
  - injection Hrun as <- <-. by apply (Hm _ _ _ Hms).
Qed.
End Appends.

Lemma appends_weaken {S A} (P Q : event -> Prop) (π : S -> world) (m : ST S A) :
  (forall e, P e -> Q e) -> appends P π m -> appends Q π m.
Proof.
  intros HPQ Hm s r s' Hrun. destruct (Hm _ _ _ Hrun) as (tr & Ht & HP).
  exists tr. split; [done|]. eapply Forall_impl; [done|]. apply HPQ.
Qed.

Section AppendsWorld.
Context (P : event -> Prop).

Lemma appends_emit e : P e -> appends P id (emit e).
Proof. intros He s r s' [= <- <-]. exists [e]. split; [done|]. by constructor. Qed.

Lemma appends_get_conns : appends P id get_conns.
Proof. intros s r s' [= <- <-]. exists []. by rewrite app_nil_r. Qed.

Lemma appends_put_conns cs : appends P id (put_conns cs).
Proof. intros s r s' [= <- <-]. exists []. simpl. by rewrite app_nil_r. Qed.

Lemma appends_is_closed c : appends P id (is_closed c).
Proof. intros s r s' [= <- <-]. exists []. by rewrite app_nil_r. Qed.

Lemma appends_in_world {A} (m : ST world A) :
  appends P id m -> appends P snd (in_world m).
Proof.
  intros Hm [f w] r [f' w'] Hrun. unfold in_world in Hrun. simpl in Hrun.
  destruct (m w) as [r1 w1] eqn:Hmw. injection Hrun as <- <- <-.
  by apply (Hm _ _ _ Hmw).
Qed.

Lemma appends_get_err : appends P snd get_err.
Proof. intros s r s' [= <- <-]. exists []. by rewrite app_nil_r. Qed.

Lemma appends_set_err e : appends P snd (set_err e).
Proof. intros s r s' [= <- <-]. exists []. simpl. by rewrite app_nil_r. Qed.

Lemma appends_set_conn c : appends P snd (set_conn c).
Proof. intros s r s' [= <- <-]. exists []. simpl. by rewrite app_nil_r. Qed.

Lemma appends_get_conn : appends P snd get_conn.
Proof.
  intros s r s' Hrun. unfold get_conn in Hrun.
  destruct (conn s.1); injection Hrun as <- <-; exists [];
    by rewrite app_nil_r.
Qed.

Lemma appends_update_conn f : appends P snd (update_conn f).
Proof.
  apply appends_bind; [apply appends_get_conn|]. intros c. apply appends_set_conn.
Qed.
End AppendsWorld.

(** Takes a computation apart along its binds and branches. *)
Ltac appends_step :=
  first
    [ apply appends_ret | apply appends_ext | apply appends_nil_dereference
    | apply appends_get_conns | apply appends_put_conns | apply appends_is_closed
    | apply appends_get_err | apply appends_set_err | apply appends_set_conn
    | apply appends_get_conn | apply appends_update_conn
    | apply appends_emit; done
    | apply appends_in_world
    | apply appends_bind; [|intros ?]
    | match goal with
      | |- appends _ _ (match ?x with _ => _ end) => destruct x
      | |- appends _ _ (if ?x then _ else _) => destruct x
      | |- appends _ _ (let '(_, _) := ?x in _) => destruct x
      end ].

Section TraceFacts.
Context (api : Collaborators).

Lemma handshake_appends transport c :
  appends not_Close id (handshake api transport c).
Proof. unfold handshake. repeat appends_step. Qed.

Lemma make_streams_appends tcpConn descs :
  appends not_Close snd (make_streams tcpConn descs).
Proof.
  induction descs as [|d descs IH]; simpl; [apply appends_ret|].
  destruct (newMConnStream _ _) as [s e].
  repeat first [apply IH | appends_step].
Qed.

Lemma start_mconn_appends transport tcpConn :
  appends not_Close snd (start_mconn api transport tcpConn).
Proof.
  unfold start_mconn.
  repeat first [apply make_streams_appends | appends_step].
Qed.

Lemma verify_peer_appends transport tcpConn expectPeerID :
  appends not_Close snd (verify_peer api transport tcpConn expectPeerID).
Proof.
  unfold verify_peer.
  repeat first [apply start_mconn_appends | appends_step].
Qed.

(** The handshake closes no socket, and the first thing it does to the
    socket is to arm the deadline. *)
Lemma newMConnConnection_arms_deadline transport tcpConn expectPeerID w r w' :
  newMConnConnection api transport tcpConn expectPeerID w = (r, w') ->
  exists tr,
    trace w' = trace w ++
      ev_SetDeadline tcpConn (Some (handshakeTimeout transport)) :: tr /\
    Forall not_Close tr.
Proof.
  unfold newMConnConnection, newMConnConnection_body.
  unfold mbind at 1, ST_bind at 1. unfold in_world at 1, is_closed. simpl.
  unfold mbind at 1, ST_bind at 1. unfold in_world at 1, emit at 1. simpl.
  match goal with
  | |- context [mbind ?f ?m ?s] =>
    assert (appends not_Close snd (mbind f m)) as Hrest
  end.
  { repeat first [apply handshake_appends | apply verify_peer_appends
                  | appends_step]. }
  intros Hrun.
  match type of Hrun with
  | context [mbind ?f ?m ?s] => destruct (mbind f m s) as [r1 [f1 w1]] eqn:Hb
  end.
  apply Hrest in Hb as (tr & Ht & Hnc). simpl in Ht.
  exists tr. split; [|done].
  destruct r1; injection Hrun as <- <-; by rewrite Ht, <- app_assoc.
Qed.
End TraceFacts.

Lemma socket_closed_app c tr1 tr2 :
  socket_closed c (tr1 ++ tr2) = socket_closed c tr1 || socket_closed c tr2.
Proof. unfold socket_closed. by rewrite existsb_app. Qed.

Lemma socket_closed_not_Close c tr :
  Forall not_Close tr -> socket_closed c tr = false.
Proof.
  induction 1 as [|e tr He _ IH]; [done|]. simpl. rewrite IH.
  by destruct e.
Qed.

Section TransportFacts.
Context (api : Collaborators).

Lemma filterTCPConn_trace m tcpConn sched w r w' :
  filterTCPConn api m tcpConn sched w = (r, w') -> trace w' = trace w.
Proof.
  unfold filterTCPConn. run_st.
  repeat case_match; by intros [= <- <-].
Qed.

Lemma select_chError_appends e o : appends (fun _ => True) id (select_chError e o).
Proof. unfold select_chError. repeat appends_step. Qed.

Lemma mConnConnection_Close_appends c :
  appends (fun _ => True) id (mConnConnection_Close api c).
Proof. unfold mConnConnection_Close. repeat appends_step. Qed.

(** Whenever the filters reject an inbound socket and the goroutine gets
    past the report of the rejection, it runs the handshake on the
    socket it has just closed. *)
Lemma accept_conn_rejection_falls_through m tcpConn sched w e w1 r w' :
  filterTCPConn api m tcpConn (as_filters sched) w = (returns (Some e), w1) ->
  as_filter_error sched <> sel_blocked ->
  accept_conn api m tcpConn sched w = (r, w') ->
  exists tr1 tr2,
    trace w' = trace w1 ++ ev_Close tcpConn :: tr1 ++
               ev_SetDeadline tcpConn (Some (handshakeTimeout m)) :: tr2.
Proof.
  intros Hf Hsel. unfold accept_conn.
  unfold mbind at 1, ST_bind at 1. rewrite Hf.
  unfold mbind at 1, ST_bind at 1.
  assert (exists tr1,
            (emit (ev_Close tcpConn);; select_chError e (as_filter_error sched)) w1
            = (returns true,
               {| conns := conns w1;
                  trace := trace w1 ++ ev_Close tcpConn :: tr1 |})) as [tr1 Hrep].
  { destruct (as_filter_error sched); [| |done].
    - exists [ev_chError e]. run_st. unfold select_chError. run_st.
      by rewrite <- app_assoc.
    - by exists []. }
  rewrite Hrep. simpl.
  unfold mbind at 1, ST_bind at 1.
  destruct (newMConnConnection api m tcpConn "" _) as [r1 w2] eqn:Hn.
  apply newMConnConnection_arms_deadline in Hn as (tr2 & Ht2 & _).
  simpl in Ht2.
  assert (forall (k : ST world unit) r w',
            appends (fun _ => True) id k -> k w2 = (r, w') ->
            exists tr3, trace w' = trace w1 ++ ev_Close tcpConn :: tr1 ++
              ev_SetDeadline tcpConn (Some (handshakeTimeout m)) :: tr3) as Htail.
  { intros k r0 w0 Hk Hrun. apply Hk in Hrun as (tr3 & Ht3 & _). simpl in Ht3.
    exists (tr2 ++ tr3). rewrite Ht3, Ht2.
    by repeat (rewrite <- ?app_assoc; simpl). }
  destruct r1 as [[c err]|p|p].
  - intros Hrun. exists tr1. eapply Htail; [|exact Hrun].
    simpl. repeat first [apply select_chError_appends
                        | apply mConnConnection_Close_appends | appends_step].
  - intros [= <- <-]. exists tr1, tr2. rewrite Ht2.
    by repeat (rewrite <- ?app_assoc; simpl).
  - intros [= <- <-]. exists tr1, tr2. rewrite Ht2.
    by repeat (rewrite <- ?app_assoc; simpl).
Qed.

(** On a handshake that fails after the filters have passed, the accept
    goroutine takes the socket out of the ConnectionSet and closes it. *)
Lemma accept_conn_failed_handshake m tcpConn sched w w1 c e w2 :
  filterTCPConn api m tcpConn (as_filters sched) w = (returns None, w1) ->
  newMConnConnection api m tcpConn "" w1 = (returns (c, Some e), w2) ->
  exists tr,
    accept_conn api m tcpConn sched w
    = (returns tt, {| conns := ConnSet_Remove (conns w2) tcpConn;
                      trace := trace w2 ++ ev_Close tcpConn :: tr |}).
Proof.
  intros Hf Hn. unfold accept_conn.
  unfold mbind at 1, ST_bind at 1. rewrite Hf. run_st. rewrite Hn. simpl.
  unfold select_chError. destruct (as_result sched); run_st.
  - exists [ev_chError e]. by rewrite <- app_assoc.
  - by exists [].
  - by exists [].
Qed.

(** On a handshake that fails after the filters have passed, [Dial] takes
    the socket out of the ConnectionSet and returns the error; the
    socket is as open as it was when it was dialed. *)
Lemma Dial_failed_handshake m endpoint sched w ep tcpConn w1 c e w2 :
  normalizeEndpoint (Endpoint_Validate api) (Some endpoint) = (Some ep, None) ->
  net_DialContext api (dialTimeout m) (EIP ep) (Port ep) = returns (inl tcpConn) ->
  filterTCPConn api m tcpConn sched w = (returns None, w1) ->
  newMConnConnection api m tcpConn (PeerID ep) w1 = (returns (c, Some e), w2) ->
  Dial api m endpoint sched w
  = (returns (None, Some e),
     {| conns := ConnSet_Remove (conns w2) tcpConn; trace := trace w2 |}) /\
  socket_closed tcpConn (trace w2) = socket_closed tcpConn (trace w).
Proof.
  intros Hnorm Hdial Hf Hn. split.
  - unfold Dial. rewrite Hnorm. simpl. run_st. rewrite Hdial, Hf, Hn. done.
  - apply newMConnConnection_arms_deadline in Hn as (tr & Ht & Hnc).
    rewrite Ht, (filterTCPConn_trace _ _ _ _ _ _ Hf).
    rewrite socket_closed_app. simpl. rewrite (socket_closed_not_Close _ _ Hnc).
    by rewrite orb_false_r.
Qed.
End TransportFacts.

(** ** The accept loop and [Dial] *)

(** C1, at a failing input.  A second inbound socket from 10.0.0.2 is
    rejected by the duplicate-IP filter.  The goroutine closes the socket
    and reports the rejection, and then goes on, because the rejection
    branch has no [return]: it arms the handshake deadline on the closed
    socket, that is, it runs [newMConnConnection] on it, and closes and
    reports a second time. *)
Theorem accept_conn_handshakes_rejected_socket :
  filterTCPConn (example_api false) example_transport peer_bb prompt_filters
    world_with_bb
  = (returns (Some (duplicate_ip_rejection peer_bb)), world_with_bb) /\
  accept_conn (example_api false) example_transport peer_bb prompt world_with_bb
  = (returns tt,
     {| conns := {[ established_bb := [ip_bb] ]};
        trace := [ ev_Close peer_bb;
                   ev_chError (duplicate_ip_rejection peer_bb);
                   ev_SetDeadline peer_bb (Some defaultHandshakeTimeout);
                   ev_Close peer_bb;
                   ev_chError (closed_socket_rejection peer_bb) ] |}).
Proof. split; vm_compute; reflexivity. Qed.

(** C4, at a failing input.  "bb" is dialed as "dd": the filters pass and
    register the socket, the handshake fails on the identity.  [Dial]
    takes the socket out of the ConnectionSet and returns the error, and
    the socket is still open.  The accept loop, on a handshake that
    fails after the filters passed, deregisters and closes. *)
Theorem Dial_leaves_socket_open :
  (exists w',
     Dial (example_api false) example_transport endpoint_bb_as_dd
       prompt_filters empty_world
     = (returns (None, Some (mismatch_rejection peer_bb "bb" "dd")), w') /\
     conns w' = ∅ /\
     socket_closed peer_bb (trace w') = false /\
     trace w' = [ev_SetDeadline peer_bb (Some defaultHandshakeTimeout);
                 ev_MakeSecretConnection peer_bb;
                 ev_exchange_NodeInfo peer_bb]) /\
  (exists w',
     accept_conn (example_api false) example_transport peer_cc prompt
       empty_world = (returns tt, w') /\
     conns w' = ∅ /\
     socket_closed peer_cc (trace w') = true /\
     trace w' = [ev_SetDeadline peer_cc (Some defaultHandshakeTimeout);
                 ev_MakeSecretConnection peer_cc;
                 ev_exchange_NodeInfo peer_cc;
                 ev_Close peer_cc;
                 ev_chError (incompatible_rejection peer_cc "cc")]).
Proof.
  split; eexists; (split; [vm_compute; reflexivity|]); vm_compute; done.
Qed.

(** An inbound socket that passes the filters and the handshake is
    handed to [Accept] and stays registered. *)
Example example_accept :
  exists c w',
    accept_conn (example_api false) example_transport peer_bb prompt
      empty_world = (returns tt, w') /\
    conns w' = {[ peer_bb := [ip_bb] ]} /\
    last (trace w') = Some (ev_chAccept peer_bb (Some c)) /\
    socket_closed peer_bb (trace w') = false.
Proof.
  eexists _, _. split; [vm_compute; reflexivity|]. vm_compute. done.
Qed.

(** ** Connection filtering *)

(** C6 as stated does not hold: the timeout is not shared.  With a
    timeout of 5 s, a filter that answers after 3 s and one that
    answers after 6 s, the 5 s are over before the second filter has
    reported, and the filter step succeeds and registers the socket.
    And with a filter that never answers next to one that rejects the
    socket after 3 s, the step fails with that rejection, not with the
    timeout. *)
Lemma filter_timeout_is_not_shared :
  ((filterTimeout two_filter_transport < 6 * time_Second)%Z /\
   delays slow_filters !! 1 = Some (Some (6 * time_Second)%Z) /\
   filterTCPConn (example_api false) two_filter_transport peer_bb slow_filters
     empty_world
   = (returns None, {| conns := {[ peer_bb := [ip_bb] ]}; trace := [] |})) /\
  (delays stuck_filter !! 1 = Some None /\
   filterTCPConn (example_api false) duplicate_ip_transport peer_bb stuck_filter
     world_with_bb
   = (returns (Some (duplicate_ip_rejection peer_bb)), world_with_bb)).
Proof.
  split; (split; [done|]); [split; [done|]|]; vm_compute; reflexivity.
Qed.

Lemma length_insert_arrival a l :
  length (insert_arrival a l) = S (length l).
Proof.
  induction l as [|b l IH]; simpl; [done|].
  destruct (a.1 <=? b.1)%Z; simpl; by rewrite ?IH.
Qed.

Lemma Forall_insert_arrival (P : Z * option error -> Prop) a l :
  P a -> Forall P l -> Forall P (insert_arrival a l).
Proof.
  intros Ha. induction 1 as [|b l Hb Hl IH]; simpl.
  - by repeat constructor.
  - destruct (a.1 <=? b.1)%Z; by repeat constructor.
Qed.

(** Every result in [chErr] comes from a filter that reports. *)
Lemma arrivals_results (P : option error -> Prop) rs :
  Forall (fun r => is_Some r.1 -> P r.2) rs ->
  Forall (fun a => P a.2) (arrivals rs).
Proof.
  induction 1 as [|[d e] rs Hr Hrs IH]; simpl; [constructor|].
  destruct d as [d|]; [|done].
  apply Forall_insert_arrival; [|done]. simpl. by apply Hr.
Qed.

(** A filter that never reports leaves the channel short of a result. *)
Lemma arrivals_length rs :
  length (arrivals rs) <= length rs.
Proof.
  induction rs as [|[[d|] e] rs IH]; simpl; [lia| |lia].
  rewrite length_insert_arrival. lia.
Qed.

Lemma arrivals_short rs :
  (exists i r, rs !! i = Some r /\ r.1 = None) ->
  length (arrivals rs) < length rs.
Proof.
  induction rs as [|[d e] rs IH]; intros (i & r & Hi & Hr).
  - done.
  - destruct i as [|i]; simpl in Hi.
    + injection Hi as <-. simpl in Hr. subst d. simpl.
      pose proof (arrivals_length rs). lia.
    + simpl. assert (length (arrivals rs) < length rs) by (apply IH; eauto).
      destruct d; [rewrite length_insert_arrival|]; lia.
Qed.

(** A loop that is to take more results than will ever arrive, none of
    them an error, ends in the timeout. *)
Lemma await_filters_short tcpConn timeout tie n :
  forall now chErr,
  length chErr < n -> Forall (fun a => a.2 = None) chErr ->
  await_filters tcpConn timeout tie n now chErr = Some ErrFilterTimeout.
Proof.
  induction n as [|n IH]; intros now chErr Hlen Hnil; [lia|].
  simpl. destruct chErr as [|[t e] chErr]; [done|].
  apply Forall_cons in Hnil as [He Hnil]. simpl in He. subst e.
  case_match; [|done]. apply IH; [simpl in Hlen; lia|done].
Qed.

(** Results taken in time and without an error move the loop on to the
    time of the last of them. *)
Lemma await_filters_app tcpConn timeout tie pre :
  forall now n rest,
  await_filters tcpConn timeout tie (length pre) now pre = None ->
  await_filters tcpConn timeout tie (length pre + n) now (pre ++ rest)
  = await_filters tcpConn timeout tie n (last_taken now pre) rest.
Proof.
  induction pre as [|[t e] pre IH]; intros now n rest Hpre; [done|].
  simpl in *. case_match; [|done]. destruct e; [done|].
  by apply IH.
Qed.

Section FilterFacts.
Context (api : Collaborators).

(** C6, amended.  The filter step takes the results of the filters one
    after the other, and each wait for the next result races against a
    timeout of its own, of duration [filterTimeout] and started when
    that wait begins.  When such a timeout runs out before the next
    result arrives, the step fails with [ErrFilterTimeout], even if
    filters have succeeded before.  In particular, when one filter never
    produces a result and no filter that reports returns an error, the
    step fails with [ErrFilterTimeout].  In both cases nothing is
    registered. *)
Theorem filter_timeout_per_wait
    (m : mConnTransport) (tcpConn : net_Conn) (sched : filter_schedule)
    (w : world) (host port : string) (ip : IP) :
  ConnSet_Has (conns w) tcpConn = false ->
  net_SplitHostPort api (RemoteAddr tcpConn) = inl (host, port) ->
  net_ParseIP api host = Some ip ->
  (forall pre t r post,
     arrivals (filter_reports sched (conns w) tcpConn ip (connFilters m))
       = pre ++ (t, r) :: post ->
     await_filters tcpConn (filterTimeout m) (result_wins_tie sched)
       (length pre) 0 pre = None ->
     (Z.max (last_taken 0 pre) (last_taken 0 pre + filterTimeout m) < t)%Z ->
     filterTCPConn api m tcpConn sched w
       = (returns (Some ErrFilterTimeout), w)) /\
  ((exists i, i < length (connFilters m) /\ mjoin (delays sched !! i) = None) ->
   (forall i f, connFilters m !! i = Some f ->
                is_Some (mjoin (delays sched !! i)) ->
                f (conns w) tcpConn [ip] = None) ->
   filterTCPConn api m tcpConn sched w
     = (returns (Some ErrFilterTimeout), w)).
Proof.
  intros Hhas Hsplit Hparse.
  assert (forall e,
            await_filters tcpConn (filterTimeout m) (result_wins_tie sched)
              (length (connFilters m)) 0
              (arrivals (filter_reports sched (conns w) tcpConn ip (connFilters m)))
            = Some e ->
            filterTCPConn api m tcpConn sched w = (returns (Some e), w)) as Hstep.
  { intros e He. unfold filterTCPConn. run_st.
    rewrite Hhas, Hsplit, Hparse. by rewrite He. }
  pose proof (arrivals_length
                (filter_reports sched (conns w) tcpConn ip (connFilters m))) as Hlen.
  unfold filter_reports in Hlen at 2. rewrite length_imap in Hlen.
  split.
  - intros pre t r post Harr Hpre Hlate. apply Hstep.
    rewrite Harr in *. rewrite length_app in Hlen. simpl in Hlen.
    replace (length (connFilters m))
      with (length pre + S (length (connFilters m) - length pre - 1)) by lia.
    rewrite await_filters_app by done. simpl.
    replace (Z.max (last_taken 0 pre) t) with t by lia.
    rewrite (proj2 (Z.ltb_ge _ _)) by lia.
    by rewrite (proj2 (Z.eqb_neq _ _)) by lia.
  - intros (i & Hi & Hnever) Hnil. apply Hstep.
    apply await_filters_short.
    + eapply Nat.lt_le_trans; [apply arrivals_short|].
      * apply lookup_lt_is_Some_2 in Hi as [f Hf].
        exists i, (mjoin (delays sched !! i), f (conns w) tcpConn [ip]).
        split; [|done]. unfold filter_reports. by rewrite list_lookup_imap, Hf.
      * unfold filter_reports. by rewrite length_imap.
    + apply (arrivals_results (fun e => e = None)).
      apply Forall_lookup. intros j [d e] Hj Hd. simpl in *.
      unfold filter_reports in Hj. rewrite list_lookup_imap in Hj.
      destruct (connFilters m !! j) as [f|] eqn:Hf; [|done].
      injection Hj as <- <-. by eapply Hnil.
Qed.
End FilterFacts.

Lemma filter_timeout_per_wait_witness :
  (ConnSet_Has (conns empty_world) peer_bb = false /\
   net_SplitHostPort (example_api false) (RemoteAddr peer_bb)
     = inl ("10.0.0.2", "26656") /\
   net_ParseIP (example_api false) "10.0.0.2" = Some ip_bb /\
   (exists i, i < length (connFilters two_filter_transport) /\
              mjoin (delays stuck_filter !! i) = None) /\
   (Z.max (3 * time_Second) (3 * time_Second + defaultFilterTimeout)
    < 9 * time_Second)%Z) /\
  filterTCPConn (example_api false) two_filter_transport peer_bb stuck_filter
    empty_world = (returns (Some ErrFilterTimeout), empty_world) /\
  filterTCPConn (example_api false) two_filter_transport peer_bb late_filter
    empty_world = (returns (Some ErrFilterTimeout), empty_world).
Proof.
  assert (exists i, i < length (connFilters two_filter_transport) /\
                    mjoin (delays stuck_filter !! i) = None) as Hstuck.
  { exists 1. split; [simpl; lia|reflexivity]. }
  assert (Z.max (3 * time_Second) (3 * time_Second + defaultFilterTimeout)
          < 9 * time_Second)%Z as Hlate by (vm_compute; reflexivity).
  split; [split_and!; try reflexivity; done|].
  split.
  - pose proof (filter_timeout_per_wait (example_api false) two_filter_transport
                  peer_bb stuck_filter empty_world "10.0.0.2" "26656" ip_bb
                  eq_refl eq_refl eq_refl) as [_ Hnever].
    apply Hnever; [done|].
    intros i f Hf _. destruct i as [|[|i]]; simpl in Hf; by simplify_eq.
  - pose proof (filter_timeout_per_wait (example_api false) two_filter_transport
                  peer_bb late_filter empty_world "10.0.0.2" "26656" ip_bb
                  eq_refl eq_refl eq_refl) as [Hwait _].
    apply (Hwait [((3 * time_Second)%Z, None)] (9 * time_Second)%Z None []);
      [reflexivity | reflexivity | exact Hlate].
Defined.

(** A timeout of 5 s per wait: results after 3 s and 9 s are more than
    5 s apart and the step fails; after 3 s and 6 s it succeeds, 6 s
    after it began. *)
Example example_filter_waits :
  filterTCPConn (example_api false) two_filter_transport peer_bb late_filter
    empty_world
  = (returns (Some ErrFilterTimeout), empty_world) /\
  last_taken 0 (arrivals (filter_reports slow_filters ∅ peer_bb ip_bb
                            (connFilters two_filter_transport)))
  = (6 * time_Second)%Z.
Proof. split; vm_compute; reflexivity. Qed.

(** ** Endpoint normalization, in full *)

(** X1. [normalizeEndpoint] accepts an endpoint exactly when the
    validation helper accepts it, its protocol is empty or "mconn", it
    has an IP address and it has no path; the endpoint it leaves is the
    given one with the protocol set to "mconn" and a zero port replaced
    by 26657, every other field as it was. A nil endpoint is refused. *)
Theorem normalizeEndpoint_accepts_exactly
    (Validate : Endpoint -> option error) (e : Endpoint)
    (r : option Endpoint) :
  (normalizeEndpoint Validate (Some e) = (r, None) <->
   Validate e = None /\
   (EProtocol e = "" \/ EProtocol e = MConnProtocol) /\
   EIP e <> [] /\ Path e = "" /\
   r = Some {| PeerID := PeerID e; EProtocol := MConnProtocol; Path := "";
               EIP := EIP e;
               Port := if decide (Port e = 0%Z) then 26657%Z else Port e |}) /\
  (normalizeEndpoint Validate None).2 <> None.
Proof.
  split; [|done]. unfold normalizeEndpoint. destruct e as [pid proto path ip port].
  simpl. destruct (Validate _) as [err|] eqn:Hv.
  { split; [done|]. by intros [? _]. }
  unfold MConnProtocol, set_Protocol, set_Port, uint16_of. simpl. split.
  - repeat case_decide; simpl in *; intros [= <-]; subst; simpl in *;
      try done; split_and!; try done; auto; try by destruct ip.
    all: by apply dec_stable in H0; subst.
  - intros (_ & Hp & Hip & -> & ->).
    destruct Hp as [-> | ->]; simpl; destruct ip; try done; simpl;
      by repeat case_decide.
Qed.

(** ** The duplicate-IP filter and the filter step *)

Lemma ConnSet_HasIP_true (cs : ConnSet) (ip : IP) :
  ConnSet_HasIP cs ip = true <->
  exists c ips, cs !! c = Some ips /\ ip ∈ ips.
Proof.
  unfold ConnSet_HasIP. rewrite bool_decide_eq_true.
  unfold map_Exists. split; intros (c & ips & ?); by exists c, ips.
Qed.

(** X2. [ConnDuplicateIPFilter] lets a socket pass exactly when none of
    its resolved IPs is held by a registered connection (so always when
    there are no IPs). Otherwise it rejects it for the first IP that is
    held, with the socket in the rejection and the duplicate flag, and
    no other flag, set. *)
Theorem ConnDuplicateIPFilter_accepts_exactly
    (cs : ConnSet) (c : net_Conn) (ips : list IP) :
  (ConnDuplicateIPFilter cs c ips = None <->
   forall ip c' ips', ip ∈ ips -> cs !! c' = Some ips' -> ip ∉ ips') /\
  (forall e, ConnDuplicateIPFilter cs c ips = Some e ->
     exists free ip rest,
       ips = free ++ ip :: rest /\
       (forall ip', ip' ∈ free -> ConnSet_HasIP cs ip' = false) /\
       ConnSet_HasIP cs ip = true /\
       e = ErrRejected
             {| rej_addr := None; rej_conn := Some c; rej_id := "";
                isAuthFailure := false; isDuplicate := true;
                isFiltered := false; isIncompatible := false;
                isNodeInfoInvalid := false; isSelf := false |}
             (Some (fmt_Errorf "ip<%v> already connected" [arg_bytes ip]))).
Proof.
  unfold ConnDuplicateIPFilter. induction ips as [|ip ips [IH1 IH2]].
  - split; [|done]. split; [|done]. by intros _ ip c' ips' ?%elem_of_nil.
  - destruct (ConnSet_HasIP cs ip) eqn:Hip.
    + split.
      * split; [done|]. intros Hfree.
        apply ConnSet_HasIP_true in Hip as (c' & ips' & Hc & Hin).
        exfalso. eapply Hfree; [|done..]. by left.
      * intros e [= <-]. exists [], ip, ips. split_and!; try done.
        by intros ip' ?%elem_of_nil.
    + assert (forall c' ips', cs !! c' = Some ips' -> ip ∉ ips') as Hfree.
      { intros c' ips' Hc Hin.
        assert (ConnSet_HasIP cs ip = true) by (apply ConnSet_HasIP_true; eauto).
        congruence. }
      split.
      * rewrite IH1. split.
        -- intros H ip' c' ips' [->|Hin]%elem_of_cons Hc; [by eapply Hfree|].
           by eapply H.
        -- intros H ip' c' ips' Hin Hc. eapply H; [|done]. by right.
      * intros e He. destruct (IH2 e He) as (free & ip' & rest & -> & Hf & Hh & ->).
        exists (ip :: free), ip', rest. split_and!; try done.
        intros ip'' [->|Hin]%elem_of_cons; [done|]. by apply Hf.
Qed.

Lemma elem_of_insert_arrival x a l :
  x ∈ insert_arrival a l <-> x = a \/ x ∈ l.
Proof.
  induction l as [|b l IH]; simpl.
  - rewrite list_elem_of_singleton, elem_of_nil. tauto.
  - destruct (a.1 <=? b.1)%Z.
    + by rewrite elem_of_cons.
    + rewrite !elem_of_cons, IH. tauto.
Qed.

(** The results on [chErr] are those of the filters that report. *)
Lemma elem_of_arrivals d e rs :
  (d, e) ∈ arrivals rs <-> (Some d, e) ∈ rs.
Proof.
  induction rs as [|[[d'|] e'] rs IH]; simpl.
  - by rewrite !elem_of_nil.
  - rewrite elem_of_insert_arrival, elem_of_cons, IH.
    split; (intros [[= -> ->]|?]; [by left|by right]).
  - rewrite elem_of_cons, IH. split; [by right|]. by intros [[=]|?].
Qed.

(** The loop ends without an error only when it has taken a result for
    every iteration and each of them was nil. *)
Lemma await_filters_None tcpConn timeout tie n :
  forall now chErr,
  await_filters tcpConn timeout tie n now chErr = None ->
  n <= length chErr /\ Forall (fun a => a.2 = None) (take n chErr).
Proof.
  induction n as [|n IH]; intros now chErr Hok; simpl in *.
  - split; [lia|]. rewrite take_0. constructor.
  - destruct chErr as [|[t e] chErr]; [done|].
    case_match; [|done]. destruct e; [done|].
    apply IH in Hok as [Hlen Hall]. simpl. split; [lia|]. by constructor.
Qed.

(** When the loop of the filter step ends without an error, every filter
    has reported and has returned nil. *)
Lemma await_filters_all_accept tcpConn timeout tie sched cs ip
    (filters : list ConnFilterFunc) :
  await_filters tcpConn timeout tie (length filters) 0
    (arrivals (filter_reports sched cs tcpConn ip filters)) = None ->
  forall i f, filters !! i = Some f ->
              is_Some (mjoin (delays sched !! i)) /\ f cs tcpConn [ip] = None.
Proof.
  intros [Hlen Hall]%await_filters_None.
  set (rs := filter_reports sched cs tcpConn ip filters) in *.
  assert (length rs = length filters) as Hrs
    by (unfold rs, filter_reports; by rewrite length_imap).
  pose proof (arrivals_length rs) as Hle.
  rewrite take_ge in Hall by lia.
  intros i f Hf.
  assert (rs !! i = Some (mjoin (delays sched !! i), f cs tcpConn [ip])) as Hi.
  { unfold rs, filter_reports. rewrite list_lookup_imap.
    unfold ConnFilterFunc in *. by rewrite Hf. }
  destruct (mjoin (delays sched !! i)) as [d|] eqn:Hd.
  - split; [by eexists|].
    assert ((d, f cs tcpConn [ip]) ∈ arrivals rs) as Hin.
    { apply elem_of_arrivals. by eapply list_elem_of_lookup_2. }
    by apply (proj1 (Forall_forall _ _) Hall) in Hin.
  - exfalso. assert (length (arrivals rs) < length rs); [|lia].
    apply arrivals_short. by eexists i, _.
Qed.

Section FilterStepFacts.
Context (api : Collaborators).

(** X3. The filter step lets a socket pass only when the socket was not
    registered, its remote address gave an IP, and every configured
    filter reported and returned nil: no filter is skipped and no error
    of a filter is dropped. The socket is then registered with exactly
    that IP, and nothing else has changed. *)
Theorem filterTCPConn_passes_only_when_all_accept
    (m : mConnTransport) (tcpConn : net_Conn) (sched : filter_schedule)
    (w w' : world) :
  filterTCPConn api m tcpConn sched w = (returns None, w') ->
  ConnSet_Has (conns w) tcpConn = false /\
  exists host port ip,
    net_SplitHostPort api (RemoteAddr tcpConn) = inl (host, port) /\
    net_ParseIP api host = Some ip /\
    (forall i f, connFilters m !! i = Some f ->
                 is_Some (mjoin (delays sched !! i)) /\
                 f (conns w) tcpConn [ip] = None) /\
    w' = {| conns := <[tcpConn := [ip]]> (conns w); trace := trace w |} /\
    ConnSet_Has (conns w') tcpConn = true.
Proof.
  unfold filterTCPConn. run_st. intros Hrun.
  destruct (ConnSet_Has (conns w) tcpConn) eqn:Hhas; [done|].
  destruct (net_SplitHostPort api (RemoteAddr tcpConn)) as [[host port]|err]
    eqn:Hsplit; [|done].
  destruct (net_ParseIP api host) as [ip|] eqn:Hparse; [|done].
  destruct (await_filters _ _ _ _ _ _) as [err|] eqn:Hawait; [done|].
  injection Hrun as <-. split; [done|].
  exists host, port, ip. split_and!; try done.
  - exact (await_filters_all_accept _ _ _ _ _ _ _ Hawait).
  - unfold ConnSet_Has, ConnSet_Set. simpl. apply bool_decide_eq_true.
    rewrite lookup_insert_eq. by eexists.
Qed.


(** X5. A socket that has passed the filter step is refused as a
    duplicate when it is put through the filter step again, whatever the
    filters, their timing and the timeout are then, and before any of
    them is looked at. *)
Theorem filterTCPConn_twice
    (m : mConnTransport) (tcpConn : net_Conn) (sched : filter_schedule)
    (w w' : world) :
  filterTCPConn api m tcpConn sched w = (returns None, w') ->
  forall m2 sched2,
    filterTCPConn api m2 tcpConn sched2 w'
    = (returns (Some (ErrRejected
         {| rej_addr := None; rej_conn := Some tcpConn; rej_id := "";
            isAuthFailure := false; isDuplicate := true; isFiltered := false;
            isIncompatible := false; isNodeInfoInvalid := false;
            isSelf := false |} None)), w').
Proof.
  unfold filterTCPConn at 1. run_st. intros Hrun.
  destruct (ConnSet_Has (conns w) tcpConn); [done|].
  destruct (net_SplitHostPort api (RemoteAddr tcpConn)) as [[host port]|err];
    [|done].
  destruct (net_ParseIP api host) as [ip|]; [|done].
  destruct (await_filters _ _ _ _ _ _) as [err|]; [done|].
  injection Hrun as <-. intros m2 sched2. unfold filterTCPConn. run_st.
  unfold ConnSet_Has, ConnSet_Set. by rewrite lookup_insert_eq.
Qed.

(** X6. With the duplicate-IP filter among the filters, a socket whose
    remote IP is held by a registered connection never passes the filter
    step, whatever the other filters say and however the goroutines are
    timed: the step returns an error and registers nothing. *)
Theorem second_socket_from_registered_ip
    (m : mConnTransport) (tcpConn : net_Conn) (sched : filter_schedule)
    (w : world) (i : nat) (c0 : net_Conn) (ips0 : list IP)
    (host port : string) (ip : IP) :
  connFilters m !! i = Some ConnDuplicateIPFilter ->
  conns w !! c0 = Some ips0 -> ip ∈ ips0 ->
  net_SplitHostPort api (RemoteAddr tcpConn) = inl (host, port) ->
  net_ParseIP api host = Some ip ->
  exists e, filterTCPConn api m tcpConn sched w = (returns (Some e), w).
Proof.
  intros Hdup Hc0 Hip Hsplit Hparse. unfold filterTCPConn. run_st.
  destruct (ConnSet_Has (conns w) tcpConn); [by eexists|].
  rewrite Hsplit, Hparse.
  destruct (await_filters _ _ _ _ _ _) as [err|] eqn:Hawait; [by eexists|].
  exfalso.
  destruct (await_filters_all_accept _ _ _ _ _ _ _ Hawait i _ Hdup) as [_ Hacc].
  unfold ConnDuplicateIPFilter in Hacc.
  assert (ConnSet_HasIP (conns w) ip = true) as Hhas
    by (apply ConnSet_HasIP_true; eauto).
  by rewrite Hhas in Hacc.
Qed.

End FilterStepFacts.

Lemma filterTCPConn_passes_only_when_all_accept_witness :
  filterTCPConn (example_api false) example_transport peer_bb prompt_filters
    empty_world
  = (returns None, {| conns := {[ peer_bb := [ip_bb] ]}; trace := [] |}) /\
  ConnSet_Has (conns empty_world) peer_bb = false /\
  exists host port ip,
    net_SplitHostPort (example_api false) (RemoteAddr peer_bb)
      = inl (host, port) /\
    net_ParseIP (example_api false) host = Some ip /\
    (forall i f, connFilters example_transport !! i = Some f ->
                 is_Some (mjoin (delays prompt_filters !! i)) /\
                 f (conns empty_world) peer_bb [ip] = None) /\
    {| conns := {[ peer_bb := [ip_bb] ]}; trace := [] |}
    = {| conns := <[peer_bb := [ip]]> (conns empty_world);
         trace := trace empty_world |} /\
    ConnSet_Has {[ peer_bb := [ip_bb] ]} peer_bb = true.
Proof.
  assert (filterTCPConn (example_api false) example_transport peer_bb
            prompt_filters empty_world
          = (returns None, {| conns := {[ peer_bb := [ip_bb] ]}; trace := [] |}))
    as Hrun by (vm_compute; reflexivity).
  split; [exact Hrun|].
  exact (filterTCPConn_passes_only_when_all_accept (example_api false)
           example_transport peer_bb prompt_filters empty_world _ Hrun).
Defined.

Lemma filterTCPConn_twice_witness :
  filterTCPConn (example_api false) example_transport peer_bb prompt_filters
    empty_world
  = (returns None, {| conns := {[ peer_bb := [ip_bb] ]}; trace := [] |}) /\
  forall m2 sched2,
    filterTCPConn (example_api false) m2 peer_bb sched2
      {| conns := {[ peer_bb := [ip_bb] ]}; trace := [] |}
    = (returns (Some (ErrRejected
         {| rej_addr := None; rej_conn := Some peer_bb; rej_id := "";
            isAuthFailure := false; isDuplicate := true; isFiltered := false;
            isIncompatible := false; isNodeInfoInvalid := false;
            isSelf := false |} None)),
       {| conns := {[ peer_bb := [ip_bb] ]}; trace := [] |}).
Proof.
  assert (filterTCPConn (example_api false) example_transport peer_bb
            prompt_filters empty_world
          = (returns None, {| conns := {[ peer_bb := [ip_bb] ]}; trace := [] |}))
    as Hrun by (vm_compute; reflexivity).
  split; [exact Hrun|].
  exact (filterTCPConn_twice (example_api false) example_transport peer_bb
           prompt_filters empty_world _ Hrun).
Defined.

Lemma second_socket_from_registered_ip_witness :
  (connFilters example_transport !! 0 = Some ConnDuplicateIPFilter /\
   conns world_with_bb !! established_bb = Some [ip_bb] /\
   ip_bb ∈ [ip_bb] /\
   net_SplitHostPort (example_api false) (RemoteAddr peer_bb)
     = inl ("10.0.0.2", "26656") /\
   net_ParseIP (example_api false) "10.0.0.2" = Some ip_bb) /\
  exists e,
    filterTCPConn (example_api false) example_transport peer_bb stuck_filter
      world_with_bb = (returns (Some e), world_with_bb).
Proof.
  assert (ip_bb ∈ [ip_bb]) as Hin by (apply list_elem_of_singleton; reflexivity).
  split; [split_and!; try reflexivity; exact Hin|].
  exact (second_socket_from_registered_ip (example_api false) example_transport
           peer_bb stuck_filter world_with_bb 0 established_bb [ip_bb]
           "10.0.0.2" "26656" ip_bb eq_refl eq_refl Hin eq_refl eq_refl).
Defined.

(** ** Streams: what closing and writing do *)

Lemma closed_step_hands_nothing a σ σ' :
  wf σ -> chClose_closed σ = true -> perform a σ = Some σ' ->
  handed σ' = handed σ /\ chReceive_recvq σ' = [] /\ chReceive_sendq σ' = [].
Proof.
  intros Hwf Hc Hp. destruct (wf_closed _ Hwf Hc) as [Hrq Hsq].
  destruct a as [g p|g coin ok]; simpl in Hp.
  { case_decide; [|done]. by injection Hp as <-. }
  unfold step in Hp. rewrite Hrq, Hsq, Hc in Hp.
  destruct (running σ !! g) as [[v|recv closed|bz sent closed|k|k|chID bz k]|];
    try done; injection Hp as <-; simpl; try done.
  by rewrite (once_Do_close_done _ Hwf Hc).
Qed.

(** X7. Once a stream is closed it stays closed, no chunk is handed over
    any more and no goroutine is parked on it, whatever is called on it
    afterwards and in whatever order. *)
Theorem closed_stream_hands_nothing (sched : list action) (σ σ' : stream_state) :
  reachable σ -> chClose_closed σ = true -> run sched σ = Some σ' ->
  chClose_closed σ' = true /\ handed σ' = handed σ /\
  chReceive_recvq σ' = [] /\ chReceive_sendq σ' = [].
Proof.
  intros Hwf%reachable_wf. revert σ Hwf.
  induction sched as [|a sched IH]; intros σ Hwf Hc Hrun; simpl in Hrun.
  - injection Hrun as <-. by destruct (wf_closed _ Hwf Hc).
  - destruct (perform a σ) as [σ1|] eqn:Hp; [|done].
    destruct (closed_step_hands_nothing _ _ _ Hwf Hc Hp) as (Hh & _ & _).
    rewrite <- Hh. apply IH; [by eapply wf_perform| by eapply closed_stable|done].
Qed.

(** What other goroutines do leaves the code of a goroutine that is
    running, and not parked, as it is. *)
Lemma running_frame g c a σ σ' :
  wf σ -> running σ !! g = Some c -> ¬ action_of g a ->
  perform a σ = Some σ' -> running σ' !! g = Some c.
Proof.
  intros Hwf Hg Hna Hp.
  pose proof (running_not_parked _ _ _ Hwf Hg) as Hnp.
  destruct a as [g0 p|g0 coin ok]; simpl in Hp, Hna.
  { case_decide; [|done]. injection Hp as <-. simpl.
    by rewrite lookup_insert_ne. }
  unfold step in Hp.
  destruct (running σ !! g0) as [c0|] eqn:Hg0; [|done].
  destruct c0 as [v|recv closed|bz sent closed|k|k|chID bz k]; try done.
  - destruct (chReceive_sendq σ) as [|w q] eqn:Hq.
    + destruct (chClose_closed σ); injection Hp as <-; simpl.
      * by rewrite lookup_insert_ne.
      * by rewrite lookup_delete_ne.
    + destruct (chClose_closed σ && coin); injection Hp as <-; simpl.
      * by rewrite lookup_insert_ne.
      * rewrite lookup_insert_ne by done. rewrite lookup_insert_ne; [done|].
        intros Hw. apply Hnp. right. rewrite Hq, <- Hw. simpl.
        apply elem_of_cons. by left.
  - destruct (chReceive_recvq σ) as [|w q] eqn:Hq.
    + destruct (chClose_closed σ); injection Hp as <-; simpl.
      * by rewrite lookup_insert_ne.
      * by rewrite lookup_delete_ne.
    + destruct (chClose_closed σ && coin); injection Hp as <-; simpl.
      * by rewrite lookup_insert_ne.
      * rewrite lookup_insert_ne by done. rewrite lookup_insert_ne; [done|].
        intros Hw. apply Hnp. left. rewrite Hq, <- Hw. simpl.
        apply elem_of_cons. by left.
  - injection Hp as <-. simpl. by rewrite lookup_insert_ne.
  - injection Hp as <-. simpl. rewrite lookup_insert_ne by done.
    unfold once_Do_close. destruct (chCloseOnce_done σ); [done|]. simpl.
    rewrite wake_recv_lookup_ne by (intros ?; apply Hnp; by left).
    by rewrite wake_send_lookup_ne by (intros ?; apply Hnp; by right).
  - injection Hp as <-. simpl. by rewrite lookup_insert_ne.
Qed.

Lemma running_frame_run g c sched :
  forall σ σ',
  wf σ -> running σ !! g = Some c -> Forall (fun a => ¬ action_of g a) sched ->
  run sched σ = Some σ' -> running σ' !! g = Some c.
Proof.
  induction sched as [|a sched IH]; intros σ σ' Hwf Hg Hna Hrun; simpl in Hrun.
  - by injection Hrun as <-.
  - destruct (perform a σ) as [σ1|] eqn:Hp; [|done].
    apply Forall_cons in Hna as [Ha Hna].
    eapply IH; [by eapply wf_perform|by eapply running_frame|done..].
Qed.

(** X8. [Write] looks at the closed flag once, before it sends. On a
    stream that is open at that moment it goes on to [mConn.Send] with
    the channel id of the stream, and from then on its result is that of
    [Send] alone, whatever other goroutines do in between, closing the
    stream included: the length of the message when [Send] answers true,
    and 0 with an error when it answers false. [Write] never parks. *)
Theorem Write_checks_closed_once (s : mConnStream) (bz : bytes) (g : gid)
    (coin1 ok1 coin2 ok2 : bool) (others : list action)
    (σ σ' : stream_state) :
  reachable σ -> chClose_closed σ = false -> idle g σ ->
  Forall (fun a => ¬ action_of g a) others ->
  run (act_call g (Write s bz) :: act_step g coin1 ok1 :: others ++
       [act_step g coin2 ok2]) σ = Some σ' ->
  ¬ parked g σ' /\
  returned g σ' =
    Some (if ok2 then ret_int_err (Z.of_nat (length bz)) None bz
          else ret_int_err 0
                 (Some (fmt_Errorf "MConn send failed for stream 0x%x"
                          [arg_int (stream_id s)])) bz).
Proof.
  intros Hreach Hopen Hidle Hothers Hrun.
  pose proof (reachable_wf _ (reachable_run _ _ _ Hreach Hrun)) as Hwf'.
  simpl in Hrun. rewrite decide_True in Hrun by done.
  destruct (step g coin1 ok1 (call_method g (Write s bz) σ)) as [σ1|] eqn:Hs1;
    [|done].
  assert (wf σ1) as Hwf1.
  { eapply wf_step; [|exact Hs1]. apply wf_resume; [by apply reachable_wf|].
    by destruct Hidle. }
  assert (running σ1 !! g
          = Some (mConn_Send (stream_id s) bz (fun ok =>
              if negb ok then
                Return (ret_int_err 0
                  (Some (fmt_Errorf "MConn send failed for stream 0x%x"
                           [arg_int (stream_id s)])) bz)
              else Return (ret_int_err (Z.of_nat (length bz)) None bz))))
    as Hg1.
  { unfold step in Hs1. simpl in Hs1. rewrite lookup_insert_eq in Hs1.
    simpl in Hs1. rewrite Hopen in Hs1. injection Hs1 as <-. simpl.
    by rewrite lookup_insert_eq. }
  clear Hs1.
  destruct (run others σ1) as [σ2|] eqn:Hrun2.
  2:{ exfalso. revert Hrun. clear -Hrun2. revert σ1 Hrun2.
      induction others as [|a others IH]; intros σ1 Hrun2; simpl in *; [done|].
      destruct (perform a σ1); [|done]. by apply IH. }
  assert (run (others ++ [act_step g coin2 ok2]) σ1
          = step g coin2 ok2 σ2) as Hsplit.
  { clear -Hrun2. revert σ1 Hrun2.
    induction others as [|a others IH]; intros σ1 Hrun2; simpl in *.
    - injection Hrun2 as <-. by destruct (step g coin2 ok2 σ1).
    - destruct (perform a σ1); [|done]. by apply IH. }
  rewrite Hsplit in Hrun.
  pose proof (running_frame_run _ _ _ _ _ Hwf1 Hg1 Hothers Hrun2) as Hg2.
  unfold step in Hrun. rewrite Hg2 in Hrun. injection Hrun as <-.
  split.
  - intros Hp. apply (wf_parked _ Hwf') in Hp. simpl in Hp.
    by rewrite lookup_insert_eq in Hp.
  - unfold returned. simpl. rewrite lookup_insert_eq. by destruct ok2.
Qed.

(** X9. Closing a stream wakes every [receive] that is parked on it with
    the stream-closed error, and hands nothing over. On a closed stream
    a [receive] that has something to hand over (a payload, the marker,
    or both) returns that error at its first step, again without handing
    anything over. A [receive] with no payload and no end of message
    returns nil at once and touches no channel, on a closed stream as on
    an open one. *)
Theorem Close_unblocks_receive (s : mConnStream) (σ : stream_state) :
  reachable σ ->
  (forall g0 g bz sent coin ok σ',
     running σ !! g0 = Some (Close s) ->
     {| sw_g := g; sw_bz := bz; sw_sent := sent;
        sw_closed := Return (ret_err (Some (stream_closed_error s))) |}
       ∈ chReceive_sendq σ ->
     step g0 coin ok σ = Some σ' ->
     returned g σ' = Some (ret_err (Some (stream_closed_error s))) /\
     handed σ' = handed σ) /\
  (chClose_closed σ = true ->
   forall g bz eof coin ok,
     bz <> [] \/ eof = true ->
     running σ !! g = Some (receive s bz eof) ->
     exists σ', step g coin ok σ = Some σ' /\
                returned g σ' = Some (ret_err (Some (stream_closed_error s))) /\
                handed σ' = handed σ) /\
  receive s [] false = Return (ret_err None).
Proof.
  intros Hwf%reachable_wf. split_and!; [| |done].
  - intros g0 g bz sent coin ok σ' Hg0 Hin. unfold step. rewrite Hg0.
    intros [= <-]. simpl.
    assert (parked g σ) as Hp.
    { right. by apply (list_elem_of_fmap_2 sw_g) in Hin. }
    assert (g <> g0) as Hne.
    { intros ->. apply (wf_parked _ Hwf) in Hp. congruence. }
    unfold once_Do_close. destruct (chCloseOnce_done σ) eqn:Hd.
    { rewrite (wf_once _ Hwf) in Hd. destruct (wf_closed _ Hwf Hd) as [_ Hq].
      rewrite Hq in Hin. by apply elem_of_nil in Hin. }
    split; [|done]. unfold returned. simpl. rewrite lookup_insert_ne by done.
    pose proof (wf_nodup _ Hwf) as Hnd.
    apply NoDup_app in Hnd as (_ & Hdisj & Hnd).
    rewrite wake_recv_lookup_ne.
    + by rewrite (wake_send_lookup _ _ _ Hnd Hin).
    + intros Hr. apply (Hdisj _ Hr).
      by apply (list_elem_of_fmap_2 sw_g) in Hin.
  - intros Hc g bz eof coin ok Hsome Hg.
    destruct (wf_closed _ Hwf Hc) as [Hrq Hsq].
    unfold step. rewrite Hg. unfold receive.
    destruct (decide (0 < length bz)) as [Hlen|Hlen].
    + rewrite Hrq, Hc. eexists. split; [done|]. split; [|done].
      unfold returned. simpl. by rewrite lookup_insert_eq.
    + destruct Hsome as [Hbz| ->]; [destruct bz; [done|simpl in Hlen; lia]|].
      rewrite Hrq, Hc. eexists. split; [done|]. split; [|done].
      unfold returned. simpl. by rewrite lookup_insert_eq.
Qed.

Lemma copy_fits (target bz : bytes) :
  length bz <= length target ->
  copy target bz = bz ++ drop (length bz) target /\
  length (copy target bz) = length target.
Proof.
  intros Hlen. unfold copy. rewrite take_ge by lia. split; [done|].
  rewrite length_app, length_drop. lia.
Qed.

(** X10. A [Read] that is handed a chunk that fits its buffer returns
    the length of the chunk and no error; the chunk lies at the front of
    the buffer, the bytes of the buffer behind it are as they were and
    the buffer has kept its length. *)
Theorem Read_copies_chunk (s : mConnStream) (target bz : bytes) :
  length bz <= length target ->
  on_recv (Read s target) bz
    = Some (Return (ret_int_err (Z.of_nat (length bz)) None
                      (bz ++ drop (length bz) target))) /\
  length (bz ++ drop (length bz) target) = length target /\
  (forall g a σ σ',
     reachable σ -> reading g s target σ -> perform a σ = Some σ' ->
     received_by g (handed σ') = received_by g (handed σ) ++ [bz] ->
     returned g σ' = Some (ret_int_err (Z.of_nat (length bz)) None
                             (bz ++ drop (length bz) target))).
Proof.
  intros Hlen. destruct (copy_fits _ _ Hlen) as [Hcopy Hl].
  assert (on_recv (Read s target) bz
          = Some (Return (ret_int_err (Z.of_nat (length bz)) None
                            (bz ++ drop (length bz) target)))) as Hf.
  { simpl. rewrite decide_False by lia. by rewrite Hcopy. }
  split; [done|]. split; [by rewrite <- Hcopy|].
  intros g a σ σ' Hwf%reachable_wf Hrd Hp Hrecv.
  pose proof (reading_receives _ _ _ _ _ _ _ Hwf Hrd Hp Hrecv) as Hr.
  rewrite Hf in Hr. injection Hr as Hr. unfold returned. by rewrite Hr.
Qed.

Lemma closed_stream_hands_nothing_witness :
  (reachable example_closed /\ chClose_closed example_closed = true /\
   run example_after_close example_closed = Some example_used_after_close) /\
  chClose_closed example_used_after_close = true /\
  handed example_used_after_close = handed example_closed /\
  chReceive_recvq example_used_after_close = [] /\
  chReceive_sendq example_used_after_close = [].
Proof.
  split; [split_and!; [apply example_closed_reachable|reflexivity|reflexivity]|].
  apply (closed_stream_hands_nothing example_after_close);
    [apply example_closed_reachable|reflexivity|reflexivity].
Defined.

Lemma Write_checks_closed_once_witness :
  (reachable new_stream_state /\ chClose_closed new_stream_state = false /\
   idle 1 new_stream_state /\
   Forall (fun a => ¬ action_of 1 a) example_close_during_write /\
   run (act_call 1 (Write example_stream hello) :: act_step 1 false true ::
        example_close_during_write ++ [act_step 1 false true])
       new_stream_state = Some example_written /\
   chClose_closed example_written = true) /\
  ¬ parked 1 example_written /\
  returned 1 example_written =
    Some (ret_int_err (Z.of_nat (length hello)) None hello).
Proof.
  assert (Forall (fun a => ¬ action_of 1 a) example_close_during_write) as Hothers.
  { repeat constructor; simpl; lia. }
  split; [split_and!; [apply reachable_new|reflexivity|apply idle_new|exact Hothers
                      |reflexivity|reflexivity]|].
  apply (Write_checks_closed_once example_stream hello 1 false true false true
           example_close_during_write new_stream_state example_written);
    [apply reachable_new|reflexivity|apply idle_new|exact Hothers|reflexivity].
Defined.

Lemma example_parked_receive_reachable : reachable example_parked_receive.
Proof.
  apply (reachable_run
           [ act_call 0 (receive example_stream hello true);
             act_step 0 false true;
             act_call 2 (Close example_stream) ] new_stream_state);
    [apply reachable_new|].
  vm_compute. reflexivity.
Defined.

Lemma Close_unblocks_receive_witness :
  reachable example_parked_receive /\
  (forall g0 g bz sent coin ok σ',
     running example_parked_receive !! g0 = Some (Close example_stream) ->
     {| sw_g := g; sw_bz := bz; sw_sent := sent;
        sw_closed := Return (ret_err (Some (stream_closed_error example_stream))) |}
       ∈ chReceive_sendq example_parked_receive ->
     step g0 coin ok example_parked_receive = Some σ' ->
     returned g σ' = Some (ret_err (Some (stream_closed_error example_stream))) /\
     handed σ' = handed example_parked_receive) /\
  (chClose_closed example_parked_receive = true ->
   forall g bz eof coin ok,
     bz <> [] \/ eof = true ->
     running example_parked_receive !! g = Some (receive example_stream bz eof) ->
     exists σ', step g coin ok example_parked_receive = Some σ' /\
                returned g σ' = Some (ret_err (Some (stream_closed_error example_stream))) /\
                handed σ' = handed example_parked_receive) /\
  receive example_stream [] false = Return (ret_err None).
Proof.
  split; [apply example_parked_receive_reachable|].
  apply (Close_unblocks_receive example_stream example_parked_receive).
  apply example_parked_receive_reachable.
Defined.

Lemma Read_copies_chunk_witness :
  length hello <= length buffer8 /\
  on_recv (Read example_stream buffer8) hello
    = Some (Return (ret_int_err (Z.of_nat (length hello)) None
                      (hello ++ drop (length hello) buffer8))) /\
  length (hello ++ drop (length hello) buffer8) = length buffer8 /\
  (forall g a σ σ',
     reachable σ -> reading g example_stream buffer8 σ -> perform a σ = Some σ' ->
     received_by g (handed σ') = received_by g (handed σ) ++ [hello] ->
     returned g σ' = Some (ret_int_err (Z.of_nat (length hello)) None
                             (hello ++ drop (length hello) buffer8))).
Proof.
  split; [simpl; lia|].
  apply (Read_copies_chunk example_stream buffer8 hello). simpl; lia.
Defined.

(** ** The handshake, in full *)

Lemma newMConnStream_byte (tcpConn : net_Conn) (x : Z) :
  newMConnStream tcpConn (uint16_of (byte_of x))
  = (Some {| connection := tcpConn; stream_id := byte_of x |}, None).
Proof.
  unfold newMConnStream, uint16_of, byte_of, math_MaxUint8.
  pose proof (Z.mod_pos_bound x 256 ltac:(lia)) as Hb.
  rewrite (Z.mod_small (x mod 256) 65536) by lia.
  rewrite (Z.mod_small (x mod 256) 65536) by lia.
  rewrite decide_False by lia.
  by rewrite (Z.mod_small (x mod 256) 256) by lia.
Qed.

(** The loop over the channel descriptors cannot fail: a channel id is a
    byte, so [newMConnStream] never sees an id above 255.  It leaves one
    stream under the id of every descriptor and everything else of the
    connection as it was. *)
Lemma make_streams_runs (tcpConn : net_Conn) (descs : list ChannelDescriptor)
    (c : mConnConnection) (w : world) :
  exists c',
    make_streams tcpConn descs ({| conn := Some c; err := None |}, w)
    = (returns true, ({| conn := Some c'; err := None |}, w)) /\
    logger c' = logger c /\ secretConn c' = secretConn c /\
    mConn c' = mConn c /\ nodeInfo c' = nodeInfo c /\
    forall k,
      streams c' !! k =
        if decide (k ∈ (fun d => byte_of (chDesc_ID d)) <$> descs)
        then Some (Some {| connection := tcpConn; stream_id := k |})
        else streams c !! k.
Proof.
  revert c. induction descs as [|d descs IH]; intros c.
  - exists c. by split_and!.
  - simpl. rewrite newMConnStream_byte. run_st.
    destruct (IH (set_stream (byte_of (chDesc_ID d))
                    (Some {| connection := tcpConn;
                             stream_id := byte_of (chDesc_ID d) |}) c))
      as (c' & Hrun & Hl & Hs & Hm & Hn & Hst).
    exists c'. split_and!; try done. intros k. rewrite Hst. simpl.
    destruct (decide (k ∈ _ <$> descs)) as [Hin|Hnin].
    + rewrite decide_True; [done|]. apply elem_of_cons. by right.
    + destruct (decide (k = byte_of (chDesc_ID d))) as [->|Hne].
      * rewrite lookup_insert_eq. rewrite decide_True; [done|].
        apply elem_of_cons. by left.
      * rewrite lookup_insert_ne by done. rewrite decide_False; [done|].
        intros [?|?]%elem_of_cons; done.
Qed.

Section HandshakeInFull.
Context (api : Collaborators).

Lemma start_mconn_inv transport tcpConn c0 e0 w sc f' w' :
  secretConn c0 = Some sc ->
  start_mconn api transport tcpConn ({| conn := Some c0; err := e0 |}, w)
    = (returns tt, (f', w')) ->
  err f' = None ->
  exists mc addr c',
    conn_SetDeadline api (socket_closed tcpConn (trace w)) tcpConn None
      = returns None /\
    tmconn_NewMConnectionWithConfig api sc (channelDescs transport) = returns mc /\
    TCPAddr_of api (RemoteAddr (sc_conn sc)) = returns addr /\
    mConn_Start api mc = returns None /\
    conn f' = Some c' /\
    logger c' = Some (RemoteAddr tcpConn) /\ secretConn c' = Some sc /\
    mConn c' = Some mc /\ nodeInfo c' = nodeInfo c0 /\
    (forall k,
       streams c' !! k =
         if decide (k ∈ (fun d => byte_of (chDesc_ID d)) <$> channelDescs transport)
         then Some (Some {| connection := tcpConn; stream_id := k |})
         else streams c0 !! k) /\
    w' = {| conns := conns w;
            trace := trace w ++ [ev_SetDeadline tcpConn None;
                                 ev_NewMConnection tcpConn;
                                 ev_mConn_Start tcpConn] |}.
Proof.
  intros Hsc. unfold start_mconn. run_st.
  destruct (conn_SetDeadline api _ tcpConn None) as [[e|]|p|p] eqn:Hd; run_st;
    [by intros [= <- <-]| |done|done].
  match goal with
  | |- context [make_streams ?t ?d (?f, ?w0)] =>
    destruct (make_streams_runs t d c0 w0) as (c1 & Hrun & Hl & Hs & Hm & Hn & Hst)
  end.
  rewrite Hrun. run_st. rewrite Hs, Hsc.
  destruct (tmconn_NewMConnectionWithConfig api sc _) as [mc|p|p] eqn:Hmc;
    run_st; [|done|done].
  unfold RemoteEndpoint. simpl. rewrite Hs, Hsc.
  destruct (TCPAddr_of api _) as [[ip port]|p|p] eqn:Ha; run_st; [|done|done].
  destruct (mConn_Start api mc) as [[e|]|p|p] eqn:Hst'; run_st;
    intros [= <- <-]; [done|]. intros _.
  eexists mc, (ip, port), _. split_and!; try done.
  - simpl. congruence.
  - by rewrite <- !app_assoc.
Qed.


(** The identity checks let through exactly the peers with the expected
    key, another id than this node's and a compatible node info. *)
Lemma verify_peer_inv transport tcpConn (expectPeerID : ID) c0 e0 w sc f' w' :
  secretConn c0 = Some sc ->
  verify_peer api transport tcpConn expectPeerID
    ({| conn := Some c0; err := e0 |}, w) = (returns tt, (f', w')) ->
  err f' = None ->
  (expectPeerID = "" \/
   PubKeyToID api (RemotePubKey sc) = returns expectPeerID) /\
  NodeInfo_ID (t_nodeInfo transport) <> NodeInfo_ID (nodeInfo c0) /\
  NodeInfo_CompatibleWith api (t_nodeInfo transport) (nodeInfo c0)
    = returns None /\
  start_mconn api transport tcpConn ({| conn := Some c0; err := None |}, w)
    = (returns tt, (f', w')).
Proof.
  intros Hsc. unfold verify_peer.
  destruct (decide (expectPeerID <> "")) as [Hne|Heq].
  - run_st. unfold conn_PubKey. rewrite Hsc.
    destruct (PubKeyToID api (RemotePubKey sc)) as [peerID|p|p] eqn:Hid;
      run_st; [|done|done].
    destruct (decide (expectPeerID <> peerID)) as [Hmis|Hsame]; run_st.
    { by intros [= <- <-]. }
    apply dec_stable in Hsame as <-.
    destruct (decide (_ = _)) as [Hself|Hself]; run_st.
    { rewrite Hsc. destruct (NewNetAddress api _ _); run_st;
        by intros [= <- <-]. }
    destruct (NodeInfo_CompatibleWith api _ _) as [[e|]|p|p] eqn:Hc; run_st;
      [by intros [= <- <-]| |done|done].
    intros Hrun _. split_and!; try done. by right.
  - apply dec_stable in Heq as ->. run_st.
    destruct (decide (_ = _)) as [Hself|Hself]; run_st.
    { rewrite Hsc. destruct (NewNetAddress api _ _); run_st;
        by intros [= <- <-]. }
    destruct (NodeInfo_CompatibleWith api _ _) as [[e|]|p|p] eqn:Hc; run_st;
      [by intros [= <- <-]| |done|done].
    intros Hrun _. split_and!; try done. by left.
Qed.

Lemma verify_peer_passes transport tcpConn (expectPeerID : ID) c0 e0 w sc :
  secretConn c0 = Some sc ->
  expectPeerID = "" \/
  PubKeyToID api (RemotePubKey sc) = returns expectPeerID ->
  NodeInfo_ID (t_nodeInfo transport) <> NodeInfo_ID (nodeInfo c0) ->
  NodeInfo_CompatibleWith api (t_nodeInfo transport) (nodeInfo c0)
    = returns None ->
  verify_peer api transport tcpConn expectPeerID
    ({| conn := Some c0; err := e0 |}, w)
  = start_mconn api transport tcpConn ({| conn := Some c0; err := None |}, w).
Proof.
  intros Hsc Hexp Hself Hc. unfold verify_peer.
  destruct (decide (expectPeerID <> "")) as [Hne|Heq].
  - destruct Hexp as [->|Hid]; [done|].
    run_st. unfold conn_PubKey. rewrite Hsc, Hid. run_st.
    rewrite decide_False by (by intros ?). run_st.
    rewrite decide_False by done. rewrite Hc. by run_st.
  - run_st. rewrite decide_False by done. rewrite Hc. by run_st.
Qed.

(** The first half of the handshake got through exactly when the
    deadline could be armed, the secure channel was made, both node-info
    transfers succeeded and the peer's node info is well formed. *)
Lemma newMConnConnection_body_inv transport tcpConn expectPeerID w f' w' :
  newMConnConnection_body api transport tcpConn expectPeerID
    ({| conn := None; err := None |}, w) = (returns tt, (f', w')) ->
  err f' = None ->
  exists sc pb info,
    conn_SetDeadline api (socket_closed tcpConn (trace w)) tcpConn
      (Some (handshakeTimeout transport)) = returns None /\
    tmconn_MakeSecretConnection api tcpConn (privKey transport)
      = returns (inl sc) /\
    WriteMsg api sc (t_nodeInfo transport) = returns None /\
    ReadMsg api sc = returns (pb, None) /\
    DefaultNodeInfoFromProto api pb = returns (info, None) /\
    NodeInfo_Validate api info = returns None /\
    verify_peer api transport tcpConn expectPeerID
      ({| conn := Some {| logger := None; secretConn := Some sc; mConn := None;
                          streams := ∅; nodeInfo := info |};
          err := None |},
       {| conns := conns w;
          trace := trace w ++
            [ev_SetDeadline tcpConn (Some (handshakeTimeout transport));
             ev_MakeSecretConnection tcpConn;
             ev_exchange_NodeInfo (sc_conn sc)] |})
    = (returns tt, (f', w')).
Proof.
  unfold newMConnConnection_body. run_st.
  destruct (conn_SetDeadline api _ tcpConn (Some _)) as [[e|]|p|p] eqn:Hd; run_st;
    [by intros [= <- <-]| |done|done].
  destruct (tmconn_MakeSecretConnection api tcpConn _) as [[sc|e]|p|p] eqn:Hs;
    run_st; [|by intros [= <- <-]|done|done].
  unfold handshake. run_st.
  destruct (WriteMsg api sc _) as [[ew|]|pw|pw] eqn:Hw;
    destruct (ReadMsg api sc) as [[pb [er|]]|pr|pr] eqn:Hr;
    destruct (write_reports_first api sc); cbn [go]; run_st;
    try done; try by intros [= <- <-].
  all: destruct (DefaultNodeInfoFromProto api pb) as [[info [e|]]|p|p] eqn:Hp;
    run_st; [by intros [= <- <-]| |done|done].
  all: destruct (NodeInfo_Validate api info) as [[e|]|p|p] eqn:Hv; run_st;
    [by intros [= <- <-]| |done|done].
  all: rewrite <- !app_assoc; simpl; intros Hrun _; by exists sc, pb, info.
Qed.



(** What a handshake that ends without an error has done, and what it
    returns. *)
Lemma newMConnConnection_succeeds transport tcpConn (expectPeerID : ID) w c w' :
  newMConnConnection api transport tcpConn expectPeerID w
    = (returns (c, None), w') ->
  exists sc pb info mc addr conn,
    conn_SetDeadline api (socket_closed tcpConn (trace w)) tcpConn
      (Some (handshakeTimeout transport)) = returns None /\
    tmconn_MakeSecretConnection api tcpConn (privKey transport)
      = returns (inl sc) /\
    WriteMsg api sc (t_nodeInfo transport) = returns None /\
    ReadMsg api sc = returns (pb, None) /\
    DefaultNodeInfoFromProto api pb = returns (info, None) /\
    NodeInfo_Validate api info = returns None /\
    (expectPeerID = "" \/
     PubKeyToID api (RemotePubKey sc) = returns expectPeerID) /\
    NodeInfo_ID (t_nodeInfo transport) <> NodeInfo_ID info /\
    NodeInfo_CompatibleWith api (t_nodeInfo transport) info = returns None /\
    conn_SetDeadline api (socket_closed tcpConn (trace w)) tcpConn None
      = returns None /\
    tmconn_NewMConnectionWithConfig api sc (channelDescs transport)
      = returns mc /\
    TCPAddr_of api (RemoteAddr (sc_conn sc)) = returns addr /\
    mConn_Start api mc = returns None /\
    c = Some conn /\
    logger conn = Some (RemoteAddr tcpConn) /\ secretConn conn = Some sc /\
    mConn conn = Some mc /\ nodeInfo conn = info /\
    (forall k,
       streams conn !! k =
         if decide (k ∈ (fun d => byte_of (chDesc_ID d)) <$> channelDescs transport)
         then Some (Some {| connection := tcpConn; stream_id := k |})
         else None) /\
    w' = {| conns := conns w;
            trace := trace w ++
              [ev_SetDeadline tcpConn (Some (handshakeTimeout transport));
               ev_MakeSecretConnection tcpConn;
               ev_exchange_NodeInfo (sc_conn sc);
               ev_SetDeadline tcpConn None;
               ev_NewMConnection tcpConn;
               ev_mConn_Start tcpConn] |}.
Proof.
  unfold newMConnConnection.
  destruct (newMConnConnection_body api transport tcpConn expectPeerID _)
    as [[[]|p|p] [f1 w1]] eqn:Hbody; [|done|done].
  intros [= <- He <-].
  apply newMConnConnection_body_inv in Hbody
    as (sc & pb & info & Hd & Hs & Hw & Hr & Hp & Hv & Hver); [|done].
  apply (verify_peer_inv _ _ _ _ _ _ sc) in Hver
    as (Hexp & Hself & Hc & Hstart); [|done..].
  apply (start_mconn_inv _ _ _ _ _ sc) in Hstart
    as (mc & addr & c' & Hd' & Hmc & Ha & Hst & Hconn & Hl & Hsc & Hm & Hn &
        Hstr & ->); [|done..].
  simpl in *. exists sc, pb, info, mc, addr, c'.
  rewrite socket_closed_app in Hd'. simpl in Hd'. rewrite orb_false_r in Hd'.
  split_and!; try done.
  by rewrite <- !app_assoc.
Qed.

End HandshakeInFull.

(** ** What the handshake leaves alone *)

Section KeepsConns.
Context {S : Type} (π : S -> world).

Lemma keeps_conns_ret {A} (a : A) : keeps_conns π (mret a).
Proof. by intros s r s' [= <- <-]. Qed.

Lemma keeps_conns_ext {A} (c : call A) : keeps_conns π (ext c).
Proof. by intros s r s' [= <- <-]. Qed.

Lemma keeps_conns_nil_dereference {A} : keeps_conns π (@nil_dereference S A).
Proof. apply keeps_conns_ext. Qed.

Lemma keeps_conns_bind {A B} (m : ST S A) (f : A -> ST S B) :
  keeps_conns π m -> (forall a, keeps_conns π (f a)) -> keeps_conns π (m ≫= f).
Proof.
  intros Hm Hf s r s' Hrun. unfold mbind, ST_bind in Hrun.
  destruct (m s) as [[a|p|p] s1] eqn:Hms.
  - rewrite (Hf a _ _ _ Hrun). by apply (Hm _ _ _ Hms).
  - injection Hrun as <- <-. by apply (Hm _ _ _ Hms).
  - injection Hrun as <- <-. by apply (Hm _ _ _ Hms).
Qed.
End KeepsConns.

Lemma keeps_conns_emit e : keeps_conns id (emit e).
Proof. by intros s r s' [= <- <-]. Qed.

Lemma keeps_conns_is_closed c : keeps_conns id (is_closed c).
Proof. by intros s r s' [= <- <-]. Qed.

Lemma keeps_conns_in_world {A} (m : ST world A) :
  keeps_conns id m -> keeps_conns snd (in_world m).
Proof.
  intros Hm [f w] r [f' w'] Hrun. unfold in_world in Hrun. simpl in Hrun.
  destruct (m w) as [r1 w1] eqn:Hmw. injection Hrun as <- <- <-.
  by apply (Hm _ _ _ Hmw).
Qed.

Lemma keeps_conns_get_err : keeps_conns snd get_err.
Proof. by intros s r s' [= <- <-]. Qed.

Lemma keeps_conns_set_err e : keeps_conns snd (set_err e).
Proof. by intros s r s' [= <- <-]. Qed.

Lemma keeps_conns_set_conn c : keeps_conns snd (set_conn c).
Proof. by intros s r s' [= <- <-]. Qed.

Lemma keeps_conns_get_conn : keeps_conns snd get_conn.
Proof.
  intros s r s' Hrun. unfold get_conn in Hrun.
  by destruct (conn s.1); injection Hrun as <- <-.
Qed.

Lemma keeps_conns_update_conn f : keeps_conns snd (update_conn f).
Proof.
  apply keeps_conns_bind; [apply keeps_conns_get_conn|].
  intros c. apply keeps_conns_set_conn.
Qed.

Ltac keeps_conns_step :=
  first
    [ apply keeps_conns_ret | apply keeps_conns_ext
    | apply keeps_conns_nil_dereference
    | apply keeps_conns_is_closed
    | apply keeps_conns_get_err | apply keeps_conns_set_err
    | apply keeps_conns_set_conn
    | apply keeps_conns_get_conn | apply keeps_conns_update_conn
    | apply keeps_conns_emit
    | apply keeps_conns_in_world
    | apply keeps_conns_bind; [|intros ?]
    | match goal with
      | |- keeps_conns _ (match ?x with _ => _ end) => destruct x
      | |- keeps_conns _ (if ?x then _ else _) => destruct x
      | |- keeps_conns _ (let '(_, _) := ?x in _) => destruct x
      end ].

Lemma normalizeEndpoint_keeps_PeerID Validate e r :
  normalizeEndpoint Validate (Some e) = (r, None) ->
  exists ep, r = Some ep /\ PeerID ep = PeerID e.
Proof.
  unfold normalizeEndpoint. destruct (Validate e); [done|].
  repeat case_decide; intros [= <-]; by eexists.
Qed.

Section HandshakeKeepsConns.
Context (api : Collaborators).

Lemma make_streams_keeps_conns tcpConn descs :
  keeps_conns snd (make_streams tcpConn descs).
Proof.
  induction descs as [|d descs IH]; simpl; [apply keeps_conns_ret|].
  destruct (newMConnStream _ _) as [s e].
  repeat first [apply IH | keeps_conns_step].
Qed.

(** The handshake never touches the ConnectionSet, however it ends. *)
Lemma newMConnConnection_keeps_conns transport tcpConn expectPeerID :
  keeps_conns id (newMConnConnection api transport tcpConn expectPeerID).
Proof.
  assert (keeps_conns snd
            (newMConnConnection_body api transport tcpConn expectPeerID)) as Hb.
  { unfold newMConnConnection_body, verify_peer, start_mconn, handshake.
    repeat first [apply make_streams_keeps_conns | keeps_conns_step]. }
  intros w r w'. unfold newMConnConnection.
  destruct (newMConnConnection_body _ _ _ _ _) as [r1 [f1 w1]] eqn:Hrun.
  apply Hb in Hrun. simpl in Hrun.
  by destruct r1; intros [= <- <-].
Qed.

(** The filter step never panics.  When it returns an error it has
    changed nothing; when it lets the socket pass, the socket was not
    registered and now is, under the IP of its remote address. *)
Lemma filterTCPConn_result m tcpConn sched w r w' :
  filterTCPConn api m tcpConn sched w = (r, w') ->
  (exists e, r = returns (Some e) /\ w' = w) \/
  (r = returns None /\ conns w !! tcpConn = None /\
   exists host port ip,
     net_SplitHostPort api (RemoteAddr tcpConn) = inl (host, port) /\
     net_ParseIP api host = Some ip /\
     w' = {| conns := <[tcpConn := [ip]]> (conns w); trace := trace w |}).
Proof.
  unfold filterTCPConn. run_st.
  destruct (ConnSet_Has (conns w) tcpConn) eqn:Hhas;
    [intros [= <- <-]; left; by eexists|].
  destruct (net_SplitHostPort api (RemoteAddr tcpConn)) as [[host port]|err]
    eqn:Hsplit; [|intros [= <- <-]; left; by eexists].
  destruct (net_ParseIP api host) as [ip|] eqn:Hparse;
    [|intros [= <- <-]; left; by eexists].
  destruct (await_filters _ _ _ _ _ _) as [err|];
    intros [= <- <-]; [left; by eexists|].
  right. split; [done|]. split.
  - unfold ConnSet_Has in Hhas. apply bool_decide_eq_false in Hhas.
    by apply eq_None_not_Some.
  - by exists host, port, ip.
Qed.

(** X12. When [Dial] returns, it returns either an error and no
    connection, and then the ConnectionSet is exactly as it was before
    the call; or a connection and no error, and then the endpoint was
    accepted by [normalizeEndpoint], the socket is the one dialed at the
    normalized address, it was not registered before and is registered
    now under the IP of its remote address, and the connection is the
    result of a handshake on this socket that expected the peer id of
    the endpoint and ended without an error. *)
Theorem Dial_connection_or_error
    (m : mConnTransport) (endpoint : Endpoint) (sched : filter_schedule)
    (w w' : world) (c : option mConnConnection) (e : option error) :
  Dial api m endpoint sched w = (returns (c, e), w') ->
  (c = None /\ e <> None /\ conns w' = conns w) \/
  (e = None /\
   exists ep tcpConn host port ip conn w1,
     normalizeEndpoint (Endpoint_Validate api) (Some endpoint)
       = (Some ep, None) /\
     net_DialContext api (dialTimeout m) (EIP ep) (Port ep)
       = returns (inl tcpConn) /\
     conns w !! tcpConn = None /\
     net_SplitHostPort api (RemoteAddr tcpConn) = inl (host, port) /\
     net_ParseIP api host = Some ip /\
     conns w' = <[tcpConn := [ip]]> (conns w) /\
     c = Some conn /\
     newMConnConnection api m tcpConn (PeerID endpoint) w1
       = (returns (Some conn, None), w')).
Proof.
  unfold Dial.
  destruct (normalizeEndpoint _ _) as [normalized err0] eqn:Hnorm.
  destruct err0 as [err0|]; [intros [= <- <- <-]; by left|].
  pose proof Hnorm as Hacc.
  apply normalizeEndpoint_keeps_PeerID in Hacc as (ep & -> & Hid).
  simpl. run_st.
  destruct (net_DialContext api _ _ _) as [[tcpConn|err1]|p|p] eqn:Hdial;
    [| intros [= <- <- <-]; by left |done|done].
  destruct (filterTCPConn api m tcpConn sched w) as [rf w1] eqn:Hf.
  destruct (filterTCPConn_result _ _ _ _ _ _ Hf)
    as [(e1 & -> & ->)|(-> & Hfresh & host & port & ip & Hsplit & Hparse & ->)].
  { intros [= <- <- <-]. by left. }
  destruct (newMConnConnection api m tcpConn (PeerID ep) _) as [rn w2] eqn:Hn.
  pose proof (newMConnConnection_keeps_conns _ _ _ _ _ _ Hn) as Hkeep.
  simpl in Hkeep.
  destruct rn as [[c1 [e1|]]|p|p]; simpl; [| |done|done].
  - intros [= <- <- <-]. left. split_and!; try done. simpl.
    unfold ConnSet_Remove. rewrite Hkeep. by rewrite delete_insert_id.
  - intros [= <- <- <-]. right. split; [done|].
    destruct (newMConnConnection_succeeds api _ _ _ _ _ _ Hn)
      as (sc & pb & info & mc & addr & conn & H).
    destruct H as (_ & _ & _ & _ & _ & _ & _ & _ & _ & _ & _ & _ & _ & -> & _).
    exists ep, tcpConn, host, port, ip, conn. eexists.
    split_and!; try done. by rewrite Hid in Hn.
Qed.

End HandshakeKeepsConns.

Lemma appends_bind_post {S A B} (P : event -> Prop) (π : S -> world)
    (Q : A -> Prop) (m : ST S A) (f : A -> ST S B) :
  appends P π m -> (forall s a s', m s = (returns a, s') -> Q a) ->
  (forall a, Q a -> appends P π (f a)) -> appends P π (m ≫= f).
Proof.
  intros Hm HQ Hf s r s' Hrun. unfold mbind, ST_bind in Hrun.
  destruct (m s) as [[a|p|p] s1] eqn:Hms.
  - destruct (Hm _ _ _ Hms) as (tr1 & Ht1 & Hp1).
    destruct (Hf a (HQ _ _ _ Hms) _ _ _ Hrun) as (tr2 & Ht2 & Hp2).
    exists (tr1 ++ tr2). rewrite Ht2, Ht1, <- app_assoc.
    split; [done|]. by apply Forall_app.
  - injection Hrun as <- <-. by apply (Hm _ _ _ Hms).
  - injection Hrun as <- <-. by apply (Hm _ _ _ Hms).
Qed.

Section HandshakeEvents.
Context (api : Collaborators).

Lemma make_streams_of_handshake tcpConn descs :
  appends of_handshake snd (make_streams tcpConn descs).
Proof.
  induction descs as [|d descs IH]; simpl; [apply appends_ret|].
  destruct (newMConnStream _ _) as [s e].
  repeat first [apply IH | appends_step].
Qed.

Lemma newMConnConnection_of_handshake transport tcpConn expectPeerID :
  appends of_handshake id (newMConnConnection api transport tcpConn expectPeerID).
Proof.
  assert (appends of_handshake snd
            (newMConnConnection_body api transport tcpConn expectPeerID)) as Hb.
  { unfold newMConnConnection_body, verify_peer, start_mconn, handshake.
    repeat first [apply make_streams_of_handshake | appends_step]. }
  intros w r w'. unfold newMConnConnection.
  destruct (newMConnConnection_body _ _ _ _ _) as [r1 [f1 w1]] eqn:Hrun.
  apply Hb in Hrun. simpl in Hrun.
  by destruct r1; intros [= <- <-].
Qed.

(** X13. Whatever [newMConnConnection] has done when it ends, be it with
    a connection, with an error, with a recovered panic, or because a
    panic in a transfer goroutine has ended the program, it has only
    added to the trace, and only what belongs to a handshake: it has
    set deadlines, made the secure channel, exchanged node infos, built
    and started the multiplexer.  It has not closed the socket, not
    closed or stopped anything it has built, and not touched the
    ConnectionSet: cleaning up after a failed handshake is left to the
    caller. *)
Theorem newMConnConnection_only_handshakes
    (transport : mConnTransport) (tcpConn : net_Conn) (expectPeerID : ID)
    (w : world) :
  let w' := (newMConnConnection api transport tcpConn expectPeerID w).2 in
  conns w' = conns w /\
  (exists tr, trace w' = trace w ++ tr /\ Forall of_handshake tr) /\
  socket_closed tcpConn (trace w') = socket_closed tcpConn (trace w).
Proof.
  destruct (newMConnConnection api transport tcpConn expectPeerID w)
    as [r w'] eqn:Hrun.
  pose proof (newMConnConnection_keeps_conns _ _ _ _ _ _ _ Hrun) as Hk.
  pose proof (newMConnConnection_of_handshake _ _ _ _ _ _ Hrun)
    as (tr & Ht & Hall).
  simpl in *. split_and!; [done|by exists tr|].
  rewrite Ht, socket_closed_app.
  assert (socket_closed tcpConn tr = false) as ->; [|by rewrite orb_false_r].
  apply socket_closed_not_Close. eapply Forall_impl; [done|]. by intros [].
Qed.

Lemma filterTCPConn_appends P m tcpConn sched :
  appends P id (filterTCPConn api m tcpConn sched).
Proof.
  intros w r w' Hrun. exists []. rewrite app_nil_r. split; [|done].
  simpl. by eapply filterTCPConn_trace.
Qed.

Lemma accept_conn_hands_over m tcpConn sched :
  appends (handed_over_after_handshake api m) id (accept_conn api m tcpConn sched).
Proof.
  unfold accept_conn.
  apply appends_bind; [apply filterTCPConn_appends|]. intros err.
  apply appends_bind.
  { unfold select_chError. repeat appends_step. }
  intros goes_on. destruct (negb goes_on); [apply appends_ret|].
  apply (appends_bind_post _ _
           (fun r => exists w0 w1,
              newMConnConnection api m tcpConn "" w0 = (returns r, w1))).
  - eapply appends_weaken; [|apply newMConnConnection_of_handshake].
    by intros [].
  - intros w0 r w1 Hrun. by exists w0, w1.
  - intros [c [e|]] Hr; simpl.
    + unfold select_chError. repeat appends_step.
    + destruct (as_result sched).
      * by apply appends_emit.
      * unfold mConnConnection_Close. repeat appends_step.
      * apply appends_ret.
Qed.

(** X14. Whatever sockets and errors the listener returns and however
    the goroutines are scheduled, the accept loop only adds to the
    trace, and every connection it puts on [chAccept] for a socket is
    what a handshake on that socket returned together with a nil error:
    a connection is never handed to [Accept] without a handshake, after
    a handshake that failed, or for another socket. *)
Theorem accept_hands_over_only_after_handshake
    (m : mConnTransport) (inbound : list ((net_Conn + error) * accept_schedule))
    (w w' : world) (r : call unit) :
  accept api m inbound w = (r, w') ->
  exists tr,
    trace w' = trace w ++ tr /\
    Forall (handed_over_after_handshake api m) tr.
Proof.
  revert w r w'.
  change (appends (handed_over_after_handshake api m) id (accept api m inbound)).
  induction inbound as [|[[tcpConn|err] sched] inbound IH]; simpl.
  - apply appends_ret.
  - apply appends_bind; [apply accept_conn_hands_over|]. by intros [].
  - unfold select_chError. repeat appends_step.
Qed.

(** X15. The accept loop ends at the first error of the listener: what
    the listener would return afterwards is never asked for, and the
    sockets accepted before the error are served as if nothing had
    followed. *)
Theorem accept_stops_at_listener_error
    (m : mConnTransport) (served rest : list ((net_Conn + error) * accept_schedule))
    (err : error) (sched : accept_schedule) (w : world) :
  accept api m (served ++ (inr err, sched) :: rest) w
  = accept api m (served ++ [(inr err, sched)]) w.
Proof.
  revert w. induction served as [|[[tcpConn|err0] sched0] served IH];
    intros w; simpl; try done.
  unfold mbind, ST_bind.
  destruct (accept_conn api m tcpConn sched0 w) as [[[]|p|p] w1]; [|done|done].
  apply IH.
Qed.

End HandshakeEvents.

(** ** Connections that a handshake has built *)

Lemma close_streams_ok (ss : list (Z * option mConnStream)) :
  Forall (fun kv => kv.2 <> None) ss -> close_streams ss = returns tt.
Proof.
  induction 1 as [|[k [s|]] ss Hs _ IH]; simpl; done.
Qed.

Lemma ConnSet_RemoveAddr_lookup (cs : ConnSet) (addr : string) (c : net_Conn) :
  ConnSet_RemoveAddr cs addr !! c
  = if decide (RemoteAddr c = addr) then None else cs !! c.
Proof.
  unfold ConnSet_RemoveAddr. destruct (cs !! c) as [ips|] eqn:Hc.
  - case_decide as Ha.
    + apply map_lookup_filter_None. right. intros ips' _. simpl. by intros ?.
    + apply map_lookup_filter_Some. by split.
  - assert (filter (fun kv => RemoteAddr kv.1 <> addr) cs !! c = None) as ->.
    { apply map_lookup_filter_None. by left. }
    by case_decide.
Qed.

Section BuiltConnections.
Context (api : Collaborators).

(** [Close] on a connection that has its secure channel, its
    multiplexer and no nil stream. *)
Lemma mConnConnection_Close_runs conn sc mc e1 e2 w :
  secretConn conn = Some sc -> mConn conn = Some mc ->
  (forall k, streams conn !! k <> Some None) ->
  mConn_Stop api mc = returns e1 -> secretConn_Close api sc = returns e2 ->
  mConnConnection_Close api (Some conn) w
  = (returns (if e1 is Some _ then e1 else e2),
     {| conns := ConnSet_RemoveAddr (conns w) (RemoteAddr (sc_conn sc));
        trace := trace w ++ [ev_mConn_Stop (sc_conn sc);
                             ev_secretConn_Close (sc_conn sc)] |}).
Proof.
  intros Hsc Hmc Hstr H1 H2. unfold mConnConnection_Close.
  rewrite Hsc, Hmc. run_st. rewrite H1, H2.
  rewrite close_streams_ok.
  - rewrite <- app_assoc. by destruct e1, e2.
  - apply Forall_forall. intros [k v] Hin%elem_of_map_to_list. simpl.
    intros ->. by apply (Hstr k).
Qed.

(** X16. A connection that a handshake has returned without an error can
    be closed: [Close] hits no nil pointer on it. It takes every socket
    with the remote address of the secure channel out of the
    ConnectionSet and leaves the others, stops the multiplexer and then
    closes the secure channel, both whatever errors they return, and
    returns the error of the multiplexer if it has one and otherwise
    what closing the secure channel returned. [onError], the callback of the multiplexer,
    does the same to the connection and returns nothing. *)
Theorem Close_after_handshake
    (transport : mConnTransport) (tcpConn : net_Conn) (expectPeerID : ID)
    (w0 w1 : world) (conn : mConnConnection) :
  newMConnConnection api transport tcpConn expectPeerID w0
    = (returns (Some conn, None), w1) ->
  exists sc mc,
    secretConn conn = Some sc /\ mConn conn = Some mc /\
    forall e1 e2 w,
      mConn_Stop api mc = returns e1 -> secretConn_Close api sc = returns e2 ->
      exists w',
        mConnConnection_Close api (Some conn) w
          = (returns (if e1 is Some _ then e1 else e2), w') /\
        onError api conn w = (returns tt, w') /\
        trace w' = trace w ++ [ev_mConn_Stop (sc_conn sc);
                               ev_secretConn_Close (sc_conn sc)] /\
        forall c,
          conns w' !! c
          = if decide (RemoteAddr c = RemoteAddr (sc_conn sc)) then None
            else conns w !! c.
Proof.
  intros Hn.
  destruct (newMConnConnection_succeeds api _ _ _ _ _ _ Hn)
    as (sc & pb & info & mc & addr & conn' & H).
  destruct H as (_ & _ & _ & _ & _ & _ & _ & _ & _ & _ & _ & _ & _ & [= <-] &
                 Hlog & Hsc & Hmc & _ & Hstr & _).
  exists sc, mc. split_and!; try done. intros e1 e2 w H1 H2.
  assert (mConnConnection_Close api (Some conn) w
          = (returns (if e1 is Some _ then e1 else e2),
             {| conns := ConnSet_RemoveAddr (conns w) (RemoteAddr (sc_conn sc));
                trace := trace w ++ [ev_mConn_Stop (sc_conn sc);
                                     ev_secretConn_Close (sc_conn sc)] |}))
    as Hclose.
  { apply (mConnConnection_Close_runs conn sc mc e1 e2 w); try done.
    intros k. rewrite Hstr. by case_decide. }
  eexists. split; [exact Hclose|]. split.
  { unfold onError. rewrite Hlog. unfold mbind, ST_bind. by rewrite Hclose. }
  split; [done|]. intros c. simpl. apply ConnSet_RemoveAddr_lookup.
Qed.

(** X17. When the transport is closed while a connection that has passed
    the filters and the handshake waits to be taken by [Accept], the
    goroutine closes the connection: the connection is never put on
    [chAccept], the sockets with the remote address of its secure
    channel are taken out of the ConnectionSet, the multiplexer is
    stopped and the secure channel closed; what [Close] returns is
    dropped. *)
Theorem accept_conn_closes_undelivered
    (m : mConnTransport) (tcpConn : net_Conn) (sched : accept_schedule)
    (w w1 w2 : world) (conn : mConnConnection)
    (sc : SecretConnection) (mc : MConnection) (e1 e2 : option error) :
  as_result sched = sel_chClose ->
  filterTCPConn api m tcpConn (as_filters sched) w = (returns None, w1) ->
  newMConnConnection api m tcpConn "" w1 = (returns (Some conn, None), w2) ->
  secretConn conn = Some sc -> mConn conn = Some mc ->
  mConn_Stop api mc = returns e1 -> secretConn_Close api sc = returns e2 ->
  accept_conn api m tcpConn sched w
  = (returns tt,
     {| conns := ConnSet_RemoveAddr (conns w2) (RemoteAddr (sc_conn sc));
        trace := trace w2 ++ [ev_mConn_Stop (sc_conn sc);
                              ev_secretConn_Close (sc_conn sc)] |}).
Proof.
  intros Hsel Hf Hn Hsc Hmc H1 H2.
  destruct (newMConnConnection_succeeds api _ _ _ _ _ _ Hn)
    as (sc' & pb & info & mc' & addr & conn' & H).
  destruct H as (_ & _ & _ & _ & _ & _ & _ & _ & _ & _ & _ & _ & _ & [= <-] &
                 _ & _ & _ & _ & Hstr & _).
  unfold accept_conn. unfold mbind at 1, ST_bind at 1. rewrite Hf.
  run_st. rewrite Hn. simpl. rewrite Hsel.
  rewrite Hsc, Hmc. run_st. rewrite H1, H2.
  rewrite close_streams_ok.
  - by rewrite <- app_assoc.
  - apply Forall_forall. intros [k v] Hin%elem_of_map_to_list. simpl.
    intros ->. rewrite Hstr in Hin. by case_decide.
Qed.

(** X18. On a connection that a handshake has returned without an error,
    [onReceive] never panics: a chunk for the id of a channel descriptor
    goes to [receive] of the stream of that id on this socket, a chunk
    for any other channel is refused with an error.  [Stream] returns,
    always with a nil error, a value that holds that same stream for
    such an id and a nil stream pointer for any other id; the value
    itself is never the nil [Stream]. *)
Theorem handshaken_connection_routes_by_channel
    (transport : mConnTransport) (tcpConn : net_Conn) (expectPeerID : ID)
    (w0 w1 : world) (conn : mConnConnection) :
  newMConnConnection api transport tcpConn expectPeerID w0
    = (returns (Some conn, None), w1) ->
  (forall chID bz eof,
     onReceive conn chID bz eof =
       if decide (byte_of chID ∈
                    (fun d => byte_of (chDesc_ID d)) <$> channelDescs transport)
       then returns (inr ({| connection := tcpConn; stream_id := byte_of chID |},
                          receive {| connection := tcpConn;
                                     stream_id := byte_of chID |} bz eof))
       else returns (inl (Some (fmt_Errorf
                                  "received message for unknown channel %v"
                                  [arg_int (byte_of chID)])))) /\
  (forall id,
     Stream conn id =
       (Stream_holding
          (if decide (byte_of id ∈
                        (fun d => byte_of (chDesc_ID d)) <$> channelDescs transport)
           then Some {| connection := tcpConn; stream_id := byte_of id |}
           else None), None) /\
     (Stream conn id).1 <> Stream_nil).
Proof.
  intros Hn.
  destruct (newMConnConnection_succeeds api _ _ _ _ _ _ Hn)
    as (sc & pb & info & mc & addr & conn' & H).
  destruct H as (_ & _ & _ & _ & _ & _ & _ & _ & _ & _ & _ & _ & _ & [= <-] &
                 _ & _ & _ & _ & Hstr & _).
  split.
  - intros chID bz eof. unfold onReceive. rewrite Hstr. by case_decide.
  - intros id. unfold Stream. rewrite byte_of_uint16_of, Hstr.
    split; [by case_decide|done].
Qed.

End BuiltConnections.

(** ** Examples of connections *)

Lemma example_Dial_bb :
  Dial (example_api false) example_transport endpoint_bb prompt_filters
    empty_world = (returns (Some connection_bb, None), world_connected_bb).
Proof. vm_compute. reflexivity. Qed.

Lemma example_handshake_bb :
  newMConnConnection (example_api false) example_transport peer_bb ""
    {| conns := {[ peer_bb := [ip_bb] ]}; trace := [] |}
  = (returns (Some connection_bb, None), world_connected_bb).
Proof. vm_compute. reflexivity. Qed.

Lemma Dial_connection_or_error_witness :
  Dial (example_api false) example_transport endpoint_bb prompt_filters
    empty_world = (returns (Some connection_bb, None), world_connected_bb) /\
  ((Some connection_bb = None /\ (None : option error) <> None /\
    conns world_connected_bb = conns empty_world) \/
   ((None : option error) = None /\
    exists ep tcpConn host port ip conn w1,
      normalizeEndpoint (Endpoint_Validate (example_api false)) (Some endpoint_bb)
        = (Some ep, None) /\
      net_DialContext (example_api false) (dialTimeout example_transport)
        (EIP ep) (Port ep) = returns (inl tcpConn) /\
      conns empty_world !! tcpConn = None /\
      net_SplitHostPort (example_api false) (RemoteAddr tcpConn)
        = inl (host, port) /\
      net_ParseIP (example_api false) host = Some ip /\
      conns world_connected_bb = <[tcpConn := [ip]]> (conns empty_world) /\
      Some connection_bb = Some conn /\
      newMConnConnection (example_api false) example_transport tcpConn
        (PeerID endpoint_bb) w1
        = (returns (Some conn, None), world_connected_bb))).
Proof.
  split; [vm_compute; reflexivity|].
  apply (Dial_connection_or_error (example_api false) example_transport
           endpoint_bb prompt_filters empty_world world_connected_bb
           (Some connection_bb) None).
  vm_compute. reflexivity.
Defined.

Lemma accept_hands_over_only_after_handshake_witness :
  accept (example_api false) example_transport [(inl peer_bb, prompt)]
    empty_world
  = (returns tt,
     {| conns := {[ peer_bb := [ip_bb] ]};
        trace := handshake_trace_bb ++
                 [ev_chAccept peer_bb (Some connection_bb)] |}) /\
  exists tr,
    handshake_trace_bb ++ [ev_chAccept peer_bb (Some connection_bb)]
      = trace empty_world ++ tr /\
    Forall (handed_over_after_handshake (example_api false) example_transport) tr.
Proof.
  split; [vm_compute; reflexivity|].
  apply (accept_hands_over_only_after_handshake (example_api false)
           example_transport [(inl peer_bb, prompt)] empty_world
           {| conns := {[ peer_bb := [ip_bb] ]};
              trace := handshake_trace_bb ++
                       [ev_chAccept peer_bb (Some connection_bb)] |}
           (returns tt)).
  vm_compute. reflexivity.
Defined.

Lemma Close_after_handshake_witness :
  newMConnConnection (example_api false) example_transport peer_bb ""
    {| conns := {[ peer_bb := [ip_bb] ]}; trace := [] |}
  = (returns (Some connection_bb, None), world_connected_bb) /\
  exists sc mc,
    secretConn connection_bb = Some sc /\ mConn connection_bb = Some mc /\
    forall e1 e2 w,
      mConn_Stop (example_api false) mc = returns e1 ->
      secretConn_Close (example_api false) sc = returns e2 ->
      exists w',
        mConnConnection_Close (example_api false) (Some connection_bb) w
          = (returns (if e1 is Some _ then e1 else e2), w') /\
        onError (example_api false) connection_bb w = (returns tt, w') /\
        trace w' = trace w ++ [ev_mConn_Stop (sc_conn sc);
                               ev_secretConn_Close (sc_conn sc)] /\
        forall c,
          conns w' !! c
          = if decide (RemoteAddr c = RemoteAddr (sc_conn sc)) then None
            else conns w !! c.
Proof.
  split; [vm_compute; reflexivity|].
  apply (Close_after_handshake (example_api false) example_transport peer_bb ""
           {| conns := {[ peer_bb := [ip_bb] ]}; trace := [] |}
           world_connected_bb connection_bb).
  vm_compute. reflexivity.
Defined.

Lemma accept_conn_closes_undelivered_witness :
  (as_result closed_before_accept = sel_chClose /\
   filterTCPConn (example_api false) example_transport peer_bb
     (as_filters closed_before_accept) empty_world
   = (returns None, {| conns := {[ peer_bb := [ip_bb] ]}; trace := [] |}) /\
   newMConnConnection (example_api false) example_transport peer_bb ""
     {| conns := {[ peer_bb := [ip_bb] ]}; trace := [] |}
   = (returns (Some connection_bb, None), world_connected_bb) /\
   secretConn connection_bb = Some secretConn_bb /\
   mConn connection_bb = Some mConn_bb /\
   mConn_Stop (example_api false) mConn_bb = returns None /\
   secretConn_Close (example_api false) secretConn_bb = returns None) /\
  accept_conn (example_api false) example_transport peer_bb
    closed_before_accept empty_world
  = (returns tt,
     {| conns := ConnSet_RemoveAddr (conns world_connected_bb)
                   (RemoteAddr (sc_conn secretConn_bb));
        trace := trace world_connected_bb ++
                 [ev_mConn_Stop (sc_conn secretConn_bb);
                  ev_secretConn_Close (sc_conn secretConn_bb)] |}).
Proof.
  split; [split_and!; vm_compute; reflexivity|].
  apply (accept_conn_closes_undelivered (example_api false) example_transport
           peer_bb closed_before_accept empty_world
           {| conns := {[ peer_bb := [ip_bb] ]}; trace := [] |}
           world_connected_bb connection_bb secretConn_bb mConn_bb None None);
    vm_compute; reflexivity.
Defined.

Lemma handshaken_connection_routes_by_channel_witness :
  newMConnConnection (example_api false) example_transport peer_bb ""
    {| conns := {[ peer_bb := [ip_bb] ]}; trace := [] |}
  = (returns (Some connection_bb, None), world_connected_bb) /\
  (forall chID bz eof,
     onReceive connection_bb chID bz eof =
       if decide (byte_of chID ∈
                    (fun d => byte_of (chDesc_ID d)) <$>
                      channelDescs example_transport)
       then returns (inr ({| connection := peer_bb; stream_id := byte_of chID |},
                          receive {| connection := peer_bb;
                                     stream_id := byte_of chID |} bz eof))
       else returns (inl (Some (fmt_Errorf
                                  "received message for unknown channel %v"
                                  [arg_int (byte_of chID)])))) /\
  (forall id,
     Stream connection_bb id =
       (Stream_holding
          (if decide (byte_of id ∈
                        (fun d => byte_of (chDesc_ID d)) <$>
                          channelDescs example_transport)
           then Some {| connection := peer_bb; stream_id := byte_of id |}
           else None), None) /\
     (Stream connection_bb id).1 <> Stream_nil).
Proof.
  split; [vm_compute; reflexivity|].
  apply (handshaken_connection_routes_by_channel (example_api false)
           example_transport peer_bb ""
           {| conns := {[ peer_bb := [ip_bb] ]}; trace := [] |}
           world_connected_bb connection_bb).
  vm_compute. reflexivity.
Defined.

(** The example connections at work. *)
Example example_closed_before_accept :
  accept_conn (example_api false) example_transport peer_bb
    closed_before_accept empty_world
  = (returns tt,
     {| conns := ∅;
        trace := handshake_trace_bb ++
                 [ev_mConn_Stop peer_bb; ev_secretConn_Close peer_bb] |}).
Proof. vm_compute. reflexivity. Qed.

(** ** Setting up a transport and listening *)

Lemma provided_keeps (opts : list MConnTransportOption) (m : mConnTransport) :
  Forall provided opts ->
  let m' := foldl (fun m (opt : MConnTransportOption) => opt m) m opts in
  privKey m' = privKey m /\ t_nodeInfo m' = t_nodeInfo m /\
  channelDescs m' = channelDescs m /\ dialTimeout m' = dialTimeout m /\
  handshakeTimeout m' = handshakeTimeout m.
Proof.
  intros Hall. revert m. induction Hall as [|opt opts Hopt _ IH]; intros m.
  - done.
  - simpl. destruct (IH (opt m)) as (H1 & H2 & H3 & H4 & H5).
    rewrite H1, H2, H3, H4, H5. by destruct Hopt.
Qed.

Section ListeningFacts.
Context (api : Collaborators).
Context (Endpoint_String : Endpoint -> string).
Context (listener_Close : net_Listener -> option error).

(** X19. A transport that [NewMConnTransport] returns has the given key
    and node info, the default dial and handshake timeouts and no
    channel descriptors, whatever options of this file it is given; so
    [Listen] on it returns the error "no MConn channel descriptors", for
    every endpoint, and starts nothing. With a node info that is no
    [DefaultNodeInfo] the constructor panics. *)
Theorem NewMConnTransport_has_no_channels
    (nodeInfo : NodeInfo) (key : PrivKey) (opts : list MConnTransportOption) :
  Forall provided opts ->
  match nodeInfo with
  | NodeInfo_other =>
    exists r, NewMConnTransport nodeInfo key opts = panics r
  | NodeInfo_DefaultNodeInfo info =>
    exists m,
      NewMConnTransport nodeInfo key opts = returns m /\
      privKey m = key /\ t_nodeInfo m = info /\ channelDescs m = [] /\
      dialTimeout m = defaultDialTimeout /\
      handshakeTimeout m = defaultHandshakeTimeout /\
      forall endpoint net_Listen,
        Listen api Endpoint_String m endpoint net_Listen new_transport_state
        = (Some (errors_New "no MConn channel descriptors"),
           new_transport_state)
  end.
Proof.
  intros Hall. destruct nodeInfo as [info|]; [|by eexists].
  eexists. split; [done|].
  match goal with
  | |- context [foldl ?f ?m0 opts] =>
    destruct (provided_keeps opts m0 Hall) as (H1 & H2 & H3 & H4 & H5)
  end.
  simpl in *. split_and!; try done. intros endpoint net_Listen.
  unfold Listen. simpl. by rewrite H3.
Qed.

(** X20. [Listen] returns nil exactly when the transport is not yet
    listening, has a channel descriptor, the endpoint is accepted by
    [normalizeEndpoint] and [net.Listen] succeeds for the IP and the
    port of the normalized endpoint; the listener is then stored,
    wrapped by a limit when the maximum of incoming connections is
    positive, and one [accept] goroutine is started. When [Listen]
    returns an error it has changed nothing and started nothing. *)
Theorem Listen_accepts_exactly
    (m : mConnTransport) (endpoint : Endpoint)
    (net_Listen : IP -> Z -> net_Listener + error) (s s' : transport_state) :
  (Listen api Endpoint_String m endpoint net_Listen s = (None, s') <->
   listener s = None /\ channelDescs m <> [] /\
   exists ep l,
     normalizeEndpoint (Endpoint_Validate api) (Some endpoint)
       = (Some ep, None) /\
     net_Listen (EIP ep) (Port ep) = inl l /\
     s' = {| listener :=
               Some (if decide (0 < maxIncomingConnections m)%Z
                     then netutil_LimitListener l (maxIncomingConnections m)
                     else l);
             t_chClose_closed := t_chClose_closed s;
             t_chCloseOnce_done := t_chCloseOnce_done s;
             accept_started := S (accept_started s) |}) /\
  (forall e, Listen api Endpoint_String m endpoint net_Listen s = (Some e, s') ->
             s' = s).
Proof.
  unfold Listen. destruct (listener s) as [l0|] eqn:Hl0.
  { split; [|by intros e [= _ <-]]. split; [done|]. by intros [? _]. }
  case_decide as Hd.
  { split; [|by intros e [= _ <-]]. split; [done|].
    intros (_ & Hne & _). by destruct (channelDescs m). }
  destruct (normalizeEndpoint _ _) as [normalized [err|]] eqn:Hnorm.
  { split; [|by intros e [= _ <-]]. split; [done|].
    intros (_ & _ & ep & l & [=] & _). }
  destruct (normalizeEndpoint_keeps_PeerID _ _ _ Hnorm) as (ep & -> & _).
  simpl. destruct (net_Listen (EIP ep) (Port ep)) as [l|err] eqn:Hl.
  - split; [|done]. split.
    + intros [= <-]. split_and!; try done.
      * intros Hnil. by rewrite Hnil in Hd.
      * by exists ep, l.
    + intros (_ & _ & ep' & l' & [= <-] & Hl' & ->).
      rewrite Hl in Hl'. by injection Hl' as <-.
  - split.
    + split; [done|]. intros (_ & _ & ep' & l' & [= <-] & Hl' & _). congruence.
    + intros e [= _ <-]. destruct s. simpl in *. by rewrite Hl0.
Qed.

Lemma transport_step_listening m c s l :
  listener s = Some l ->
  listener (transport_step api Endpoint_String listener_Close m c s) = Some l /\
  accept_started (transport_step api Endpoint_String listener_Close m c s)
    = accept_started s.
Proof.
  intros Hl. destruct c as [endpoint net_Listen|]; simpl.
  - unfold Listen. by rewrite Hl.
  - unfold mConnTransport_Close. destruct (t_chCloseOnce_done s); simpl;
      by rewrite Hl.
Qed.

Lemma transport_run_listening m cs s l :
  listener s = Some l ->
  listener (transport_run api Endpoint_String listener_Close m cs s) = Some l /\
  accept_started (transport_run api Endpoint_String listener_Close m cs s)
    = accept_started s.
Proof.
  revert s. induction cs as [|c cs IH]; intros s Hl; [done|]. simpl.
  destruct (transport_step_listening m c s l Hl) as [Hl1 Hn1].
  destruct (IH _ Hl1) as [Hl2 Hn2]. split; [done|]. by rewrite Hn2.
Qed.

(** X21. Once [Listen] has returned nil the transport keeps its listener
    for good: whatever is called on it afterwards, [Listen] or [Close]
    in any order, the listener stays the one that was stored, no second
    [accept] goroutine is started, every further [Listen] returns the
    error "MConn transport is already listening" and changes nothing,
    and [Endpoints] goes on reporting the address of the listener, also
    after [Close]. *)
Theorem Listen_only_once
    (m : mConnTransport) (endpoint : Endpoint)
    (net_Listen : IP -> Z -> net_Listener + error)
    (s s1 : transport_state) (cs : list transport_call) :
  Listen api Endpoint_String m endpoint net_Listen s = (None, s1) ->
  let s2 := transport_run api Endpoint_String listener_Close m cs s1 in
  listener s1 <> None /\
  listener s2 = listener s1 /\
  accept_started s2 = S (accept_started s) /\
  Endpoints api m s2 = Endpoints api m s1 /\
  forall endpoint' net_Listen',
    Listen api Endpoint_String m endpoint' net_Listen' s2
    = (Some (errors_New "MConn transport is already listening"), s2).
Proof.
  intros Hrun s2.
  assert (exists l, listener s1 = Some l /\
                    accept_started s1 = S (accept_started s)) as (l & Hl & Hn).
  { revert Hrun. unfold Listen. destruct (listener s); [done|].
    case_decide; [done|].
    destruct (normalizeEndpoint _ _) as [normalized [err|]]; [done|].
    destruct (net_Listen _ _); [|done]. intros [= <-]. by eexists. }
  destruct (transport_run_listening m cs s1 l Hl) as [Hl2 Hn2].
  fold s2 in Hl2, Hn2. split_and!.
  - by rewrite Hl.
  - by rewrite Hl2, Hl.
  - by rewrite Hn2.
  - unfold Endpoints. by rewrite Hl2, Hl.
  - intros endpoint' net_Listen'. unfold Listen. by rewrite Hl2.
Qed.

Lemma transport_step_closed m c s :
  t_chCloseOnce_done s = t_chClose_closed s ->
  let s' := transport_step api Endpoint_String listener_Close m c s in
  t_chCloseOnce_done s' = t_chClose_closed s' /\
  (t_chClose_closed s = true -> t_chClose_closed s' = true).
Proof.
  intros Hinv. destruct c as [endpoint net_Listen|]; simpl.
  - unfold Listen. destruct (listener s); [done|].
    case_decide; [done|].
    destruct (normalizeEndpoint _ _) as [normalized [err|]]; [done|].
    by destruct (net_Listen _ _).
  - unfold mConnTransport_Close.
    destruct (t_chCloseOnce_done s) eqn:Hd; simpl.
    + destruct (listener s); simpl; rewrite ?Hd; by split.
    + by destruct (listener s).
Qed.

Lemma transport_run_closed m cs s :
  t_chCloseOnce_done s = t_chClose_closed s ->
  let s' := transport_run api Endpoint_String listener_Close m cs s in
  t_chCloseOnce_done s' = t_chClose_closed s' /\
  (t_chClose_closed s = true -> t_chClose_closed s' = true).
Proof.
  revert s. induction cs as [|c cs IH]; intros s Hinv; [done|]. simpl.
  destruct (transport_step_closed m c s Hinv) as [Hinv1 Hc1].
  destruct (IH _ Hinv1) as [Hinv2 Hc2]. split; [done|]. auto.
Qed.

(** X22. On a transport in any state that calls of [Listen] and [Close]
    can bring it to, [Close] closes [chClose], and [chClose] stays
    closed whatever is called afterwards. [Close] returns nil on a
    transport that is not listening and what closing the listener
    returns otherwise, at every call. It does not change whether the
    transport is listening and starts nothing: a transport that was
    closed before it ever listened is not refused by [Listen], which
    returns on it what it returned before the [Close]. *)
Theorem mConnTransport_Close_is_final
    (m : mConnTransport) (before after : list transport_call) :
  let s := transport_run api Endpoint_String listener_Close m before
             new_transport_state in
  let s1 := (mConnTransport_Close listener_Close s).2 in
  let s2 := transport_run api Endpoint_String listener_Close m after s1 in
  (mConnTransport_Close listener_Close s).1
    = (if listener s is Some l then listener_Close l else None) /\
  listener s1 = listener s /\ accept_started s1 = accept_started s /\
  t_chClose_closed s1 = true /\ t_chClose_closed s2 = true /\
  forall endpoint net_Listen,
    (Listen api Endpoint_String m endpoint net_Listen s1).1
      = (Listen api Endpoint_String m endpoint net_Listen s).1 /\
    listener (Listen api Endpoint_String m endpoint net_Listen s1).2
      = listener (Listen api Endpoint_String m endpoint net_Listen s).2.
Proof.
  intros s s1 s2.
  destruct (transport_run_closed m before new_transport_state eq_refl)
    as [Hinv _]. fold s in Hinv. clearbody s.
  assert (listener s1 = listener s /\ accept_started s1 = accept_started s /\
          t_chClose_closed s1 = true /\
          t_chCloseOnce_done s1 = t_chClose_closed s1) as (Hl & Hn & Hc & Hinv1).
  { unfold s1, mConnTransport_Close.
    destruct (t_chCloseOnce_done s) eqn:Hd; simpl;
      destruct (listener s) eqn:Hls; simpl; rewrite ?Hd, ?Hls; by split_and!. }
  split_and!; try done.
  - unfold mConnTransport_Close.
    destruct (t_chCloseOnce_done s); simpl; by destruct (listener s).
  - by apply (transport_run_closed m after s1 Hinv1).
  - intros endpoint net_Listen. unfold Listen. rewrite Hl.
    destruct (listener s) eqn:Hls; [simpl; by rewrite Hl, Hls|].
    case_decide; [simpl; by rewrite Hl, Hls|].
    destruct (normalizeEndpoint _ _) as [normalized [err|]];
      [simpl; by rewrite Hl, Hls|].
    by destruct (net_Listen _ _).
Qed.

End ListeningFacts.

Lemma NewMConnTransport_has_no_channels_witness :
  Forall provided example_options /\
  exists m,
    NewMConnTransport
      (NodeInfo_DefaultNodeInfo {| DefaultNodeID := "aa"; Network := "chain-A" |})
      "key-aa" example_options = returns m /\
    privKey m = "key-aa" /\
    t_nodeInfo m = {| DefaultNodeID := "aa"; Network := "chain-A" |} /\
    channelDescs m = [] /\
    dialTimeout m = defaultDialTimeout /\
    handshakeTimeout m = defaultHandshakeTimeout /\
    forall endpoint net_Listen,
      Listen (example_api false) example_Endpoint_String m endpoint net_Listen
        new_transport_state
      = (Some (errors_New "no MConn channel descriptors"), new_transport_state).
Proof.
  assert (Forall provided example_options) as Hall
    by (repeat constructor).
  split; [exact Hall|].
  exact (NewMConnTransport_has_no_channels (example_api false)
           example_Endpoint_String
           (NodeInfo_DefaultNodeInfo {| DefaultNodeID := "aa"; Network := "chain-A" |})
           "key-aa" example_options Hall).
Defined.

Lemma Listen_only_once_witness :
  Listen (example_api false) example_Endpoint_String example_transport
    example_endpoint example_Listen new_transport_state
  = (None, example_listening) /\
  let s2 := transport_run (example_api false) example_Endpoint_String
              example_listener_Close example_transport example_calls
              example_listening in
  listener example_listening <> None /\
  listener s2 = listener example_listening /\
  accept_started s2 = S (accept_started new_transport_state) /\
  Endpoints (example_api false) example_transport s2
    = Endpoints (example_api false) example_transport example_listening /\
  forall endpoint' net_Listen',
    Listen (example_api false) example_Endpoint_String example_transport
      endpoint' net_Listen' s2
    = (Some (errors_New "MConn transport is already listening"), s2).
Proof.
  split; [vm_compute; reflexivity|].
  apply (Listen_only_once (example_api false) example_Endpoint_String
           example_listener_Close example_transport example_endpoint
           example_Listen new_transport_state example_listening example_calls).
  vm_compute. reflexivity.
Defined.

(** A transport that listens, is closed and asked to listen again. *)
Example example_listen_close_listen :
  let s2 := transport_run (example_api false) example_Endpoint_String
              example_listener_Close example_transport
              (call_Listen example_endpoint example_Listen :: example_calls)
              new_transport_state in
  t_chClose_closed s2 = true /\ accept_started s2 = 1 /\
  Endpoints (example_api false) example_transport s2
  = returns [{| PeerID := "aa"; EProtocol := "mconn"; Path := "";
                EIP := localhost; Port := 26656 |}].
Proof. vm_compute. done. Qed.

(** ** The node-info exchange and the errors of a handshake *)

Section HandshakeErrors.
Context (api : Collaborators).

(** X23. The node-info exchange succeeds only when the write and the read
    both succeed, and its result is then what decoding the received node
    info gives.  When one of the two fails its error is returned, in
    whichever order the two goroutines report; when both fail, the error
    of the one that reports first.  After a failed transfer the received
    node info is not decoded and the zero node info is returned.  When
    one of the two panics in its goroutine the program ends with that
    panic, and with the first of the two when both panic.  The exchange
    changes nothing but the trace. *)
Theorem handshake_needs_both_transfers
    (transport : mConnTransport) (c : mConnConnection)
    (sc : SecretConnection) (w : world) :
  secretConn c = Some sc ->
  exists r,
    handshake api transport c w
    = (r, {| conns := conns w;
             trace := trace w ++ [ev_exchange_NodeInfo (sc_conn sc)] |}) /\
    match go (WriteMsg api sc (t_nodeInfo transport)), go (ReadMsg api sc) with
    | inl None, inl (pb, None) => r = DefaultNodeInfoFromProto api pb
    | inl (Some e), inl (_, None) | inl None, inl (_, Some e) =>
      r = returns (DefaultNodeInfo_zero, Some e)
    | inl (Some e1), inl (_, Some e2) =>
      r = returns (DefaultNodeInfo_zero,
                   Some (if write_reports_first api sc then e1 else e2))
    | inr p, inl _ | inl _, inr p => r = crashes p
    | inr p1, inr p2 =>
      r = crashes (if write_reports_first api sc then p1 else p2)
    end.
Proof.
  intros Hsc. unfold handshake. rewrite Hsc. run_st.
  destruct (go (WriteMsg api sc (t_nodeInfo transport))) as [[e1|]|p1];
    destruct (go (ReadMsg api sc)) as [[pb [e2|]]|p2];
    destruct (write_reports_first api sc); simpl; by eexists.
Qed.

(** The errors that [newMConnConnection] makes itself. *)
Lemma start_mconn_errors transport tcpConn c0 e0 w sc e f' w' :
  secretConn c0 = Some sc ->
  start_mconn api transport tcpConn ({| conn := Some c0; err := e0 |}, w)
    = (returns tt, (f', w')) ->
  err f' = Some e ->
  handshake_rejection tcpConn e \/
  (exists mc,
     tmconn_NewMConnectionWithConfig api sc (channelDescs transport)
       = returns mc /\
     mConn_Start api mc = returns (Some e)).
Proof.
  intros Hsc. unfold start_mconn. run_st.
  destruct (conn_SetDeadline api _ tcpConn None) as [[e1|]|p|p] eqn:Hd; run_st;
    [intros [= <- <-] [= <-]; left; constructor| |done|done].
  match goal with
  | |- context [make_streams ?t ?d (?f, ?w0)] =>
    destruct (make_streams_runs t d c0 w0) as (c1 & Hrun & Hl & Hs & Hm & Hn & Hst)
  end.
  rewrite Hrun. run_st. rewrite Hs, Hsc.
  destruct (tmconn_NewMConnectionWithConfig api sc _) as [mc|p|p] eqn:Hmc;
    run_st; [|done|done].
  unfold RemoteEndpoint. simpl. rewrite Hs, Hsc.
  destruct (TCPAddr_of api _) as [[ip port]|p|p] eqn:Ha; run_st; [|done|done].
  destruct (mConn_Start api mc) as [[e1|]|p|p] eqn:Hst'; run_st;
    intros [= <- <-]; [|done].
  intros [= <-]. right. by exists mc.
Qed.

Lemma verify_peer_errors transport tcpConn (expectPeerID : ID) c0 e0 w sc e f' w' :
  secretConn c0 = Some sc ->
  verify_peer api transport tcpConn expectPeerID
    ({| conn := Some c0; err := e0 |}, w) = (returns tt, (f', w')) ->
  err f' = Some e ->
  handshake_rejection tcpConn e \/
  (exists mc,
     tmconn_NewMConnectionWithConfig api sc (channelDescs transport)
       = returns mc /\
     mConn_Start api mc = returns (Some e)).
Proof.
  intros Hsc. unfold verify_peer.
  assert (forall s : frame * world,
            conn s.1 = Some c0 ->
            (let f := fun c : mConnConnection =>
               if decide (NodeInfo_ID (t_nodeInfo transport)
                          = NodeInfo_ID (nodeInfo c)) then
                 addr ← match secretConn c with
                        | Some sc =>
                          ext (NewNetAddress api (NodeInfo_ID (nodeInfo c))
                                 (RemoteAddr (sc_conn sc)))
                        | None => nil_dereference
                        end;
                 set_err (Some (ErrRejected
                                  (self (with_id (NodeInfo_ID (nodeInfo c))
                                           (with_addr addr (rejected tcpConn))))
                                  None))
               else
                 e ← ext (NodeInfo_CompatibleWith api (t_nodeInfo transport)
                            (nodeInfo c));
                 set_err e;;
                 if e is Some _ then
                   set_err (Some (ErrRejected
                                    (incompatible (with_id (NodeInfo_ID (nodeInfo c))
                                                     (rejected tcpConn)))
                                    e))
                 else start_mconn api transport tcpConn in
             (c ← get_conn; f c) s = (returns tt, (f', w')) ->
             err f' = Some e ->
             handshake_rejection tcpConn e \/
             (exists mc,
                tmconn_NewMConnectionWithConfig api sc (channelDescs transport)
                  = returns mc /\
                mConn_Start api mc = returns (Some e)))) as Hrest.
  { intros [[c1 e1] w1] Hc. simpl in Hc. subst c1. run_st.
    case_decide as Hself; run_st.
    { rewrite Hsc. destruct (NewNetAddress api _ _); run_st; [|done|done].
      intros [= <- <-] [= <-]. left. constructor. }
    destruct (NodeInfo_CompatibleWith api _ _) as [[e2|]|p|p] eqn:Hc; run_st;
      [| |done|done].
    { intros [= <- <-] [= <-]. left. constructor. }
    apply start_mconn_errors. done. }
  case_decide as Hne.
  - run_st. unfold conn_PubKey. rewrite Hsc.
    destruct (PubKeyToID api (RemotePubKey sc)) as [peerID|p|p] eqn:Hid;
      run_st; [|done|done].
    case_decide as Hmis; run_st.
    { intros [= <- <-] [= <-]. left. constructor. }
    intros Hrun. eapply (Hrest ({| conn := Some c0; err := e0 |}, w)); [done|].
    exact Hrun.
  - intros Hrun. eapply (Hrest ({| conn := Some c0; err := e0 |}, w)); [done|].
    exact Hrun.
Qed.

Lemma newMConnConnection_body_errors transport tcpConn (expectPeerID : ID) w e f' w' :
  newMConnConnection_body api transport tcpConn expectPeerID
    ({| conn := None; err := None |}, w) = (returns tt, (f', w')) ->
  err f' = Some e ->
  handshake_rejection tcpConn e \/
  (exists sc mc,
     tmconn_MakeSecretConnection api tcpConn (privKey transport)
       = returns (inl sc) /\
     tmconn_NewMConnectionWithConfig api sc (channelDescs transport)
       = returns mc /\
     mConn_Start api mc = returns (Some e)).
Proof.
  unfold newMConnConnection_body. run_st.
  destruct (conn_SetDeadline api _ tcpConn (Some _)) as [[e1|]|p|p] eqn:Hd; run_st;
    [intros [= <- <-] [= <-]; left; constructor| |done|done].
  destruct (tmconn_MakeSecretConnection api tcpConn _) as [[sc|e1]|p|p] eqn:Hs;
    run_st; [|intros [= <- <-] [= <-]; left; constructor|done|done].
  unfold handshake. run_st.
  destruct (WriteMsg api sc _) as [[ew|]|pw|pw] eqn:Hw;
    destruct (ReadMsg api sc) as [[pb [er|]]|pr|pr] eqn:Hr;
    destruct (write_reports_first api sc); cbn [go]; run_st;
    try done; try (intros [= <- <-] [= <-]; left; constructor).
  all: destruct (DefaultNodeInfoFromProto api pb) as [[info [e1|]]|p|p] eqn:Hp;
    run_st; [intros [= <- <-] [= <-]; left; constructor| |done|done].
  all: destruct (NodeInfo_Validate api info) as [[e1|]|p|p] eqn:Hv; run_st;
    [intros [= <- <-] [= <-]; left; constructor| |done|done].
  all: intros Hrun He;
    pose proof (fun H => verify_peer_errors _ _ _ _ _ _ sc _ _ _ H Hrun He) as Hx;
    destruct (Hx eq_refl) as [?|(mc & ? & ?)]; [by left|right; by exists sc, mc].
Qed.

(** X24. Every error that [newMConnConnection] returns is one of its
    seven rejections of the socket that was handed to it, flagged as
    exactly one of authentication failure, invalid node info, self and
    incompatible, and never as duplicate or filtered; with one
    exception: an error of [mConn.Start] is returned as it is, not
    wrapped into a rejection. No rejection is ever made from a channel
    id: [newMConnConnection] never builds the "mconn failed" rejection
    of its stream loop. *)
Theorem newMConnConnection_errors
    (transport : mConnTransport) (tcpConn : net_Conn) (expectPeerID : ID)
    (w w' : world) (c : option mConnConnection) (e : error) :
  newMConnConnection api transport tcpConn expectPeerID w
    = (returns (c, Some e), w') ->
  (handshake_rejection tcpConn e /\
   exists rej cause,
     e = ErrRejected rej cause /\ rej_conn rej = Some tcpConn /\
     isDuplicate rej = false /\ isFiltered rej = false /\
     (isAuthFailure rej, isNodeInfoInvalid rej, isSelf rej, isIncompatible rej)
       ∈ [(true, false, false, false); (false, true, false, false);
          (false, false, true, false); (false, false, false, true)] /\
     (isAuthFailure rej = true ->
      forall args, cause <> Some (fmt_Errorf "mconn failed: %v" args))) \/
  (exists sc mc,
     tmconn_MakeSecretConnection api tcpConn (privKey transport)
       = returns (inl sc) /\
     tmconn_NewMConnectionWithConfig api sc (channelDescs transport)
       = returns mc /\
     mConn_Start api mc = returns (Some e)).
Proof.
  unfold newMConnConnection.
  destruct (newMConnConnection_body api transport tcpConn expectPeerID _)
    as [[[]|p|p] [f1 w1]] eqn:Hbody.
  - intros [= <- He <-].
    destruct (newMConnConnection_body_errors _ _ _ _ _ _ _ Hbody He)
      as [Hrej|Hstart]; [left|by right].
    split; [done|]. destruct Hrej; eexists _, _; split_and!; try done;
      set_solver.
  - intros [= <- <- <-]. left. split; [constructor|].
    eexists _, _. split_and!; try done. set_solver.
  - done.
Qed.
End HandshakeErrors.

Lemma handshake_needs_both_transfers_witness :
  secretConn connection_bb = Some secretConn_bb /\
  exists r,
    handshake (example_api false) example_transport connection_bb empty_world
    = (r, {| conns := conns empty_world;
             trace := trace empty_world ++
                      [ev_exchange_NodeInfo (sc_conn secretConn_bb)] |}) /\
    r = returns ({| DefaultNodeID := "bb"; Network := "chain-A" |}, None).
Proof.
  split; [reflexivity|].
  exact (handshake_needs_both_transfers (example_api false) example_transport
           connection_bb secretConn_bb empty_world eq_refl).
Defined.

Lemma newMConnConnection_errors_witness :
  newMConnConnection (example_api false) example_transport peer_bb "dd"
    empty_world
  = (returns (Some connection_bb_rejected,
              Some (mismatch_rejection peer_bb "bb" "dd")),
     {| conns := ∅; trace := take 3 handshake_trace_bb |}) /\
  ((handshake_rejection peer_bb (mismatch_rejection peer_bb "bb" "dd") /\
    exists rej cause,
      mismatch_rejection peer_bb "bb" "dd" = ErrRejected rej cause /\
      rej_conn rej = Some peer_bb /\
      isDuplicate rej = false /\ isFiltered rej = false /\
      (isAuthFailure rej, isNodeInfoInvalid rej, isSelf rej, isIncompatible rej)
        ∈ [(true, false, false, false); (false, true, false, false);
           (false, false, true, false); (false, false, false, true)] /\
      (isAuthFailure rej = true ->
       forall args, cause <> Some (fmt_Errorf "mconn failed: %v" args))) \/
   (exists sc mc,
      tmconn_MakeSecretConnection (example_api false) peer_bb
        (privKey example_transport) = returns (inl sc) /\
      tmconn_NewMConnectionWithConfig (example_api false) sc
        (channelDescs example_transport) = returns mc /\
      mConn_Start (example_api false) mc
        = returns (Some (mismatch_rejection peer_bb "bb" "dd")))).
Proof.
  split; [vm_compute; reflexivity|].
  apply (newMConnConnection_errors (example_api false) example_transport
           peer_bb "dd" empty_world
           {| conns := ∅; trace := take 3 handshake_trace_bb |}
           (Some connection_bb_rejected)).
  vm_compute. reflexivity.
Defined.

(** ** The panic boundary of the handshake *)

Section PanicBoundary.
Context (api : Collaborators).

(** C2, as amended.  No panic of [newMConnConnection] reaches its
    caller.  A panic that a call made on its own goroutine raises is
    recovered, at whichever call it is raised: arming the deadline,
    making the secure channel, decoding or validating the node info,
    deriving the peer id, building the address of a self connection,
    the compatibility check, clearing the deadline, the construction
    of the multiplexer, the remote endpoint for the logger, and the
    start of the multiplexer.  [newMConnConnection] then returns, with
    a rejection of the socket that is flagged as an authentication
    failure and carries the panic value.  A panic of the write or of
    the read of the node info is outside this boundary: it is raised in
    a goroutine of its own, no [recover] sees it, and it ends the
    program. *)
Theorem newMConnConnection_contains_panics
    (transport : mConnTransport) (tcpConn : net_Conn) (expectPeerID : ID)
    (w : world) :
  let closed := socket_closed tcpConn (trace w) in
  let contained := panic_is_contained api transport tcpConn expectPeerID w in
  (forall r,
     (newMConnConnection api transport tcpConn expectPeerID w).1 <> panics r) /\
  (forall r,
     conn_SetDeadline api closed tcpConn (Some (handshakeTimeout transport))
       = panics r -> contained r) /\
  (conn_SetDeadline api closed tcpConn (Some (handshakeTimeout transport))
     = returns None ->
   (forall r,
      tmconn_MakeSecretConnection api tcpConn (privKey transport) = panics r ->
      contained r) /\
   forall sc,
     tmconn_MakeSecretConnection api tcpConn (privKey transport)
       = returns (inl sc) ->
     ((exists r, WriteMsg api sc (t_nodeInfo transport) = panics r) \/
      (exists r, ReadMsg api sc = panics r) ->
      exists r w',
        newMConnConnection api transport tcpConn expectPeerID w
        = (crashes r, w')) /\
     forall pb,
       WriteMsg api sc (t_nodeInfo transport) = returns None ->
       ReadMsg api sc = returns (pb, None) ->
       (forall r, DefaultNodeInfoFromProto api pb = panics r -> contained r) /\
       forall info,
         DefaultNodeInfoFromProto api pb = returns (info, None) ->
         (forall r, NodeInfo_Validate api info = panics r -> contained r) /\
         (NodeInfo_Validate api info = returns None ->
          (expectPeerID <> "" ->
           forall r, PubKeyToID api (RemotePubKey sc) = panics r ->
                     contained r) /\
          (expectPeerID = "" \/
           PubKeyToID api (RemotePubKey sc) = returns expectPeerID ->
           (NodeInfo_ID (t_nodeInfo transport) = NodeInfo_ID info ->
            forall r,
              NewNetAddress api (NodeInfo_ID info) (RemoteAddr (sc_conn sc))
                = panics r -> contained r) /\
           (NodeInfo_ID (t_nodeInfo transport) <> NodeInfo_ID info ->
            (forall r,
               NodeInfo_CompatibleWith api (t_nodeInfo transport) info
                 = panics r -> contained r) /\
            (NodeInfo_CompatibleWith api (t_nodeInfo transport) info
               = returns None ->
             (forall r, conn_SetDeadline api closed tcpConn None = panics r ->
                        contained r) /\
             (conn_SetDeadline api closed tcpConn None = returns None ->
              (forall r,
                 tmconn_NewMConnectionWithConfig api sc (channelDescs transport)
                   = panics r -> contained r) /\
              forall mc,
                tmconn_NewMConnectionWithConfig api sc (channelDescs transport)
                  = returns mc ->
                (forall r, TCPAddr_of api (RemoteAddr (sc_conn sc)) = panics r ->
                           contained r) /\
                forall addr,
                  TCPAddr_of api (RemoteAddr (sc_conn sc)) = returns addr ->
                  forall r, mConn_Start api mc = panics r ->
                            contained r)))))).
Proof.
  intros closed contained. subst closed contained.
  unfold panic_is_contained.
  split.
  { intros r. unfold newMConnConnection.
    by destruct (newMConnConnection_body _ _ _ _ _) as [[[]|p|p] [f w']]. }
  split.
  { intros r Hd. unfold newMConnConnection, newMConnConnection_body. run_st.
    rewrite Hd. by eexists _, _. }
  intros Hd. split.
  { intros r Hs. unfold newMConnConnection, newMConnConnection_body. run_st.
    rewrite Hd. run_st. rewrite Hs. by eexists _, _. }
  intros sc Hs. split.
  { intros Hpanic.
    assert (exists r, (go (WriteMsg api sc (t_nodeInfo transport)),
                       go (ReadMsg api sc)) = (inr r, go (ReadMsg api sc)) \/
                      exists x, (go (WriteMsg api sc (t_nodeInfo transport)),
                                 go (ReadMsg api sc)) = (inl x, inr r))
      as Hgo.
    { destruct Hpanic as [[r Hw]|[r Hr]].
      - exists r. left. by rewrite Hw.
      - rewrite Hr. simpl.
        destruct (go (WriteMsg api sc (t_nodeInfo transport))) as [x|r'].
        + exists r. right. by exists x.
        + exists r'. by left. }
    unfold newMConnConnection, newMConnConnection_body, handshake. run_st.
    rewrite Hd. run_st. rewrite Hs. run_st.
    destruct (go (WriteMsg api sc (t_nodeInfo transport))) as [x|p1];
      destruct (go (ReadMsg api sc)) as [y|p2]; run_st.
    - exfalso. destruct Hgo as [r [[=]|[x' [=]]]].
    - by eexists _, _.
    - by eexists _, _.
    - by eexists _, _. }
  intros pb Hw Hr. split.
  { intros r Hp. unfold newMConnConnection, newMConnConnection_body, handshake.
    run_st. rewrite Hd. run_st. rewrite Hs. run_st. rewrite Hw, Hr. simpl.
    destruct (write_reports_first api sc); run_st; rewrite Hp;
      by eexists _, _. }
  intros info Hp. split.
  { intros r Hv. unfold newMConnConnection, newMConnConnection_body, handshake.
    run_st. rewrite Hd. run_st. rewrite Hs. run_st. rewrite Hw, Hr. simpl.
    destruct (write_reports_first api sc); run_st; rewrite Hp; run_st;
      rewrite Hv; by eexists _, _. }
  intros Hv.
  pose proof (newMConnConnection_validated api transport tcpConn expectPeerID
                w sc pb info Hd Hs Hw Hr Hp Hv) as Hbody.
  unfold newMConnConnection. rewrite Hbody. clear Hbody.
  split.
  { intros Hne r Hid. unfold verify_peer. rewrite decide_True by done.
    run_st. rewrite Hid. by eexists _, _. }
  intros Hexp.
  assert (forall e0 w0 (k : ST (frame * world) unit),
            verify_peer api transport tcpConn expectPeerID
              ({| conn := Some {| logger := None; secretConn := Some sc;
                                  mConn := None; streams := ∅;
                                  nodeInfo := info |};
                  err := e0 |}, w0)
            = (c ← get_conn;
               if decide (NodeInfo_ID (t_nodeInfo transport)
                          = NodeInfo_ID (nodeInfo c)) then
                 addr ← match secretConn c with
                        | Some sc =>
                          ext (NewNetAddress api (NodeInfo_ID (nodeInfo c))
                                 (RemoteAddr (sc_conn sc)))
                        | None => nil_dereference
                        end;
                 set_err (Some (ErrRejected
                                  (self (with_id (NodeInfo_ID (nodeInfo c))
                                           (with_addr addr (rejected tcpConn))))
                                  None))
               else
                 e ← ext (NodeInfo_CompatibleWith api (t_nodeInfo transport)
                            (nodeInfo c));
                 set_err e;;
                 if e is Some _ then
                   set_err (Some (ErrRejected
                                    (incompatible (with_id (NodeInfo_ID (nodeInfo c))
                                                     (rejected tcpConn)))
                                    e))
                 else start_mconn api transport tcpConn)
                ({| conn := Some {| logger := None; secretConn := Some sc;
                                    mConn := None; streams := ∅;
                                    nodeInfo := info |};
                    err := e0 |}, w0)) as Hident.
  { intros e0 w0 _. unfold verify_peer. case_decide as Hne.
    - destruct Hexp as [->|Hid]; [done|].
      run_st. rewrite Hid. run_st. by rewrite decide_False by (by intros ?).
    - by run_st. }
  split.
  { intros Hself r Ha. rewrite Hident by exact (mret tt). run_st.
    rewrite decide_True by done. rewrite Ha. by eexists _, _. }
  intros Hself. split.
  { intros r Hc. rewrite Hident by exact (mret tt). run_st.
    rewrite decide_False by done. rewrite Hc. by eexists _, _. }
  intros Hc.
  rewrite (verify_peer_passes api transport tcpConn expectPeerID _ _ _ sc)
    by done.
  assert (socket_closed tcpConn
            (trace w ++
             [ev_SetDeadline tcpConn (Some (handshakeTimeout transport));
              ev_MakeSecretConnection tcpConn;
              ev_exchange_NodeInfo (sc_conn sc)])
          = socket_closed tcpConn (trace w)) as Hclosed.
  { rewrite socket_closed_app. simpl. by rewrite orb_false_r. }
  unfold start_mconn. run_st. rewrite Hclosed. split.
  { intros r Hd'. rewrite Hd'. by eexists _, _. }
  intros Hd'. rewrite Hd'. run_st.
  match goal with
  | |- context [make_streams ?t ?d ({| conn := Some ?c0; err := _ |}, ?w0)] =>
    destruct (make_streams_runs t d c0 w0) as (c1 & Hrun & Hl & Hsc & Hm & Hn & Hst)
  end.
  rewrite Hrun. run_st. rewrite Hsc. simpl. split.
  { intros r Hmc. rewrite Hmc. by eexists _, _. }
  intros mc Hmc. rewrite Hmc. run_st.
  unfold RemoteEndpoint. simpl. rewrite Hsc. simpl. split.
  { intros r Ha. rewrite Ha. by eexists _, _. }
  intros [ip port] Ha r Hst'. rewrite Ha. run_st. rewrite Hst'.
  by eexists _, _.
Qed.
End PanicBoundary.

(** C2 as stated does not hold for every panic raised while
    [newMConnConnection] runs.  When the write of the node info panics,
    in the goroutine that [handshake] has started for it, the deferred
    function of [newMConnConnection] does not see the panic: nothing is
    returned to the caller, and the program ends after the deadline has
    been armed, the secure channel made and the exchange started. *)
Lemma transfer_panic_is_not_contained :
  WriteMsg example_api_write_panics secretConn_bb (t_nodeInfo example_transport)
    = panics "slice bounds out of range" /\
  newMConnConnection example_api_write_panics example_transport peer_bb ""
    empty_world
  = (crashes "slice bounds out of range",
     {| conns := ∅; trace := take 3 handshake_trace_bb |}) /\
  (forall c e w',
     newMConnConnection example_api_write_panics example_transport peer_bb ""
       empty_world <> (returns (c, e), w')).
Proof.
  assert (newMConnConnection example_api_write_panics example_transport
            peer_bb "" empty_world
          = (crashes "slice bounds out of range",
             {| conns := ∅; trace := take 3 handshake_trace_bb |})) as Hrun
    by (vm_compute; reflexivity).
  split_and!; [reflexivity|exact Hrun|].
  intros c e w'. by rewrite Hrun.
Qed.

Lemma newMConnConnection_contains_panics_witness :
  (conn_SetDeadline (example_api true)
     (socket_closed peer_bb (trace empty_world)) peer_bb
     (Some (handshakeTimeout example_transport)) = returns None /\
   tmconn_MakeSecretConnection (example_api true) peer_bb
     (privKey example_transport) = returns (inl secretConn_bb) /\
   WriteMsg (example_api true) secretConn_bb (t_nodeInfo example_transport)
     = returns None /\
   ReadMsg (example_api true) secretConn_bb = returns ("bb", None) /\
   DefaultNodeInfoFromProto (example_api true) "bb"
     = returns ({| DefaultNodeID := "bb"; Network := "chain-A" |}, None) /\
   NodeInfo_Validate (example_api true)
     {| DefaultNodeID := "bb"; Network := "chain-A" |} = returns None /\
   PubKeyToID (example_api true) (RemotePubKey secretConn_bb) = returns "bb" /\
   NodeInfo_ID (t_nodeInfo example_transport) <> "bb" /\
   NodeInfo_CompatibleWith (example_api true) (t_nodeInfo example_transport)
     {| DefaultNodeID := "bb"; Network := "chain-A" |} = returns None /\
   conn_SetDeadline (example_api true)
     (socket_closed peer_bb (trace empty_world)) peer_bb None = returns None /\
   tmconn_NewMConnectionWithConfig (example_api true) secretConn_bb
     (channelDescs example_transport) = panics "unknown channel priority") /\
  panic_is_contained (example_api true) example_transport peer_bb "bb"
    empty_world "unknown channel priority".
Proof.
  split; [split_and!; try reflexivity; discriminate|].
  destruct (newMConnConnection_contains_panics (example_api true)
              example_transport peer_bb "bb" empty_world) as (_ & _ & H).
  destruct (H eq_refl) as [_ H1].
  destruct (H1 secretConn_bb eq_refl) as [_ H2].
  destruct (H2 "bb" eq_refl eq_refl) as [_ H3].
  destruct (H3 {| DefaultNodeID := "bb"; Network := "chain-A" |} eq_refl)
    as [_ H4].
  destruct (H4 eq_refl) as [_ H5].
  destruct (H5 (or_intror eq_refl)) as [_ H6].
  destruct (H6 ltac:(discriminate)) as [_ H7].
  destruct (H7 eq_refl) as [_ H8].
  destruct (H8 eq_refl) as [H9 _].
  exact (H9 "unknown channel priority" eq_refl).
Defined.
